(** * Zabbix agent deployment orchestrator (scripts/deploy-agents.py)

    A shallow embedding of the orchestrator and the properties its
    specification states about it.

    Conventions of the embedding.
    - A Python [str] is a [string]; each character stands for one code point
      below 256.
    - A Python [dict] with string keys is a [gmap string _].
    - Values read from the state file are JSON values ([json]); Python's
      [None] is [JNull].
    - Everything the script does to the outside world (the state file, the
      clock, the terminal, the remote hosts, the log files) is threaded
      through a [World]; the answers of the outside world are oracles held
      in [World] and [Env].
    - An exception of class [Exception] is a value of [exn]; [sys.exit] is
      the separate control outcome [SysExit], which [except Exception] does
      not catch. *)

From stdpp Require Import gmap strings list fin_maps pretty sorting.
From Stdlib Require Import ZArith Lia Ascii Permutation.
From Stdlib Require String.

Set Warnings "-register-all".
Local Open Scope Z_scope.

(* ===================================================================== *)
(** * Python strings                                                      *)
(* ===================================================================== *)

Module PyStr.

Definition chars (s : string) : list ascii := String.list_ascii_of_string s.
Definition str (l : list ascii) : string := String.string_of_list_ascii l.

(** [len(s)] *)
Definition len (s : string) : nat := String.length s.

(** [str.isspace] on one character, for code points below 256:
    U+0009..U+000D, U+001C..U+001F, U+0020, U+0085, U+00A0. *)
Definition isspace (c : ascii) : bool :=
  let n := nat_of_ascii c in
  ((9 <=? n)%nat && (n <=? 13)%nat)
  || ((28 <=? n)%nat && (n <=? 32)%nat)
  || (n =? 133)%nat || (n =? 160)%nat.

Fixpoint lstrip_chars (l : list ascii) : list ascii :=
  match l with
  | c :: l' => if isspace c then lstrip_chars l' else l
  | [] => []
  end.

Definition strip_chars (l : list ascii) : list ascii :=
  rev (lstrip_chars (rev (lstrip_chars l))).

(** [s.strip()] *)
Definition strip (s : string) : string := str (strip_chars (chars s)).

(** [s[-n:]] for [n > 0]: the last [n] characters, all of [s] when it is
    shorter. *)
Definition last_n (n : nat) (s : string) : string :=
  str (drop (length (chars s) - n)%nat (chars s)).

(** truthiness of a string: [bool(s)] *)
Definition nonempty (s : string) : bool :=
  match s with EmptyString => false | _ => true end.

(** [sep.join(parts)] *)
Fixpoint join (sep : string) (parts : list string) : string :=
  match parts with
  | [] => ""
  | [p] => p
  | p :: rest => p +:+ sep +:+ join sep rest
  end.

(** [p] is an initial / final segment of [s]. *)
Definition starts_with (p s : string) : Prop := ∃ r, s = p +:+ r.
Definition ends_with (q s : string) : Prop := ∃ r, s = r +:+ q.

End PyStr.

(* ===================================================================== *)
(** * Data classes                                                        *)
(* ===================================================================== *)

Record Device := mkDevice {
  device_name : string;
  platform : string;
  tailscale_ip : string;
  location : string;
  client : string;
  chain : string;
  asset_tag : string;
  latitude : string;
  longitude : string;
  ssh_user : string;
  ssh_password : string;
}.

(** [duration_seconds] is a float in the source; durations are kept as
    integer clock ticks here. *)
Record DeploymentResult := mkResult {
  r_device_name : string;
  success : bool;
  duration_seconds : Z;
  error_message : string;
  log_file : string;
}.

(** [subprocess.CompletedProcess], the fields the script reads. *)
Record CompletedProcess := mkProc {
  returncode : Z;
  stdout : string;
  stderr : string;
}.

(* ===================================================================== *)
(** * Exceptions and control                                              *)
(* ===================================================================== *)

Inductive exn_class :=
| IOError            (* alias of OSError: PermissionError, ENOSPC, ... *)
| JSONDecodeError
| UnicodeDecodeError
| TypeError
| AttributeError
| KeyError
| EOFError
| TimeoutExpired     (* subprocess.TimeoutExpired *)
| RuntimeError
| ValueError.

Global Instance exn_class_eq_dec : EqDecision exn_class.
Proof. solve_decision. Defined.

(** An instance of (a subclass of) [Exception]; [exn_str e] is [str(e)]. *)
Record exn := Exn { exn_cls : exn_class; exn_str : string }.

Inductive ctl :=
| Raise (e : exn)       (* an exception is propagating *)
| SysExit (code : Z).   (* [sys.exit(code)] *)

(* ===================================================================== *)
(** * JSON values and the state file                                      *)
(* ===================================================================== *)

Inductive json : Type :=
| JNull
| JBool (b : bool)
| JNum (n : Z)
| JStr (s : string)
| JArr (xs : list json)
| JObj (m : gmap string json).

(** Python truthiness of a value that came out of [json.load]. *)
Definition truthy (v : json) : bool :=
  match v with
  | JNull => false
  | JBool b => b
  | JNum n => negb (n =? 0)
  | JStr s => PyStr.nonempty s
  | JArr xs => match xs with [] => false | _ => true end
  | JObj m => negb (bool_decide (m = ∅))
  end.

(** [v == s] for a string literal [s]. *)
Definition eq_str (v : json) (s : string) : bool :=
  match v with
  | JStr t => bool_decide (t = s)
  | _ => false
  end.

(** What the orchestrator finds at [args.state_file]. *)
Inductive file_state :=
| FAbsent                 (* no such file *)
| FUnreadable             (* exists; [open]/[read] raises IOError *)
| FUndecodable            (* bytes that are not text in the locale's
                             encoding: [read] raises UnicodeDecodeError *)
| FMalformed              (* text that is not JSON: JSONDecodeError *)
| FJson (v : json).       (* text that [json.load] parses to [v] *)

(* ===================================================================== *)
(** * The world                                                           *)
(* ===================================================================== *)

Inductive event :=
| EvProbe (device : string)
| EvScp (device : string) (local_path remote_path : string)
| EvSshRun (device command : string) (timeout : Z) (result : CompletedProcess)
| EvLog (log_file : string) (exit_code : Z) (out err : string)
| EvSave (contents : json)
| EvPrint (line : string).

Record World := mkWorld {
  sm_state : json;             (* [StateManager.state] *)
  state_file : file_state;     (* the file at [args.state_file] *)
  write_faults : list bool;    (* for the coming [open(state_file, "w")]
                                  calls: [true] = the call raises OSError *)
  clock : list Z;              (* coming readings of [time.time()] *)
  stdin : list string;         (* coming answers to [input()] *)
  completions : list nat;      (* which running worker of the pool
                                  finishes next *)
  events : list event;         (* what has been done so far, oldest first *)
}.

(** The read-only surroundings of one run. *)
Record Env := mkEnv {
  (* SSHExecutor over sshpass/ssh/scp *)
  test_connectivity : Device → bool * string;
  scp_file : Device → string → string → exn + CompletedProcess;
  ssh_run : Device → string → Z → exn + CompletedProcess;
  (* local file system *)
  path_exists : string → bool;
  log_write_fault : string → option exn;
  which : string → option string;
  (* the inventory file: [None] when the path does not exist; otherwise
     the rows [csv.reader] yields, and the exception that ends the reading
     when the file cannot be opened or read to its end *)
  inventory_file : string → option (list (list string) * option exn);
  (* [os.makedirs(path, exist_ok=True)]: the exception it raises, if any *)
  makedirs_fault : string → option exn;
  (* the directory above the one of the script *)
  repo_root : string;
  env_ZABBIX_API_TOKEN : string;
  getpass_answer : option string;
  isoformat : Z → string;
}.

(* ===================================================================== *)
(** * The monad of the script: world passing with exceptions              *)
(* ===================================================================== *)

Definition M (A : Type) : Type := World → (ctl + A) * World.

Global Instance M_ret : MRet M := λ A a w, (inr a, w).

Global Instance M_bind : MBind M := λ A B f c w,
  match c w with
  | (inr a, w') => f a w'
  | (inl e, w') => (inl e, w')
  end.

Definition raise {A} (cls : exn_class) (msg : string) : M A :=
  λ w, (inl (Raise (Exn cls msg)), w).

Definition reraise {A} (e : exn) : M A := λ w, (inl (Raise e), w).

Definition sys_exit {A} (code : Z) : M A := λ w, (inl (SysExit code), w).

(** [try: body except Exception as e: handler(e)]. A [SysExit] passes
    through: [SystemExit] is not an [Exception]. *)
Definition try_except {A} (body : M A) (handler : exn → M A) : M A :=
  λ w,
    match body w with
    | (inl (Raise e), w') => handler e w'
    | r => r
    end.

Definition get_world : M World := λ w, (inr w, w).
Definition modify (f : World → World) : M unit := λ w, (inr (), f w).

Definition set_sm_state (v : json) (w : World) : World :=
  mkWorld v (state_file w) (write_faults w) (clock w) (stdin w)
          (completions w) (events w).
Definition set_state_file (f : file_state) (w : World) : World :=
  mkWorld (sm_state w) f (write_faults w) (clock w) (stdin w)
          (completions w) (events w).
Definition set_write_faults (l : list bool) (w : World) : World :=
  mkWorld (sm_state w) (state_file w) l (clock w) (stdin w)
          (completions w) (events w).
Definition set_clock (l : list Z) (w : World) : World :=
  mkWorld (sm_state w) (state_file w) (write_faults w) l (stdin w)
          (completions w) (events w).
Definition set_stdin (l : list string) (w : World) : World :=
  mkWorld (sm_state w) (state_file w) (write_faults w) (clock w) l
          (completions w) (events w).
Definition set_completions (l : list nat) (w : World) : World :=
  mkWorld (sm_state w) (state_file w) (write_faults w) (clock w) (stdin w)
          l (events w).
Definition add_event (ev : event) (w : World) : World :=
  mkWorld (sm_state w) (state_file w) (write_faults w) (clock w) (stdin w)
          (completions w) (events w ++ [ev]).

Definition emit (ev : event) : M unit := modify (add_event ev).

(** [print(line)] *)
Definition print (line : string) : M unit := emit (EvPrint line).

(** [time.time()]: the next reading of the clock. *)
Definition time_time : M Z :=
  λ w, match clock w with
       | t :: rest => (inr t, set_clock rest w)
       | [] => (inr 0, w)
       end.

(** [input(prompt)]: the next line typed; [EOFError] at end of input. *)
Definition input (prompt : string) : M string :=
  λ w, match stdin w with
       | l :: rest => (inr l, set_stdin rest (add_event (EvPrint prompt) w))
       | [] => (inl (Raise (Exn EOFError "EOF when reading a line")),
                add_event (EvPrint prompt) w)
       end.

(** The events a computation added to the log of [w]. *)
Definition new_events (w w' : World) : list event :=
  drop (length (events w)) (events w').

(** The exit status the operating system sees. An uncaught exception ends
    the interpreter with status 1. *)
Definition process_exit_code {A} (r : (ctl + A) * World) : Z :=
  match r.1 with
  | inr _ => 0
  | inl (SysExit code) => code
  | inl (Raise _) => 1
  end.

(* ===================================================================== *)
(** * State Manager                                                       *)
(* ===================================================================== *)

Section Orchestrator.

Context (env : Env).

(** [os.path.exists(self.state_file)] *)
Definition state_file_exists : M bool :=
  λ w, (inr (match state_file w with FAbsent => false | _ => true end), w).

(** [with open(self.state_file) as f: json.load(f)] *)
Definition open_json_load : M json :=
  λ w, match state_file w with
       | FAbsent => raise IOError "No such file or directory" w
       | FUnreadable => raise IOError "Permission denied" w
       | FUndecodable => raise UnicodeDecodeError "invalid start byte" w
       | FMalformed => raise JSONDecodeError "Expecting value" w
       | FJson v => (inr v, w)
       end.

(** [StateManager._load] *)
Definition _load : M json :=
  ex ← state_file_exists;
  if ex : bool then
    try_except open_json_load
      (λ e, if bool_decide (exn_cls e = JSONDecodeError ∨ exn_cls e = IOError)
            then mret (JObj ∅)
            else reraise e)
  else mret (JObj ∅).

(** [StateManager.__init__]: [self.state = self._load()] *)
Definition StateManager_init : M unit :=
  st ← _load;
  modify (set_sm_state st).

(** [StateManager._save]: under the lock, open the state file for writing
    and dump the whole of [self.state]. *)
Definition _save : M unit :=
  λ w, match write_faults w with
       | true :: rest =>
           raise IOError "Permission denied" (set_write_faults rest w)
       | faults =>
           (inr (), add_event (EvSave (sm_state w))
                      (set_state_file (FJson (sm_state w))
                         (set_write_faults (tail faults) w)))
       end.

(** [d.get(key)] on whatever [d] is: only a dict has [get]. *)
Definition py_get (d : json) (key : string) : M json :=
  match d with
  | JObj m => mret (default JNull (m !! key))
  | _ => raise AttributeError "object has no attribute 'get'"
  end.

(** [StateManager.get_status] *)
Definition get_status (device_name : string) : M json :=
  w ← get_world;
  entry ← py_get (sm_state w) device_name;
  if truthy entry then py_get entry "status" else mret JNull.

(** [self.state[device_name] = entry] *)
Definition state_setitem (device_name : string) (entry : json) : M unit :=
  λ w, match sm_state w with
       | JObj m => (inr (), set_sm_state (JObj (<[device_name := entry]> m)) w)
       | _ => raise TypeError "object does not support item assignment" w
       end.

(** [datetime.datetime.now().isoformat()] *)
Definition datetime_now_isoformat : M string :=
  t ← time_time; mret (isoformat env t).

Definition state_entry (status timestamp : string) (error : json) : json :=
  JObj (<["status" := JStr status]>
        (<["timestamp" := JStr timestamp]>
         (<["error" := error]> ∅))).

(** [StateManager.mark_success] *)
Definition mark_success (device_name : string) : M unit :=
  now ← datetime_now_isoformat;
  state_setitem device_name (state_entry "success" now JNull);;
  _save.

(** [StateManager.mark_failed] *)
Definition mark_failed (device_name : string) (error : string) : M unit :=
  now ← datetime_now_isoformat;
  state_setitem device_name (state_entry "failed" now (JStr error));;
  _save.

(* ===================================================================== *)
(** * Deployment logic                                                    *)
(* ===================================================================== *)

Definition squote : ascii := "'"%char.
Definition dquote : ascii := "034"%char.

(** The characters [shlex.quote] leaves alone: [[A-Za-z0-9_@%+=:,./-]]. *)
Definition shlex_safe_char (c : ascii) : bool :=
  let n := nat_of_ascii c in
  ((48 <=? n)%nat && (n <=? 57)%nat)          (* 0-9 *)
  || ((65 <=? n)%nat && (n <=? 90)%nat)       (* A-Z *)
  || ((97 <=? n)%nat && (n <=? 122)%nat)      (* a-z *)
  || bool_decide (c ∈ ["_"; "@"; "%"; "+"; "="; ":"; ","; "."; "/"; "-"]%char).

(** [_find_unsafe(s) is None] *)
Fixpoint shlex_all_safe (s : string) : bool :=
  match s with
  | EmptyString => true
  | String c s' => shlex_safe_char c && shlex_all_safe s'
  end.

(** [s.replace("'", "'\"'\"'")]: every single quote becomes the five
    characters quote, double quote, quote, double quote, quote. *)
Fixpoint replace_squote (s : string) : string :=
  match s with
  | EmptyString => EmptyString
  | String c s' =>
      if bool_decide (c = squote)
      then String squote (String dquote (String squote
             (String dquote (String squote (replace_squote s')))))
      else String c (replace_squote s')
  end.

(** [shlex.quote] of the Python standard library. *)
Definition shlex_quote (s : string) : string :=
  if negb (PyStr.nonempty s) then "''"
  else if shlex_all_safe s then s
  else String squote (replace_squote s +:+ String squote EmptyString).

(** The parts list of [build_env_string]. *)
Definition env_parts (device : Device) (zabbix_token : string) : list string :=
  let parts := ["DEVICE_NAME=" +:+ shlex_quote (device_name device)] in
  let parts := if PyStr.nonempty (location device)
               then parts ++ ["LOCATION=" +:+ shlex_quote (location device)]
               else parts in
  let parts := if PyStr.nonempty (client device)
               then parts ++ ["CLIENT=" +:+ shlex_quote (client device)]
               else parts in
  let parts := if PyStr.nonempty (chain device)
               then parts ++ ["CHAIN=" +:+ shlex_quote (chain device)]
               else parts in
  let parts := if PyStr.nonempty (asset_tag device)
               then parts ++ ["ASSET_TAG=" +:+ shlex_quote (asset_tag device)]
               else parts in
  let parts := if PyStr.nonempty (latitude device)
               then parts ++ ["LATITUDE=" +:+ shlex_quote (latitude device)]
               else parts in
  let parts := if PyStr.nonempty (longitude device)
               then parts ++ ["LONGITUDE=" +:+ shlex_quote (longitude device)]
               else parts in
  let parts := if PyStr.nonempty zabbix_token
               then parts ++ ["ZABBIX_API_TOKEN=" +:+ shlex_quote zabbix_token]
               else parts in
  parts.

(** [build_env_string] *)
Definition build_env_string (device : Device) (zabbix_token : string) : string :=
  PyStr.join " " (env_parts device zabbix_token).

Definition GITHUB_RAW_BASE : string :=
  "https://raw.githubusercontent.com/emilejacobs/zabbix-rollout/main/scripts".

Definition INSTALL_SCRIPTS : gmap string string :=
  <["raspberrypi" := "install-zabbix-agent-raspberrypi.sh"]>
  (<["radxa" := "install-zabbix-agent-radxa.sh"]>
   (<["macos" := "install-zabbix-agent-macos.sh"]> ∅)).

(** [Device.install_script]: [INSTALL_SCRIPTS[self.platform]] *)
Definition install_script (device : Device) : M string :=
  match INSTALL_SCRIPTS !! platform device with
  | Some script => mret script
  | None => raise KeyError (platform device)
  end.

(** [os.path.join(a, b)] on a POSIX host. *)
Definition os_path_join (a b : string) : string :=
  match b with
  | String "/" _ => b
  | _ =>
      match last (PyStr.chars a) with
      | None => b
      | Some "/"%char => a +:+ b
      | Some _ => a +:+ "/" +:+ b
      end
  end.

(** [ssh.test_connectivity(device)]: every failure is already a returned
    pair there, nothing is raised. *)
Definition ssh_test_connectivity (device : Device) : M (bool * string) :=
  emit (EvProbe (device_name device));;
  mret (test_connectivity env device).

(** [ssh.scp_file(device, local_path, remote_path)] *)
Definition ssh_scp_file (device : Device) (local_path remote_path : string)
  : M CompletedProcess :=
  emit (EvScp (device_name device) local_path remote_path);;
  match scp_file env device local_path remote_path with
  | inl e => reraise e
  | inr cp => mret cp
  end.

(** [ssh.ssh_run(device, command, timeout)]; an [EvSshRun] is logged when
    the remote command has run to its end, with what it returned. The
    install command runs under the default timeout of 600 seconds, the
    clean-up under 10. *)
Definition ssh_ssh_run (device : Device) (command : string) (timeout : Z)
  : M CompletedProcess :=
  match ssh_run env device command timeout with
  | inl e => reraise e
  | inr cp =>
      emit (EvSshRun (device_name device) command timeout cp);;
      mret cp
  end.

(** [x or "(empty)\n"] *)
Definition or_empty (x : string) : string :=
  if PyStr.nonempty x then x else "(empty)" +:+ String "010" EmptyString.

(** [write_log]: the log file is opened for writing and receives the exit
    code and both streams. *)
Definition write_log (log_file : string) (device : Device) (exit_code : Z)
    (out err : string) : M unit :=
  match log_write_fault env log_file with
  | Some e => reraise e
  | None => emit (EvLog log_file exit_code (or_empty out) (or_empty err))
  end.

(** The error message of a failed execute step (the [else] branch that
    ends [deploy_device]). *)
Definition execute_error_message (stderr : string) : string :=
  let error := PyStr.strip stderr in
  let error := if (200 <? PyStr.len error)%nat
               then "..." +:+ PyStr.last_n 200 error
               else error in
  let error := if negb (PyStr.nonempty error)
               then "Script exited with non-zero status"
               else error in
  error.

(** The end of [deploy_device], from [duration = time.time() - start_time]
    on, which both the GitHub and the local branch fall through to. *)
Definition conclude (device : Device) (start_time : Z) (log_file : string)
    (result : CompletedProcess) : M DeploymentResult :=
  now ← time_time;
  let duration := now - start_time in
  write_log log_file device (returncode result) (stdout result) (stderr result);;
  if returncode result =? 0 then
    mret (mkResult (device_name device) true duration "" log_file)
  else
    mret (mkResult (device_name device) false duration
            (execute_error_message (stderr result)) log_file).

Definition remote_script : string := "/tmp/install-zabbix-agent.sh".

(** macOS needs [sudo -E] to preserve the environment. *)
Definition sudo_prefix (device : Device) : string :=
  if bool_decide (platform device = "macos") then "sudo -E" else "sudo".

(** [f"{sudo_prefix} {env_vars}..."], the part both install commands
    share; [rest] is what follows the environment string. *)
Definition sudo_line (device : Device) (zabbix_token rest : string) : string :=
  sudo_prefix device +:+ " " +:+ build_env_string device zabbix_token +:+ rest.

(** [deploy_device] *)
Definition deploy_device (device : Device) (zabbix_token scripts_dir log_dir : string)
    (use_github : bool) : M DeploymentResult :=
  start_time ← time_time;
  let log_file := os_path_join log_dir (device_name device +:+ ".log") in
  (* Step 1: test connectivity *)
  '(reachable, msg) ← ssh_test_connectivity device;
  if negb reachable then
    now ← time_time;
    let duration := now - start_time in
    write_log log_file device 1 "" msg;;
    mret (mkResult (device_name device) false duration msg log_file)
  else
    if use_github then
      script ← install_script device;
      let github_url := GITHUB_RAW_BASE +:+ "/" +:+ script in
      let command := "curl -fsSL " +:+ shlex_quote github_url +:+ " | "
                     +:+ sudo_line device zabbix_token " bash" in
      result ← ssh_ssh_run device command 600;
      conclude device start_time log_file result
    else
      script ← install_script device;
      let local_script := os_path_join scripts_dir script in
      if negb (path_exists env local_script) then
        now ← time_time;
        let duration := now - start_time in
        let err := "Local script not found: " +:+ local_script in
        write_log log_file device 1 "" err;;
        mret (mkResult (device_name device) false duration err log_file)
      else
        scp_result ← ssh_scp_file device local_script remote_script;
        if negb (returncode scp_result =? 0) then
          now ← time_time;
          let duration := now - start_time in
          let err := "SCP failed: " +:+ PyStr.strip (stderr scp_result) in
          write_log log_file device (returncode scp_result)
                    (stdout scp_result) err;;
          mret (mkResult (device_name device) false duration err log_file)
        else
          let command :=
            sudo_line device zabbix_token (" bash " +:+ remote_script) in
          result ← ssh_ssh_run device command 600;
          (* clean up the remote script, best effort *)
          try_except
            (ssh_ssh_run device ("rm -f " +:+ remote_script) 10;; mret ())
            (λ _, mret ());;
          conclude device start_time log_file result.

(** [deploy_and_record] *)
Definition deploy_and_record (device : Device)
    (zabbix_token scripts_dir log_dir : string) (use_github : bool)
  : M DeploymentResult :=
  result ← deploy_device device zabbix_token scripts_dir log_dir use_github;
  (if success result
   then mark_success (device_name device)
   else mark_failed (device_name device) (error_message result));;
  mret result.

End Orchestrator.

(* ===================================================================== *)
(** * Inventory: validation and the CSV parser                            *)
(* ===================================================================== *)

(** [str.lower] on one character, for code points below 256: the letters
    A-Z and the accented capitals U+00C0..U+00DE, the multiplication sign
    U+00D7 apart, move up by 32. *)
Definition lower_char (c : ascii) : ascii :=
  let n := nat_of_ascii c in
  if ((65 <=? n)%nat && (n <=? 90)%nat)
     || ((192 <=? n)%nat && (n <=? 222)%nat && negb (n =? 215)%nat)
  then ascii_of_nat (n + 32)
  else c.

(** [s.lower()] *)
Definition str_lower (s : string) : string :=
  PyStr.str (map lower_char (PyStr.chars s)).

(** [VALID_PLATFORMS = set(INSTALL_SCRIPTS.keys())] *)
Definition VALID_PLATFORMS : gset string := dom INSTALL_SCRIPTS.

(** [sorted(names)], by code point. *)
Definition sorted_strings (names : list string) : list string :=
  merge_sort String.le names.

(** [Device.validate] *)
Definition validate (d : Device) : list string :=
  let errors := [] in
  let errors := if negb (PyStr.nonempty (device_name d))
                then errors ++ ["device_name is empty"] else errors in
  let errors := if bool_decide (platform d ∉ VALID_PLATFORMS)
                then errors ++
                     ["platform '" +:+ platform d +:+ "' is invalid "
                      +:+ "(must be one of: "
                      +:+ PyStr.join ", " (sorted_strings (elements VALID_PLATFORMS))
                      +:+ ")"]
                else errors in
  let errors := if negb (PyStr.nonempty (tailscale_ip d))
                then errors ++ ["tailscale_ip is empty"] else errors in
  let errors := if negb (PyStr.nonempty (location d))
                then errors ++ ["location is empty"] else errors in
  let errors := if negb (PyStr.nonempty (ssh_user d))
                then errors ++ ["ssh_user is empty"] else errors in
  let errors := if negb (PyStr.nonempty (ssh_password d))
                then errors ++ ["ssh_password is empty"] else errors in
  errors.

(** A Python [dict] where the order of the keys matters: the pairs in
    insertion order, each key once. [d[k] = v] replaces in place or adds
    at the end. *)
Fixpoint dict_set {K V} `{EqDecision K} (k : K) (v : V) (d : list (K * V))
  : list (K * V) :=
  match d with
  | [] => [(k, v)]
  | (k', v') :: rest =>
      if decide (k = k') then (k, v) :: rest
      else (k', v') :: dict_set k v rest
  end.

(** [d.get(k)] *)
Fixpoint dict_get {K V} `{EqDecision K} (k : K) (d : list (K * V)) : option V :=
  match d with
  | [] => None
  | (k', v') :: rest => if decide (k = k') then Some v' else dict_get k rest
  end.

(** [dict(pairs)] *)
Definition dict_of {K V} `{EqDecision K} (pairs : list (K * V)) : list (K * V) :=
  foldl (λ d kv, dict_set kv.1 kv.2 d) [] pairs.

(** A value of a row of [csv.DictReader]: a cell, [None] for a column the
    row is too short for, or the list of the cells beyond the header. *)
Inductive cell :=
| CStr (s : string)
| CNone
| CList (cells : list string).

(** One row of [csv.DictReader]: [dict(zip(fieldnames, row))], then the
    surplus cells under the key [None], or [None] under the columns that
    are missing. *)
Definition dictreader_row (fieldnames row : list string)
  : list (option string * cell) :=
  let d := dict_of (zip (map Some fieldnames) (map CStr row)) in
  let lf := length fieldnames in
  let lr := length row in
  if (lf <? lr)%nat then dict_set None (CList (drop lf row)) d
  else foldl (λ d key, dict_set (Some key) CNone d) d (drop lr fieldnames).

(** One item of
    [{k.strip().lower(): (v.strip() if v else "") for k, v in row.items()}];
    [None] and a list have no [strip]. *)
Definition normalize_item (kv : option string * cell) : exn + (string * string) :=
  match kv.1 with
  | None => inl (Exn AttributeError "'NoneType' object has no attribute 'strip'")
  | Some k =>
      let key := str_lower (PyStr.strip k) in
      match kv.2 with
      | CStr v => inr (key, if PyStr.nonempty v then PyStr.strip v else "")
      | CNone => inr (key, "")
      | CList [] => inr (key, "")
      | CList _ => inl (Exn AttributeError "'list' object has no attribute 'strip'")
      end
  end.

(** The whole comprehension, item by item in the order of the row. *)
Fixpoint normalize_items (items : list (option string * cell))
    (acc : list (string * string)) : exn + list (string * string) :=
  match items with
  | [] => inr acc
  | kv :: rest =>
      match normalize_item kv with
      | inl e => inl e
      | inr (k, v) => normalize_items rest (dict_set k v acc)
      end
  end.

(** [row.get(name, "")] *)
Definition row_get (name : string) (row : list (string * string)) : string :=
  default "" (dict_get name row).

(** The [Device(...)] of one normalized row. *)
Definition device_of_row (row : list (string * string)) : Device :=
  mkDevice (row_get "device_name" row)
           (str_lower (row_get "platform" row))
           (row_get "tailscale_ip" row)
           (row_get "location" row)
           (row_get "client" row)
           (row_get "chain" row)
           (row_get "asset_tag" row)
           (row_get "latitude" row)
           (row_get "longitude" row)
           (row_get "ssh_user" row)
           (row_get "ssh_password" row).

Definition required_columns : list string :=
  ["device_name"; "platform"; "tailscale_ip"; "location"; "ssh_user";
   "ssh_password"].

(** [required_columns - actual_columns], where [actual_columns] is
    [{c.strip().lower() for c in reader.fieldnames}]. *)
Definition missing_columns (fieldnames : list string) : list string :=
  filter (λ c, c ∉ map (λ f, str_lower (PyStr.strip f)) fieldnames)
         required_columns.

(** The loop of [parse_inventory] over the rows that follow the header,
    as [csv.reader] yields them; [row_num] counts the rows the
    [DictReader] hands over, from 2. A blank line is an empty row, which
    the [DictReader] skips. The dash of the warning is written in ASCII. *)
Fixpoint parse_rows (fieldnames : list string) (rows : list (list string))
    (row_num : nat) (devices : list Device) : M (list Device) :=
  match rows with
  | [] => mret devices
  | [] :: rest => parse_rows fieldnames rest row_num devices
  | cells :: rest =>
      match normalize_items (dictreader_row fieldnames cells) [] with
      | inl e => reraise e
      | inr row =>
          if negb (PyStr.nonempty (row_get "device_name" row)) then
            parse_rows fieldnames rest (S row_num) devices
          else
            let device := device_of_row row in
            let errors := validate device in
            match errors with
            | _ :: _ =>
                print ("WARNING: Row " +:+ pretty row_num +:+ " ("
                       +:+ device_name device +:+ "): "
                       +:+ PyStr.join "; " errors +:+ " - skipping");;
                parse_rows fieldnames rest (S row_num) devices
            | [] => parse_rows fieldnames rest (S row_num) (devices ++ [device])
            end
      end
  end.

(** [parse_inventory], on the rows [csv.reader] yields for the file; the
    first row is the header. *)
Definition parse_inventory (lines : list (list string)) : M (list Device) :=
  match lines with
  | [] =>
      print "ERROR: CSV file is empty or has no header row";; sys_exit 1
  | fieldnames :: rows =>
      match missing_columns fieldnames with
      | _ :: _ =>
          print ("ERROR: CSV is missing required columns: "
                 +:+ PyStr.join ", "
                       (sorted_strings (missing_columns fieldnames)));;
          print ("  Found columns: " +:+ PyStr.join ", " fieldnames);;
          sys_exit 1
      | [] => parse_rows fieldnames rows 2 []
      end
  end.

(* ===================================================================== *)
(** * Command line and main                                               *)
(* ===================================================================== *)

(** The parsed command line. An option that was not given is the empty
    string (it is only ever tested for truth). [args.state_file] names the
    file whose content is [state_file] of the world. *)
Record Args := mkArgs {
  a_inventory : string;
  a_token : string;
  a_scripts_dir : string;
  a_log_dir : string;
  a_state_file : string;
  a_device : string;
  a_platform : string;
  a_github : bool;
  a_dry_run : bool;
  a_check : bool;
  a_resume : bool;
  a_retry_failed : bool;
  a_force : bool;
  a_parallel : Z;
}.

Definition set_parallel (n : Z) (a : Args) : Args :=
  mkArgs (a_inventory a) (a_token a) (a_scripts_dir a) (a_log_dir a)
         (a_state_file a) (a_device a) (a_platform a) (a_github a)
         (a_dry_run a) (a_check a) (a_resume a) (a_retry_failed a)
         (a_force a) n.

Definition set_dirs (scripts_dir log_dir state_file : string) (a : Args)
  : Args :=
  mkArgs (a_inventory a) (a_token a) scripts_dir log_dir state_file
         (a_device a) (a_platform a) (a_github a) (a_dry_run a) (a_check a)
         (a_resume a) (a_retry_failed a) (a_force a) (a_parallel a).

(** What [parser.parse_args()] does with the command line. Asked for help
    it prints the help and exits with status 0. A command line it cannot
    accept (no [--inventory], an unknown option, a [--platform] outside
    the three choices, a [--parallel] that is no integer) makes it write
    the usage and the error to standard error, which the trace does not
    follow, and exit with status 2. Otherwise it returns the namespace. *)
Inductive argparse_outcome :=
| ArgHelp (help : string)
| ArgError (usage : string)
| ArgNamespace (namespace : Args).

(** A namespace is the outcome of a command line that was accepted. *)
Coercion ArgNamespace : Args >-> argparse_outcome.

Section Main.

Context (env : Env).

(** [x or default] on an option that may be missing. *)
Definition or_default (x default : string) : string :=
  if PyStr.nonempty x then x else default.

(** [parse_args]: the parser, the defaults relative to the place of the
    script, and the range of [--parallel]. *)
Definition parse_args (cmdline : argparse_outcome) : M Args :=
  match cmdline with
  | ArgHelp help => print help;; sys_exit 0
  | ArgError _ => sys_exit 2
  | ArgNamespace args =>
      let args :=
        set_dirs (or_default (a_scripts_dir args)
                    (os_path_join (repo_root env) "scripts"))
                 (or_default (a_log_dir args)
                    (os_path_join (repo_root env) "logs"))
                 (or_default (a_state_file args)
                    (os_path_join (repo_root env) "rollout-state.json"))
                 args in
      if a_parallel args <? 1 then mret (set_parallel 1 args)
      else if 5 <? a_parallel args then
        print "WARNING: Limiting parallel deployments to 5";;
        mret (set_parallel 5 args)
      else mret args
  end.

(** [check_prerequisites] *)
Definition check_prerequisites (dry_run : bool) : M string :=
  let sshpass_path := which env "sshpass" in
  (if bool_decide (sshpass_path = None) && negb dry_run then
     print "ERROR: sshpass is not installed.";;
     sys_exit 1
   else mret ());;
  (if negb dry_run then
     (if bool_decide (which env "ssh" = None) then
        print "ERROR: ssh is not installed";; sys_exit 1
      else mret ());;
     (if bool_decide (which env "scp" = None) then
        print "ERROR: scp is not installed";; sys_exit 1
      else mret ())
   else mret ());;
  mret (default "sshpass" sshpass_path).

(** [s.strip().lower() != "y"]; among the code points below 256 only
    [y] and [Y] lower to [y]. *)
Definition answered_yes (response : string) : bool :=
  let r := PyStr.strip response in
  bool_decide (r = "y") || bool_decide (r = "Y").

(** Step 1 of [main]: the Zabbix API token. *)
Definition get_token (args : Args) : M string :=
  let zabbix_token :=
    if PyStr.nonempty (a_token args) then a_token args
    else env_ZABBIX_API_TOKEN env in
  if negb (PyStr.nonempty zabbix_token) && negb (a_dry_run args)
     && negb (a_check args) then
    print "No ZABBIX_API_TOKEN provided.";;
    print "The agent will install but tags/inventory will not be populated.";;
    response ← input "Continue without API token? [y/N]: ";
    if negb (answered_yes response) then
      match getpass_answer env with
      | Some t => mret t
      | None => print "Aborted.";; sys_exit 1
      end
    else mret zabbix_token
  else mret zabbix_token.

(** [parse_inventory(args.inventory)] on the file as it is found: the
    parser runs over the rows that can be read, and the exception that
    ends the reading, if there is one, is raised where the parser asks for
    the next row. *)
Definition read_inventory (lines : list (list string)) (fault : option exn)
  : M (list Device) :=
  match fault with
  | None => parse_inventory lines
  | Some e =>
      match lines with
      | [] => reraise e
      | _ => parse_inventory lines;; reraise e
      end
  end.

(** Step 3 of [main]: the inventory. *)
Definition load_inventory (args : Args) : M (list Device) :=
  match inventory_file env (a_inventory args) with
  | None =>
      print ("ERROR: Inventory file not found: " +:+ a_inventory args);;
      sys_exit 1
  | Some (lines, fault) =>
      devices ← read_inventory lines fault;
      match devices with
      | [] => print "ERROR: No valid devices found in inventory";; sys_exit 1
      | _ =>
          print ("Loaded " +:+ pretty (length devices) +:+ " devices from "
                 +:+ a_inventory args);;
          mret devices
      end
  end.

(** Step 4 of [main]: the [--device] and [--platform] filters. *)
Definition apply_filters (args : Args) (devices : list Device)
  : M (list Device) :=
  devices ←
    (if PyStr.nonempty (a_device args) then
       let devices :=
         filter (λ d, device_name d = a_device args) devices in
       match devices with
       | [] => print ("ERROR: Device '" +:+ a_device args
                      +:+ "' not found in inventory");;
               sys_exit 1
       | _ => mret devices
       end
     else mret devices);
  if PyStr.nonempty (a_platform args) then
    let devices := filter (λ d, platform d = a_platform args) devices in
    match devices with
    | [] => print ("ERROR: No devices found for platform '"
                   +:+ a_platform args +:+ "'");;
            sys_exit 1
    | _ => mret devices
    end
  else mret devices.

(** [[d for d in devices if keep(state.get_status(d.device_name))]] *)
Fixpoint filter_by_status (keep : json → bool) (devices : list Device)
  : M (list Device) :=
  match devices with
  | [] => mret []
  | d :: rest =>
      status ← get_status (device_name d);
      kept ← filter_by_status keep rest;
      mret (if keep status then d :: kept else kept)
  end.

(** Step 5 of [main], after the state manager is built: [--resume] and
    [--retry-failed]. *)
Definition apply_resume_retry (args : Args) (devices : list Device)
  : M (list Device) :=
  devices ←
    (if a_resume args then
       let before := length devices in
       devices ← filter_by_status (λ st, negb (eq_str st "success")) devices;
       let skipped := (before - length devices)%nat in
       (if bool_decide (skipped ≠ 0%nat) then
          print ("Resuming: skipping " +:+ pretty skipped
                 +:+ " already successful devices")
        else mret ());;
       mret devices
     else if a_retry_failed args then
       devices ← filter_by_status (λ st, eq_str st "failed") devices;
       match devices with
       | [] => print "No failed devices to retry.";; sys_exit 0
       | _ =>
           print ("Retrying " +:+ pretty (length devices)
                  +:+ " failed devices");;
           mret devices
       end
     else mret devices);
  match devices with
  | [] => print "No devices to deploy after applying filters.";; sys_exit 0
  | _ => mret devices
  end.

(** The reporting functions only print. Their layout is abridged to one
    line per call; what they read of their arguments is kept. *)
Definition print_device_result (result : DeploymentResult) : M unit :=
  if success result then
    print ("[+] " +:+ r_device_name result +:+ " SUCCESS")
  else
    print ("[x] " +:+ r_device_name result +:+ " FAILED");;
    print ("     Error: " +:+ error_message result);;
    (if PyStr.nonempty (log_file result)
     then print ("     Log:   " +:+ log_file result)
     else mret ()).

Definition print_summary_report (results : list DeploymentResult) : M unit :=
  let total := length results in
  let succeeded := length (filter (λ r, success r = true) results) in
  let failed := (total - succeeded)%nat in
  print "DEPLOYMENT SUMMARY";;
  print ("Total devices:    " +:+ pretty total);;
  print ("Successful:       " +:+ pretty succeeded);;
  print ("Failed:           " +:+ pretty failed).

Definition print_deployment_plan (devices : list Device) (args : Args)
  : M unit :=
  print "DEPLOYMENT PLAN";;
  print ("Devices:    " +:+ pretty (length devices)).

Definition print_dry_run_device (device : Device) (zabbix_token : string)
  : M unit :=
  print ("Device:    " +:+ device_name device).

(** A line end. *)
Definition LF : string := String "010" EmptyString.

(** [{s:<{width}}]: [s] with blanks after it up to [width] characters. *)
Definition ljust (width : nat) (s : string) : string :=
  s +:+ PyStr.str (replicate (width - PyStr.len s) " "%char).

(** [max(len(f(d)) for d in devices)]; [max] of nothing raises. *)
Definition max_len (f : Device → string) (devices : list Device) : M nat :=
  match devices with
  | [] => raise ValueError "max() arg is an empty sequence"
  | _ => mret (foldr Nat.max 0%nat (map (λ d, PyStr.len (f d)) devices))
  end.

(** [ssh.test_connectivity(device)] on the executor of step 6, which is
    [None] in dry-run mode ([ssh] is [false] then). *)
Definition probe_with (ssh : bool) (device : Device) : M (bool * string) :=
  if ssh then ssh_test_connectivity env device
  else raise AttributeError
         "'NoneType' object has no attribute 'test_connectivity'".

(** The loop of [run_connectivity_checks], with its two counters. *)
Fixpoint check_devices (ssh : bool) (name_width ip_width : nat)
    (devices : list Device) (ok_count fail_count : nat) : M (nat * nat) :=
  match devices with
  | [] => mret (ok_count, fail_count)
  | device :: rest =>
      '(reachable, msg) ← probe_with ssh device;
      let status := if reachable : bool then "OK" else "FAIL: " +:+ msg in
      let symbol := if reachable : bool then "+" else "x" in
      print ("  [" +:+ symbol +:+ "] "
             +:+ ljust name_width (device_name device) +:+ "  "
             +:+ ljust ip_width (tailscale_ip device) +:+ "  " +:+ status);;
      if reachable : bool
      then check_devices ssh name_width ip_width rest (S ok_count) fail_count
      else check_devices ssh name_width ip_width rest ok_count (S fail_count)
  end.

(** [run_connectivity_checks]; the last two prints make one line. *)
Definition run_connectivity_checks (ssh : bool) (devices : list Device)
  : M unit :=
  print (LF +:+ "Testing connectivity to " +:+ pretty (length devices)
         +:+ " devices..." +:+ LF);;
  name_width ← max_len device_name devices;
  ip_width ← max_len tailscale_ip devices;
  '(ok_count, fail_count) ← check_devices ssh name_width ip_width devices
                               0%nat 0%nat;
  print (LF +:+ "Reachable: " +:+ pretty ok_count +:+ "/"
         +:+ pretty (length devices));;
  if bool_decide (fail_count ≠ 0%nat)
  then print ("  |  Unreachable: " +:+ pretty fail_count)
  else print "".

(** [DeploymentResult(device.device_name, False, 0, f"Unexpected error: {e}")] *)
Definition unexpected_error (device : Device) (e : exn) : DeploymentResult :=
  mkResult (device_name device) false 0
           ("Unexpected error: " +:+ exn_str e) "".

(** One pass of either deployment loop over one device:
    [try: result = deploy_and_record(...)] (or [future.result()])
    [except Exception as e: result = DeploymentResult(...)]. *)
Definition attempt (args : Args) (zabbix_token : string) (device : Device)
  : M DeploymentResult :=
  try_except
    (deploy_and_record env device zabbix_token (a_scripts_dir args)
       (a_log_dir args) (a_github args))
    (λ e, mret (unexpected_error device e)).

(** The sequential loop of step 12. *)
Fixpoint deploy_sequential (args : Args) (zabbix_token : string)
    (devices : list Device) (results : list DeploymentResult)
  : M (list DeploymentResult) :=
  match devices with
  | [] => mret results
  | device :: rest =>
      print (device_name device +:+ " (" +:+ platform device +:+ " @ "
             +:+ tailscale_ip device +:+ ")...");;
      result ← attempt args zabbix_token device;
      let results := results ++ [result] in
      print_device_result result;;
      deploy_sequential args zabbix_token rest results
  end.

(** Which of the [n] running workers finishes next. *)
Definition next_completion (n : nat) : M nat :=
  λ w, match completions w with
       | k :: rest => (inr (k mod n)%nat, set_completions rest w)
       | [] => (inr 0%nat, w)
       end.

(** The parallel loop of step 12. All devices are submitted to a pool of
    [workers] threads; the pool runs the first [workers] of the devices
    still pending and starts the next one when a worker finishes.
    [as_completed] hands over the futures in the order they finish; a
    worker's effects on the state manager are taken to happen at the
    moment it finishes. [fuel] bounds the number of completions. *)
Fixpoint deploy_parallel (fuel : nat) (workers : nat) (args : Args)
    (zabbix_token : string) (pending : list Device)
    (results : list DeploymentResult) : M (list DeploymentResult) :=
  match fuel, pending with
  | S fuel', device0 :: _ =>
      k ← next_completion (Nat.min workers (length pending));
      let device := nth k pending device0 in
      result ← attempt args zabbix_token device;
      let results := results ++ [result] in
      print_device_result result;;
      deploy_parallel fuel' workers args zabbix_token (delete k pending) results
  | _, _ => mret results
  end.

(** Step 12 of [main]. *)
Definition deploy_all (args : Args) (zabbix_token : string)
    (devices : list Device) : M (list DeploymentResult) :=
  if 1 <? a_parallel args then
    print ("Deploying to " +:+ pretty (length devices) +:+ " devices ("
           +:+ pretty (a_parallel args) +:+ " concurrent)...");;
    deploy_parallel (length devices) (Z.to_nat (a_parallel args)) args
                    zabbix_token devices []
  else
    print ("Deploying to " +:+ pretty (length devices)
           +:+ " devices (sequential)...");;
    deploy_sequential args zabbix_token devices [].

(** The end of [main]: [if any(not r.success for r in results): sys.exit(1)] *)
Definition exit_on_failures (results : list DeploymentResult) : M unit :=
  if existsb (λ r, negb (success r)) results then sys_exit 1 else mret ().

(** Steps 7 to 13 of [main], once the devices are selected. *)
Definition run_selected (args : Args) (zabbix_token : string)
    (devices : list Device) : M unit :=
  (* 6. [ssh] is [None] in dry-run mode; 7. check-only mode *)
  (if a_check args then
     run_connectivity_checks (negb (a_dry_run args)) devices;;
     sys_exit 0
   else mret ());;
  (* 8. plan *)
  print_deployment_plan devices args;;
  (* 9. dry-run mode *)
  (if a_dry_run args then
     print "DRY RUN: no changes will be made";;
     mapM (λ d, print_dry_run_device d zabbix_token) devices;;
     print (pretty (length devices) +:+ " devices would be deployed.");;
     sys_exit 0
   else mret ());;
  (* 10. confirm before a multi-device deployment *)
  (if (1 <? length devices)%nat then
     response ← input ("Deploy to " +:+ pretty (length devices)
                      +:+ " devices? [y/N]: ");
     if negb (answered_yes response) then print "Aborted.";; sys_exit 0
     else mret ()
   else mret ());;
  (* 11. the log directory is created *)
  match makedirs_fault env (a_log_dir args) with
  | Some e => reraise e
  | None => mret ()
  end;;
  (* 12. deploy *)
  results ← deploy_all args zabbix_token devices;
  (* 13. summary and exit status *)
  print_summary_report results;;
  exit_on_failures results.

(** Steps 1 to 4 of [main] and the construction of the state manager. *)
Definition prepare (raw : argparse_outcome)
  : M (Args * string * list Device) :=
  args ← parse_args raw;
  zabbix_token ← get_token args;
  _ ← check_prerequisites (a_dry_run args);
  devices ← load_inventory args;
  devices ← apply_filters args devices;
  StateManager_init;;
  mret (args, zabbix_token, devices).

(** [main], on the command line [raw]. *)
Definition main (raw : argparse_outcome) : M unit :=
  '(args, zabbix_token, devices) ← prepare raw;
  devices ← apply_resume_retry args devices;
  run_selected args zabbix_token devices.

End Main.

(* ===================================================================== *)
(** * How a POSIX shell reads a command line                              *)
(* ===================================================================== *)

(** The yardstick for "inert to the shell": token recognition and quote
    removal of the shell command language, for command lines in which no
    character is active. [Sh.words] returns the words the shell passes on,
    each with its quotes removed, and [None] as soon as a character would
    make the shell do anything but pass text on: an operator, an expansion,
    a pattern, a comment, a line end, a backslash, or a quote left open. *)
Module Sh.

Inductive mode := Unquoted | Single | Double.

Definition blank (c : ascii) : bool :=
  bool_decide (c = " "%char) || bool_decide (c = "009"%char).

(** Characters that are special to the shell outside quotes. *)
Definition active (c : ascii) : bool :=
  bool_decide (c ∈ ["|"; "&"; ";"; "<"; ">"; "("; ")"; "$"; "`"; "\";
                    "010"; "013"; "*"; "?"; "["; "]"; "#"; "~"; "!";
                    "{"; "}"; "^"]%char).

(** Characters that stay special between double quotes. *)
Definition active_in_double (c : ascii) : bool :=
  bool_decide (c ∈ ["$"; "`"; "\"; "!"]%char).

(** Append a character to the word being read. *)
Definition push (cur : option string) (c : ascii) : option string :=
  Some (default "" cur +:+ String c EmptyString).

Definition open_word (cur : option string) : option string :=
  Some (default "" cur).

Fixpoint words (m : mode) (cur : option string) (s : string)
  : option (list string) :=
  match s with
  | EmptyString =>
      match m with
      | Unquoted => Some (match cur with None => [] | Some w => [w] end)
      | _ => None
      end
  | String c s' =>
      match m with
      | Single =>
          if bool_decide (c = squote) then words Unquoted cur s'
          else words Single (push cur c) s'
      | Double =>
          if bool_decide (c = dquote) then words Unquoted cur s'
          else if active_in_double c then None
          else words Double (push cur c) s'
      | Unquoted =>
          if blank c then
            match cur with
            | None => words Unquoted None s'
            | Some w => cons w <$> words Unquoted None s'
            end
          else if bool_decide (c = squote) then words Single (open_word cur) s'
          else if bool_decide (c = dquote) then words Double (open_word cur) s'
          else if active c then None
          else words Unquoted (push cur c) s'
      end
  end.

(** The words of a whole command line. *)
Definition split (s : string) : option (list string) :=
  words Unquoted None s.

End Sh.

(** The variables [build_env_string] sets, as (name, value) pairs: the
    device name always, the others when their value is not empty. *)
Definition env_items (device : Device) (zabbix_token : string)
  : list (string * string) :=
  ("DEVICE_NAME", device_name device) ::
  filter (λ kv, kv.2 ≠ "")
    [("LOCATION", location device); ("CLIENT", client device);
     ("CHAIN", chain device); ("ASSET_TAG", asset_tag device);
     ("LATITUDE", latitude device); ("LONGITUDE", longitude device);
     ("ZABBIX_API_TOKEN", zabbix_token)].

(** [NAME=value], the word the remote command is meant to receive. *)
Definition assignment (kv : string * string) : string :=
  kv.1 +:+ "=" +:+ kv.2.

(** The words of [sudo_prefix]. *)
Definition sudo_words (device : Device) : list string :=
  if bool_decide (platform device = "macos") then ["sudo"; "-E"] else ["sudo"].

(** How [build_env_string] writes one variable. *)
Definition render (kv : string * string) : string :=
  kv.1 +:+ "=" +:+ shlex_quote kv.2.

(** A character the shell passes on as it is outside quotes. *)
Definition plain (c : ascii) : bool :=
  negb (Sh.blank c) && negb (bool_decide (c = squote))
  && negb (bool_decide (c = dquote)) && negb (Sh.active c).

Fixpoint all_plain (s : string) : bool :=
  match s with
  | EmptyString => true
  | String c s' => plain c && all_plain s'
  end.

(** A variable name: not empty and plain. *)
Definition name_ok (k : string) : Prop :=
  PyStr.nonempty k = true ∧ all_plain k = true.

(* ===================================================================== *)
(** * What a computation leaves behind                                    *)
(* ===================================================================== *)

(** The state manager and its file are the same in both worlds. *)
Definition same_store (w w' : World) : Prop :=
  sm_state w' = sm_state w
  ∧ state_file w' = state_file w
  ∧ write_faults w' = write_faults w.

(** [traced c P]: from any world, [c] leaves the state store alone and
    appends to the log a trace [tr] that, with the outcome of [c],
    satisfies [P]. *)
Definition traced {A} (c : M A) (P : list event → ctl + A → Prop) : Prop :=
  ∀ w, same_store w (c w).2
       ∧ ∃ tr, events (c w).2 = events w ++ tr ∧ P tr (c w).1.

(** The execute step of a deployment: the remote run of the install
    command, under the default timeout. *)
Definition execute_step (device : Device) (ev : event) (cp : CompletedProcess)
  : Prop :=
  ∃ command, ev = EvSshRun (device_name device) command 600 cp.

(** No write of the state file. *)
Definition not_save (ev : event) : Prop := ∀ v, ev ≠ EvSave v.

(** An event that is neither a write of the state file nor the execute
    step of [device]. *)
Definition silent (device : Device) (ev : event) : Prop :=
  not_save ev ∧ ∀ cp, ¬ execute_step device ev cp.

(** A trace of silent events, and an outcome that is not [sys.exit]. *)
Definition quiet {A} (device : Device) (tr : list event) (r : ctl + A) : Prop :=
  Forall (silent device) tr ∧ ∀ code, r ≠ inl (SysExit code).

(** What [deploy_device] guarantees: it never writes the state file and
    never exits; an outcome it returns bears the name of the device, and
    succeeds exactly when the execute step, if the trace has one, returned
    zero. *)
Definition attempt_post (device : Device) (tr : list event)
    (r : ctl + DeploymentResult) : Prop :=
  Forall not_save tr
  ∧ match r with
    | inr res =>
        r_device_name res = device_name device
        ∧ ∀ ev cp, ev ∈ tr → execute_step device ev cp →
                   (success res = true ↔ returncode cp = 0)
    | inl (SysExit _) => False
    | inl (Raise _) => True
    end.

(** What the outcome of a quiet computation may promise: the name of the
    device, and success decided by an exit code. *)
Definition named (device : Device) (r : ctl + DeploymentResult) : Prop :=
  ∀ res, r = inr res → r_device_name res = device_name device.

Definition decided_by (device : Device) (result : CompletedProcess)
    (r : ctl + DeploymentResult) : Prop :=
  ∀ res, r = inr res →
         r_device_name res = device_name device
         ∧ success res = (returncode result =? 0).

(** [exits_in S c]: when [c] ends the process by [sys.exit], the status is
    in [S]. *)
Definition exits_in {A} (S : Z → Prop) (c : M A) : Prop :=
  ∀ w code w', c w = (inl (SysExit code), w') → S code.

Definition zero_or_one (code : Z) : Prop := code = 0 ∨ code = 1.
Definition up_to_two (code : Z) : Prop := code = 0 ∨ code = 1 ∨ code = 2.
Definition zero (code : Z) : Prop := code = 0.

(* ===================================================================== *)
(** * The state store as the specification sees it                        *)
(* ===================================================================== *)

(** A store [get_status] can read: a mapping whose entries are mappings,
    as the state manager writes them, or values Python takes for false
    ([null], [0], an empty string or list), which count as no entry. *)
Definition store_ok (st : json) : Prop :=
  ∃ m : gmap string json,
    st = JObj m
    ∧ ∀ k v, m !! k = Some v →
             (∃ e : gmap string json, v = JObj e) ∨ truthy v = false.

(** The last recorded status of a host, [JNull] when there is none. *)
Definition last_status (st : json) (name : string) : json :=
  match st with
  | JObj m =>
      match m !! name with
      | Some (JObj e) => default JNull (e !! "status")
      | _ => JNull
      end
  | _ => JNull
  end.

(** The two tests of step 5, on the last recorded status. *)
Definition not_success (st : json) (d : Device) : Prop :=
  negb (eq_str (last_status st (device_name d)) "success") = true.

Definition is_failed (st : json) (d : Device) : Prop :=
  eq_str (last_status st (device_name d)) "failed" = true.

Global Instance not_success_dec st d : Decision (not_success st d).
Proof. unfold not_success. apply _. Defined.

Global Instance is_failed_dec st d : Decision (is_failed st d).
Proof. unfold is_failed. apply _. Defined.

(* ===================================================================== *)
(** * Scenarios                                                           *)
(* ===================================================================== *)

(** Concrete hosts, surroundings and worlds on which the statements below
    are exercised. *)
Module Scenario.

Definition rpi : Device :=
  mkDevice "rpi-london-001" "raspberrypi" "100.64.0.1" "London" "Acme"
           "" "AT-1" "51.5" "-0.12" "pi" "secret".

Definition mac : Device :=
  mkDevice "mac-paris-002" "macos" "100.64.0.2" "Paris" "" "" "" "" ""
           "admin" "secret".

(** An error stream of 200 letters and the line end that closes it. *)
Definition stderr_201 : string :=
  PyStr.str (replicate 200 "a"%char ++ ["010"%char]).

(** An error stream of 300 letters and a line end. *)
Definition stderr_301 : string :=
  PyStr.str (replicate 300 "b"%char ++ ["010"%char]).

(** The inventory file of [rpi] and [mac], as [csv.reader] yields it. *)
Definition inventory_csv : list (list string) :=
  [["device_name"; "platform"; "tailscale_ip"; "location"; "client"; "chain";
    "asset_tag"; "latitude"; "longitude"; "ssh_user"; "ssh_password"];
   ["rpi-london-001"; "raspberrypi"; "100.64.0.1"; "London"; "Acme"; "";
    "AT-1"; "51.5"; "-0.12"; "pi"; "secret"];
   ["mac-paris-002"; "macos"; "100.64.0.2"; "Paris"; ""; ""; ""; ""; "";
    "admin"; "secret"]].

(** Surroundings in which every remote step works, the install script of
    [mac] apart, which ends with status 2 and [stderr_301]. *)
Definition env_ok : Env :=
  mkEnv (λ _, (true, "OK"))
        (λ _ _ _, inr (mkProc 0 "" ""))
        (λ d _ timeout,
           if bool_decide (device_name d = "mac-paris-002")
              && bool_decide (timeout = 600)
           then inr (mkProc 2 "out" stderr_301)
           else inr (mkProc 0 "done" ""))
        (λ _, true)
        (λ _, None)
        (λ tool, Some ("/usr/bin/" +:+ tool))
        (λ _, Some (inventory_csv, None))
        (λ _, None)
        "/opt/zabbix-rollout"
        "token"
        None
        (λ t, pretty t).

(** A world with nothing on disk and nothing typed. *)
Definition fresh : World :=
  mkWorld (JObj ∅) FAbsent [] [] [] [] [].

(** The command line [--inventory inventory.csv] and its variants. *)
Definition args_plain : Args :=
  mkArgs "inventory.csv" "" "scripts" "logs" "rollout-state.json" "" ""
         false false false false false false 1.

Definition args_resume : Args :=
  mkArgs "inventory.csv" "" "scripts" "logs" "rollout-state.json" "" ""
         false false false true false false 1.

Definition args_retry_failed : Args :=
  mkArgs "inventory.csv" "" "scripts" "logs" "rollout-state.json" "" ""
         false false false false true false 1.

(** Worlds in which the operator confirms the deployment and the state
    file holds, in turn: bytes that are no text, a JSON array, the
    record of an earlier success of [rpi]. *)
Definition world_with (f : file_state) : World :=
  mkWorld JNull f [] [] ["y"] [] [].

Definition world_undecodable : World := world_with FUndecodable.

Definition world_array : World :=
  world_with (FJson (JArr [JStr "rpi-london-001"])).

Definition rpi_succeeded : json :=
  JObj (<["rpi-london-001" := state_entry "success" "2024-01-01T00:00:00" JNull]> ∅).

Definition world_rpi_succeeded : World := world_with (FJson rpi_succeeded).

(** The install command [mac] is sent in local mode. *)
Definition mac_command : string :=
  "sudo -E DEVICE_NAME=mac-paris-002 LOCATION=Paris ZABBIX_API_TOKEN=token bash /tmp/install-zabbix-agent.sh".

(** A world whose state file holds the empty mapping, already loaded, in
    which the first attempt to open the file for writing fails. *)
Definition world_write_fault : World :=
  mkWorld (JObj ∅) (FJson (JObj ∅)) [true] [] ["y"] [] [].

(** Surroundings without inventory file. *)
Definition env_no_inventory : Env :=
  mkEnv (test_connectivity env_ok) (scp_file env_ok) (ssh_run env_ok)
        (path_exists env_ok) (log_write_fault env_ok) (which env_ok)
        (λ _, None) (makedirs_fault env_ok) (repo_root env_ok)
        "token" None (isoformat env_ok).

(** Surroundings in which every remote command runs into its timeout. *)
Definition timeout_600 : exn :=
  Exn TimeoutExpired "Command timed out after 600 seconds".

Definition env_timeout : Env :=
  mkEnv (test_connectivity env_ok) (scp_file env_ok)
        (λ _ _ _, inl timeout_600)
        (path_exists env_ok) (log_write_fault env_ok) (which env_ok)
        (inventory_file env_ok) (makedirs_fault env_ok) (repo_root env_ok)
        "token" None (isoformat env_ok).

End Scenario.

(* ===================================================================== *)
(** * The probe, the plan and what the parser guarantees                  *)
(* ===================================================================== *)

(** [needle in hay] for strings. *)
Fixpoint starts_withb (p s : string) : bool :=
  match p, s with
  | EmptyString, _ => true
  | String a p', String b s' => bool_decide (a = b) && starts_withb p' s'
  | String _ _, EmptyString => false
  end.

Fixpoint str_contains (needle hay : string) : bool :=
  starts_withb needle hay
  || match hay with
     | EmptyString => false
     | String _ hay' => str_contains needle hay'
     end.

(** The body of [SSHExecutor.test_connectivity], on what [subprocess.run]
    did with the probe command [echo ok]: it returned a completed process,
    or raised ([TimeoutExpired] after 15 seconds, or anything else). *)
Definition test_connectivity_of (run : exn + CompletedProcess) : bool * string :=
  match run with
  | inr result =>
      if (returncode result =? 0) && str_contains "ok" (stdout result)
      then (true, "OK")
      else
        let stderr := PyStr.strip (stderr result) in
        (false, "SSH failed: "
                +:+ (if PyStr.nonempty stderr then stderr else "unknown error"))
  | inl e =>
      if bool_decide (exn_cls e = TimeoutExpired)
      then (false, "SSH connection timed out")
      else (false, "SSH error: " +:+ exn_str e)
  end.

(** Lines 477 to 479 of [print_deployment_plan]: the number of devices of
    each platform. *)
Definition platform_counts (devices : list Device) : gmap string nat :=
  foldl (λ counts d,
           <[platform d := (default 0 (counts !! platform d) + 1)%nat]> counts)
        ∅ devices.

(** A string without white space at either end. *)
Definition stripped (s : string) : Prop := PyStr.strip s = s.

(** A record as [parse_inventory] builds it: every field stripped, the
    platform in lower case. *)
Definition normalized (d : Device) : Prop :=
  stripped (device_name d) ∧ stripped (platform d)
  ∧ str_lower (platform d) = platform d
  ∧ stripped (tailscale_ip d) ∧ stripped (location d) ∧ stripped (client d)
  ∧ stripped (chain d) ∧ stripped (asset_tag d) ∧ stripped (latitude d)
  ∧ stripped (longitude d) ∧ stripped (ssh_user d)
  ∧ stripped (ssh_password d).

(** An event that is a line on the terminal. *)
Definition is_print (ev : event) : Prop := ∃ line, ev = EvPrint line.

(** An item of a [DictReader] row that the normalization accepts: a
    column name with a cell or [None]. *)
Definition item_ok (kv : option string * cell) : Prop :=
  (∃ k, kv.1 = Some k) ∧ ((∃ s, kv.2 = CStr s) ∨ kv.2 = CNone).

(** The header names every required column, up to case and the white
    space around it. *)
Definition header_ok (fieldnames : list string) : Prop :=
  ∀ c, c ∈ required_columns →
       ∃ f, f ∈ fieldnames ∧ str_lower (PyStr.strip f) = c.

(** What [parse_inventory] raises on a row with more cells than the
    header has columns. *)
Definition none_has_no_strip : exn :=
  Exn AttributeError "'NoneType' object has no attribute 'strip'".

(** What the loop of [parse_inventory] guarantees, for the header
    [fieldnames], the rows still to read and the devices admitted so far:
    it only prints; it returns when every row fits the header, and then
    with the devices so far followed by valid ones, at most one per row;
    it raises on a row longer than the header; it never exits. *)
Definition parse_rows_post (fieldnames : list string) (rows : list (list string))
    (acc : list Device) (tr : list event) (r : ctl + list Device) : Prop :=
  Forall is_print tr
  ∧ match r with
    | inr devices =>
        Forall (λ row, (length row ≤ length fieldnames)%nat) rows
        ∧ (∃ admitted,
             devices = acc ++ admitted
             ∧ Forall (λ d, validate d = [] ∧ normalized d) admitted
             ∧ (length admitted ≤ length rows)%nat)
    | inl (Raise e) =>
        e = none_has_no_strip
        ∧ Exists (λ row, (length fieldnames < length row)%nat) rows
    | inl (SysExit _) => False
    end.

(** A small inventory file, as [csv.reader] yields it: a header in mixed
    case with a column the script does not know, the row of
    [Scenario.rpi] with white space around its cells, a blank line, a row
    with an unknown platform, a row without device name, and a short row
    for a Mac. *)
Module Sample.

Definition header : list string :=
  ["Device_Name "; "Platform"; "tailscale_ip"; "location"; "ssh_user";
   "ssh_password"; "client"; "asset_tag"; "latitude"; "longitude"; "notes"].

Definition rows : list (list string) :=
  [[" rpi-london-001 "; "RaspberryPi"; "100.64.0.1"; "London"; "pi";
    "secret"; "Acme"; "AT-1"; "51.5"; "-0.12"; "first"];
   [];
   ["box-7"; "windows"; "100.64.0.7"; "Oslo"; "u"; "p"];
   [""; "macos"; "100.64.0.9"; "Rome"; "u"; "p"];
   ["mac-paris-002"; "macos"; "100.64.0.2"; "Paris"; "admin"; "secret"]].

Definition lines : list (list string) := header :: rows.

(** The same file with one cell too many in its last row. *)
Definition lines_long : list (list string) :=
  header :: rows ++ [["x"; "macos"; "ip"; "loc"; "u"; "p"; "c"; "a"; "1"; "2";
                      "n"; "surplus"]].

End Sample.

(* ===================================================================== *)
(** * The steps of one deployment                                         *)
(* ===================================================================== *)

(** The steps [deploy_device] takes on a host, in the order of the source:
    the connectivity probe, the copy of the install script, the run of the
    install command, the removal of the copied script, the log file. *)
Inductive step := Probe | Push | Execute | Cleanup | Log.

Definition step_rank (s : step) : nat :=
  match s with
  | Probe => 1 | Push => 2 | Execute => 3 | Cleanup => 4 | Log => 5
  end.

(** The step an event is, when it is one on [device]; the install command
    runs under the timeout of 600 seconds, the removal under 10. *)
Definition step_of (device : Device) (ev : event) : option step :=
  match ev with
  | EvProbe name =>
      if bool_decide (name = device_name device) then Some Probe else None
  | EvScp name _ _ =>
      if bool_decide (name = device_name device) then Some Push else None
  | EvSshRun name _ timeout _ =>
      if bool_decide (name = device_name device)
      then Some (if timeout =? 600 then Execute else Cleanup)
      else None
  | EvLog _ _ _ _ => Some Log
  | EvSave _ | EvPrint _ => None
  end.

(** Every event of [tr] is a step on [device], and the steps come in
    strictly rising order, all after rank [lo]: no step twice, none out of
    turn. *)
Fixpoint in_order (device : Device) (lo : nat) (tr : list event) : Prop :=
  match tr with
  | [] => True
  | ev :: rest =>
      match step_of device ev with
      | Some s => (lo < step_rank s)%nat ∧ in_order device (step_rank s) rest
      | None => False
      end
  end.

(** The steps of a trace. *)
Definition steps (device : Device) (tr : list event) : list step :=
  omap (step_of device) tr.

Section DeployPaths.

Context (env : Env) (device : Device).
Context (zabbix_token scripts_dir log_dir : string).

(** The log file of [device]. *)
Definition device_log : string :=
  os_path_join log_dir (device_name device +:+ ".log").

(** The two install commands and the removal of the copied script. *)
Definition github_command (script : string) : string :=
  "curl -fsSL " +:+ shlex_quote (GITHUB_RAW_BASE +:+ "/" +:+ script) +:+ " | "
  +:+ sudo_line device zabbix_token " bash".

Definition local_command : string :=
  sudo_line device zabbix_token (" bash " +:+ remote_script).

Definition cleanup_command : string := "rm -f " +:+ remote_script.

(** A failed outcome with the message [msg]. *)
Definition failed_with (msg : string) (duration : Z) : DeploymentResult :=
  mkResult (device_name device) false duration msg device_log.

(** The outcome the exit code of the install command decides. *)
Definition outcome_of (result : CompletedProcess) (duration : Z)
  : DeploymentResult :=
  if returncode result =? 0
  then mkResult (device_name device) true duration "" device_log
  else failed_with (execute_error_message (stderr result)) duration.

(** How an attempt ends once it knows what to log: the log file is
    written and the outcome returned, or opening the log file raises. *)
Definition ends_with_log (code : Z) (out err : string)
    (outcome : Z → DeploymentResult) (tr : list event)
    (r : ctl + DeploymentResult) : Prop :=
  match log_write_fault env device_log with
  | Some e => tr = [] ∧ r = inl (Raise e)
  | None =>
      tr = [EvLog device_log code (or_empty out) (or_empty err)]
      ∧ ∃ duration, r = inr (outcome duration)
  end.

(** What the removal of the copied script leaves in the trace. *)
Definition cleanup_events : list event :=
  match ssh_run env device cleanup_command 10 with
  | inl _ => []
  | inr cp => [EvSshRun (device_name device) cleanup_command 10 cp]
  end.

(** The trace and the outcome of one run of [deploy_device], by the
    answers of the surroundings. *)
Definition deploy_path (use_github : bool) (tr : list event)
    (r : ctl + DeploymentResult) : Prop :=
  ∃ tr1,
    tr = EvProbe (device_name device) :: tr1
    ∧ match test_connectivity env device with
      | (false, msg) => ends_with_log 1 "" msg (failed_with msg) tr1 r
      | (true, _) =>
          match INSTALL_SCRIPTS !! platform device with
          | None => tr1 = [] ∧ r = inl (Raise (Exn KeyError (platform device)))
          | Some script =>
              if use_github then
                match ssh_run env device (github_command script) 600 with
                | inl e => tr1 = [] ∧ r = inl (Raise e)
                | inr result =>
                    ∃ tr2,
                      tr1 = EvSshRun (device_name device)
                              (github_command script) 600 result :: tr2
                      ∧ ends_with_log (returncode result) (stdout result)
                          (stderr result) (outcome_of result) tr2 r
                end
              else
                let local_script := os_path_join scripts_dir script in
                if path_exists env local_script then
                  ∃ tr2,
                    tr1 = EvScp (device_name device) local_script
                            remote_script :: tr2
                    ∧ match scp_file env device local_script remote_script with
                      | inl e => tr2 = [] ∧ r = inl (Raise e)
                      | inr scp_result =>
                          if returncode scp_result =? 0 then
                            match ssh_run env device local_command 600 with
                            | inl e => tr2 = [] ∧ r = inl (Raise e)
                            | inr result =>
                                ∃ tr3,
                                  tr2 = EvSshRun (device_name device)
                                          local_command 600 result
                                        :: cleanup_events ++ tr3
                                  ∧ ends_with_log (returncode result)
                                      (stdout result) (stderr result)
                                      (outcome_of result) tr3 r
                            end
                          else
                            let err := "SCP failed: "
                                       +:+ PyStr.strip (stderr scp_result) in
                            ends_with_log (returncode scp_result)
                              (stdout scp_result) err (failed_with err) tr2 r
                      end
                else
                  let err := "Local script not found: " +:+ local_script in
                  ends_with_log 1 "" err (failed_with err) tr1 r
          end
      end.

End DeployPaths.

(** Surroundings in which the probe is the body of
    [SSHExecutor.test_connectivity] on what [subprocess.run] did. *)
Definition with_probe (probe : Device → exn + CompletedProcess) (env : Env)
  : Env :=
  mkEnv (λ d, test_connectivity_of (probe d)) (scp_file env) (ssh_run env)
        (path_exists env) (log_write_fault env) (which env)
        (inventory_file env) (makedirs_fault env) (repo_root env)
        (env_ZABBIX_API_TOKEN env) (getpass_answer env) (isoformat env).

(** Surroundings in which the removal of the copied script does [f]
    instead. *)
Definition with_cleanup (f : Device → exn + CompletedProcess) (env : Env)
  : Env :=
  mkEnv (test_connectivity env) (scp_file env)
        (λ d command timeout,
           if (timeout =? 10) && bool_decide (command = cleanup_command)
           then f d
           else ssh_run env d command timeout)
        (path_exists env) (log_write_fault env) (which env)
        (inventory_file env) (makedirs_fault env) (repo_root env)
        (env_ZABBIX_API_TOKEN env) (getpass_answer env) (isoformat env).

(** Two outcomes that differ at most in their duration. *)
Definition same_verdict (r1 r2 : ctl + DeploymentResult) : Prop :=
  match r1, r2 with
  | inr res1, inr res2 =>
      r_device_name res1 = r_device_name res2
      ∧ success res1 = success res2
      ∧ error_message res1 = error_message res2
      ∧ log_file res1 = log_file res2
  | inl c1, inl c2 => c1 = c2
  | _, _ => False
  end.

(** Hosts that do not answer, and a removal that runs into its timeout. *)
Module Outage.

Definition probe_timeout : exn :=
  Exn TimeoutExpired "Command timed out after 15 seconds".

Definition env_unreachable : Env :=
  with_probe (λ _, inl probe_timeout) Scenario.env_ok.

Definition cleanup_timeout : exn :=
  Exn TimeoutExpired "Command timed out after 10 seconds".

End Outage.

(* ===================================================================== *)
(** * What a phase of [main] may do                                       *)
(* ===================================================================== *)

(** [confined ok Q c]: [c] leaves the state file alone, adds to the trace
    only events that satisfy [ok], and returns only values that satisfy
    [Q]. *)
Definition confined {A} (ok : event → Prop) (Q : A → Prop) (c : M A) : Prop :=
  ∀ w, state_file (c w).2 = state_file w
       ∧ write_faults (c w).2 = write_faults w
       ∧ (∃ tr, events (c w).2 = events w ++ tr ∧ Forall ok tr)
       ∧ ∀ a, (c w).1 = inr a → Q a.

(** A kind of event that includes the lines on the terminal. *)
Class Allows (ok : event → Prop) := allows_print : ∀ line, ok (EvPrint line).

Definition print_or_probe (ev : event) : Prop :=
  is_print ev ∨ ∃ name, ev = EvProbe name.

Global Instance is_print_allows : Allows is_print.
Proof. intros line. by exists line. Defined.

Global Instance print_or_probe_allows : Allows print_or_probe.
Proof. intros line. left. by exists line. Defined.

(** The hosts probed, in the order of the trace. *)
Definition probed (tr : list event) : list string :=
  omap (λ ev, match ev with EvProbe name => Some name | _ => None end) tr.

(** The modes that differ from [Scenario.args_plain]. *)
Module Modes.

Definition args_dry_run : Args :=
  mkArgs "inventory.csv" "" "scripts" "logs" "rollout-state.json" "" ""
         false true false false false false 1.

Definition args_check : Args :=
  mkArgs "inventory.csv" "" "scripts" "logs" "rollout-state.json" "" ""
         false false true false false false 1.

Definition args_check_dry_run : Args :=
  mkArgs "inventory.csv" "" "scripts" "logs" "rollout-state.json" "" ""
         false true true false false false 1.

(** A world in which the operator answers no. *)
Definition world_no : World := mkWorld (JObj ∅) FAbsent [] [] ["n"] [] [].

End Modes.

(* ===================================================================== *)
(** * The attempts of a run                                               *)
(* ===================================================================== *)

(** [between w w']: from [w] to [w'] the run only printed (it may also
    have read a line of input, and the pool may have taken a completion):
    the state manager, the state file, the write faults to come and the
    clock are as they were. *)
Definition between (w w' : World) : Prop :=
  same_store w w'
  ∧ clock w' = clock w
  ∧ ∃ tr, events w' = events w ++ tr ∧ Forall is_print tr.

Section Attempts.

Context (env : Env) (args : Args) (zabbix_token : string).

(** [attempted order w results w']: from [w] to [w'] the devices of
    [order] were attempted one after the other, each by one pass of
    [attempt] that started where the pass before it ended, but for what
    the loop printed in between; [results] holds the outcomes of these
    passes, and nothing else, in the same order. *)
Inductive attempted :
    list Device → World → list DeploymentResult → World → Prop :=
| attempted_nil w w' :
    between w w' → attempted [] w [] w'
| attempted_cons device order w w0 result w1 results w' :
    between w w0 →
    attempt env args zabbix_token device w0 = (inr result, w1) →
    attempted order w1 results w' →
    attempted (device :: order) w (result :: results) w'.

End Attempts.

(* ===================================================================== *)
(** * Facts about strings                                                 *)
(* ===================================================================== *)

Section StringFacts.

Import PyStr.

Lemma str_chars s : str (chars s) = s.
Proof. apply String.string_of_list_ascii_of_string. Qed.

Lemma chars_str l : chars (str l) = l.
Proof. apply String.list_ascii_of_string_of_list_ascii. Qed.

Lemma app_nil_l s : "" +:+ s = s.
Proof. reflexivity. Qed.

Lemma app_cons c s1 s2 : String c s1 +:+ s2 = String c (s1 +:+ s2).
Proof. reflexivity. Qed.

Lemma str_app l1 l2 : str (l1 ++ l2) = str l1 +:+ str l2.
Proof.
  induction l1 as [|c l1 IH]; [done|].
  change (String c (str (l1 ++ l2)) = String c (str l1) +:+ str l2).
  by rewrite app_cons, IH.
Qed.

Lemma len_str l : len (str l) = length l.
Proof. induction l as [|c l IH]; simpl; [done|]. by rewrite <- IH. Qed.

Lemma len_chars s : length (chars s) = len s.
Proof. by rewrite <- (str_chars s) at 2; rewrite len_str. Qed.

Lemma len_app s1 s2 : len (s1 +:+ s2) = (len s1 + len s2)%nat.
Proof.
  induction s1 as [|c s1 IH]; [done|].
  rewrite app_cons. unfold len in *. simpl. by rewrite IH.
Qed.

Lemma app_assoc_str s1 s2 s3 : (s1 +:+ s2) +:+ s3 = s1 +:+ (s2 +:+ s3).
Proof.
  induction s1 as [|c s1 IH]; [done|]. by rewrite !app_cons, IH.
Qed.

Lemma app_empty_r s : s +:+ "" = s.
Proof. induction s as [|c s IH]; [done|]. by rewrite app_cons, IH. Qed.

Lemma nonempty_len s : nonempty s = true ↔ (0 < len s)%nat.
Proof. destruct s; simpl; split; (done || lia). Qed.

Lemma nonempty_false s : nonempty s = false ↔ s = "".
Proof. destruct s; simpl; split; done. Qed.

(** The last [n] characters are a final segment, [n] long when the string
    has that many. *)
Lemma last_n_ends_with n s : ends_with (last_n n s) s.
Proof.
  exists (str (take (length (chars s) - n) (chars s))).
  unfold last_n. by rewrite <- str_app, take_drop, str_chars.
Qed.

Lemma len_last_n n s : (n ≤ len s)%nat → len (last_n n s) = n.
Proof.
  intros Hn. unfold last_n. rewrite len_str, length_drop, len_chars. lia.
Qed.

(** [lstrip] and [strip] only remove characters. *)
Lemma lstrip_chars_length l : (length (lstrip_chars l) ≤ length l)%nat.
Proof. induction l as [|c l IH]; simpl; [done|]. destruct (isspace c); simpl; lia. Qed.

Lemma len_strip s : (len (strip s) ≤ len s)%nat.
Proof.
  unfold strip, strip_chars. rewrite len_str, length_rev.
  etrans; [apply lstrip_chars_length|]. rewrite length_rev.
  etrans; [apply lstrip_chars_length|]. by rewrite len_chars.
Qed.

End StringFacts.

(* ===================================================================== *)
(** * The error message of a failed execute step                          *)
(* ===================================================================== *)

Section ErrorMessage.

Import PyStr.

Lemma execute_error_message_long stderr :
  (200 < len (strip stderr))%nat →
  execute_error_message stderr = "..." +:+ last_n 200 (strip stderr).
Proof.
  intros Hlong. unfold execute_error_message.
  apply Nat.ltb_lt in Hlong. by rewrite Hlong.
Qed.

Lemma execute_error_message_short stderr :
  (0 < len (strip stderr) ≤ 200)%nat →
  execute_error_message stderr = strip stderr.
Proof.
  intros [Hpos Hle]. unfold execute_error_message.
  destruct (Nat.ltb_spec 200 (len (strip stderr))) as [?|_]; [lia|].
  apply nonempty_len in Hpos. by rewrite Hpos.
Qed.

Lemma execute_error_message_blank stderr :
  strip stderr = "" →
  execute_error_message stderr = "Script exited with non-zero status".
Proof. intros Hs. unfold execute_error_message. by rewrite Hs. Qed.

Lemma execute_error_message_cases stderr :
  (200 < len (strip stderr))%nat
  ∨ (0 < len (strip stderr) ≤ 200)%nat
  ∨ strip stderr = "".
Proof.
  destruct (strip stderr) as [|c s] eqn:E; [by right; right|].
  destruct (Nat.ltb_spec 200 (len (String c s))); [by left|].
  right; left. simpl in *. lia.
Qed.

Lemma execute_error_message_nonempty stderr :
  execute_error_message stderr ≠ "".
Proof.
  destruct (execute_error_message_cases stderr) as [H|[H|H]].
  - by rewrite execute_error_message_long.
  - rewrite execute_error_message_short by done.
    intros E. rewrite E in H. simpl in H. lia.
  - by rewrite execute_error_message_blank.
Qed.

Lemma execute_error_message_bounded stderr :
  (len (execute_error_message stderr) ≤ 203)%nat.
Proof.
  destruct (execute_error_message_cases stderr) as [H|[H|H]].
  - rewrite execute_error_message_long by done.
    rewrite len_app, len_last_n by lia. simpl. lia.
  - rewrite execute_error_message_short by done. lia.
  - rewrite execute_error_message_blank by done. vm_compute. lia.
Qed.

End ErrorMessage.

(* ===================================================================== *)
(** * Reasoning about the monad                                           *)
(* ===================================================================== *)

(** Unfold the primitives of the monad and reduce the applications to the
    world this exposes. *)
Ltac unfold_monad :=
  unfold mbind, M_bind, mret, M_ret, try_except, raise, reraise, sys_exit,
    emit, print, modify, get_world in *;
  cbv beta in *.

Lemma bind_inr {A B} (c : M A) (f : A → M B) w a w' :
  c w = (inr a, w') → (c ≫= f) w = f a w'.
Proof. intros H. unfold mbind, M_bind. by rewrite H. Qed.

Lemma bind_inl {A B} (c : M A) (f : A → M B) w e w' :
  c w = (inl e, w') → (c ≫= f) w = (inl e, w').
Proof. intros H. unfold mbind, M_bind. by rewrite H. Qed.

Lemma bind_inv {A B} (c : M A) (f : A → M B) w r w' :
  (c ≫= f) w = (r, w') →
  (∃ a w1, c w = (inr a, w1) ∧ f a w1 = (r, w'))
  ∨ (∃ e, c w = (inl e, w') ∧ r = inl e).
Proof.
  unfold mbind, M_bind. destruct (c w) as [[e|a] w1]; intros H.
  - right. exists e. by inversion H.
  - left. by exists a, w1.
Qed.

Lemma try_except_inr {A} (body : M A) h w a w' :
  body w = (inr a, w') → try_except body h w = (inr a, w').
Proof. intros H. unfold try_except. by rewrite H. Qed.

Lemma try_except_raise {A} (body : M A) h w e w' :
  body w = (inl (Raise e), w') → try_except body h w = h e w'.
Proof. intros H. unfold try_except. by rewrite H. Qed.

Lemma run_eq {A} (p : (ctl + A) * World) r : p.1 = r → p = (r, p.2).
Proof. intros <-. by destruct p. Qed.

Lemma try_except_exit {A} (body : M A) h w code w' :
  body w = (inl (SysExit code), w') →
  try_except body h w = (inl (SysExit code), w').
Proof. intros H. unfold try_except. by rewrite H. Qed.

(* ===================================================================== *)
(** * The outcome of the execute step                                     *)
(* ===================================================================== *)

Section Conclude.

Import PyStr.
Context (env : Env).

(** What [conclude] returns when the log can be written. *)
Lemma conclude_inv device start_time log result w r w' :
  conclude env device start_time log result w = (inr r, w') →
  ∃ duration,
    r = if returncode result =? 0
        then mkResult (device_name device) true duration "" log
        else mkResult (device_name device) false duration
               (execute_error_message (stderr result)) log.
Proof.
  unfold conclude. intros H.
  apply bind_inv in H as [(now & w1 & _ & H)|(e & _ & ?)]; [|done].
  apply bind_inv in H as [(u & w2 & _ & H)|(e & _ & ?)]; [|done].
  exists (now - start_time).
  destruct (returncode result =? 0); by inversion H.
Qed.

Lemma conclude_returns device start_time log result w :
  log_write_fault env log = None →
  ∃ r w', conclude env device start_time log result w = (inr r, w').
Proof.
  intros Hlog. unfold conclude, mbind, M_bind, time_time, write_log.
  rewrite Hlog.
  destruct (clock w); simpl; destruct (returncode result =? 0); eauto.
Qed.

(** C4, as the code has it: the error stream is first stripped of the
    white space around it. When an execute step fails, the recorded
    message is never empty and at most 203 characters long; when the
    stripped stream is longer than 200 characters the message is the
    ellipsis followed by its last 200 characters; when the stripped
    stream is empty the message is the generic one. *)
Theorem failed_execute_error_message device start_time log result w r w' :
  conclude env device start_time log result w = (inr r, w') →
  returncode result ≠ 0 →
  let e := strip (stderr result) in
  success r = false
  ∧ error_message r ≠ ""
  ∧ (len (error_message r) ≤ 203)%nat
  ∧ ((200 < len e)%nat →
       error_message r = "..." +:+ last_n 200 e
       ∧ len (last_n 200 e) = 200%nat
       ∧ ends_with (last_n 200 e) e)
  ∧ (e = "" → error_message r = "Script exited with non-zero status").
Proof.
  intros Hrun Hrc e.
  apply conclude_inv in Hrun as [duration ->].
  apply Z.eqb_neq in Hrc. rewrite Hrc. simpl.
  split_and!; [done| | | |].
  - apply execute_error_message_nonempty.
  - apply execute_error_message_bounded.
  - intros Hlong. split_and!.
    + by apply execute_error_message_long.
    + apply len_last_n. lia.
    + apply last_n_ends_with.
  - apply execute_error_message_blank.
Qed.

End Conclude.

Lemma failed_execute_error_message_witness :
  let run := conclude Scenario.env_ok Scenario.mac 0 "logs/mac-paris-002.log"
               (mkProc 2 "out" Scenario.stderr_301) Scenario.fresh in
  let r := mkResult "mac-paris-002" false 0
             ("..." +:+ PyStr.str (replicate 200 "b"%char))
             "logs/mac-paris-002.log" in
  run = (inr r, run.2)
  ∧ returncode (mkProc 2 "out" Scenario.stderr_301) ≠ 0
  ∧ error_message r ≠ ""
  ∧ (PyStr.len (error_message r) ≤ 203)%nat.
Proof.
  intros run r.
  assert (run = (inr r, run.2)) as Hrun
    by (apply run_eq; vm_compute; reflexivity).
  assert (returncode (mkProc 2 "out" Scenario.stderr_301) ≠ 0) as Hrc by done.
  split_and!; [exact Hrun|exact Hrc|..];
    by destruct (failed_execute_error_message Scenario.env_ok Scenario.mac 0
                   "logs/mac-paris-002.log"
                   (mkProc 2 "out" Scenario.stderr_301) Scenario.fresh
                   r run.2 Hrun Hrc) as (_ & ? & ? & _).
Defined.

(** C4 as it is worded fails on the raw error stream: 200 letters and the
    closing line end are 201 characters, above the bound, and the recorded
    message is the 200 letters, without an ellipsis and one character short
    of being a final segment of the stream. *)
Lemma ellipsis_missing_on_raw_stream :
  (200 < PyStr.len Scenario.stderr_201)%nat
  ∧ execute_error_message Scenario.stderr_201
    = PyStr.str (replicate 200 "a"%char)
  ∧ ¬ PyStr.starts_with "..." (execute_error_message Scenario.stderr_201)
  ∧ ¬ PyStr.ends_with (execute_error_message Scenario.stderr_201)
        Scenario.stderr_201.
Proof.
  split_and!.
  - vm_compute. lia.
  - by vm_compute.
  - intros [r Hr]. vm_compute in Hr. discriminate Hr.
  - intros [r Hr].
    pose proof (f_equal PyStr.len Hr) as Hl. rewrite len_app in Hl.
    assert (PyStr.len Scenario.stderr_201 = 201%nat) as E1 by by vm_compute.
    assert (PyStr.len (execute_error_message Scenario.stderr_201) = 200%nat)
      as E2 by by vm_compute.
    rewrite E1, E2 in Hl.
    destruct r as [|c [|c' r]]; simpl in Hl; [lia| |lia].
    apply (f_equal (String.get 200)) in Hr.
    vm_compute in Hr. discriminate Hr.
Qed.

(* ===================================================================== *)
(** * The state store                                                     *)
(* ===================================================================== *)

Section StateStore.

Context (env : Env).

(** The three conditions [_load] handles give the empty state. *)
Lemma load_soft w :
  state_file w = FAbsent ∨ state_file w = FUnreadable
  ∨ state_file w = FMalformed →
  _load w = (inr (JObj ∅), w).
Proof.
  intros H. unfold _load, state_file_exists, open_json_load. unfold_monad.
  destruct (state_file w) eqn:E; simpl; rewrite ?E; try reflexivity;
    by destruct H as [H | [H | H]].
Qed.

Lemma load_json w v : state_file w = FJson v → _load w = (inr v, w).
Proof.
  intros H. unfold _load, state_file_exists, open_json_load. unfold_monad.
  rewrite H. simpl. by rewrite H.
Qed.

Lemma load_undecodable w :
  state_file w = FUndecodable →
  _load w = (inl (Raise (Exn UnicodeDecodeError "invalid start byte")), w).
Proof.
  intros H. unfold _load, state_file_exists, open_json_load. unfold_monad.
  rewrite H. simpl. by rewrite H.
Qed.


(** On a store it can read, [get_status] yields the last recorded status
    and changes nothing. *)
Lemma get_status_ok name w :
  store_ok (sm_state w) →
  get_status name w = (inr (last_status (sm_state w) name), w).
Proof.
  intros (m & E & Hent).
  unfold get_status, py_get, last_status. unfold_monad. rewrite E. simpl.
  destruct (m !! name) as [v|] eqn:Hv; simpl; [|done].
  destruct (Hent _ _ Hv) as [[e ->] | Hfalse].
  - simpl. case_bool_decide as He; simpl; [|done].
    subst e. by rewrite lookup_empty.
  - rewrite Hfalse. destruct v as [| | | | |e]; try done.
    simpl in Hfalse. apply negb_false_iff, bool_decide_eq_true in Hfalse.
    subst e. by rewrite lookup_empty.
Qed.

Lemma last_status_insert m name status ts err :
  last_status (JObj (<[name := state_entry status ts err]> m)) name
  = JStr status.
Proof.
  unfold last_status, state_entry. rewrite lookup_insert_eq.
  by rewrite lookup_insert_eq.
Qed.

Lemma last_status_insert_ne m name other entry :
  name ≠ other →
  last_status (JObj (<[name := entry]> m)) other = last_status (JObj m) other.
Proof. intros Hne. unfold last_status. by rewrite lookup_insert_ne. Qed.

Lemma store_ok_insert m name status ts err :
  store_ok (JObj m) →
  store_ok (JObj (<[name := state_entry status ts err]> m)).
Proof.
  intros (m' & E & Hent). inversion E; subst m'.
  eexists; split; [done|]. intros k v Hk.
  destruct (decide (name = k)) as [->|Hne].
  - rewrite lookup_insert_eq in Hk. inversion Hk. unfold state_entry. eauto.
  - rewrite lookup_insert_ne in Hk by done. eauto.
Qed.

(** What one record call does when the store is a mapping and the state
    file can be opened for writing. *)
Lemma record_run name status err m w :
  sm_state w = JObj m →
  head (write_faults w) ≠ Some true →
  let ts := isoformat env (default 0 (head (clock w))) in
  let st' := JObj (<[name := state_entry status ts err]> m) in
  ∃ w',
    (now ← datetime_now_isoformat env;
     state_setitem name (state_entry status now err);; _save) w
    = (inr (), w')
    ∧ sm_state w' = st'
    ∧ state_file w' = FJson st'.
Proof.
  intros Hst Hw ts st'.
  unfold datetime_now_isoformat, time_time, state_setitem, _save.
  unfold_monad.
  destruct (clock w) as [|t ck] eqn:Hck; simpl;
    rewrite Hst; simpl;
    destruct (write_faults w) as [|[] wf] eqn:Hwf; simpl in *;
    try done; eexists; split_and!; try reflexivity.
Qed.

End StateStore.

Section Record.

Context (env : Env).




End Record.


(** C8 fails on the code: [_load] answers only [JSONDecodeError] and
    [IOError]. A state file whose bytes are not text in the locale's
    encoding makes it raise, and [main] ends there, before any host is
    probed; a state file that holds JSON other than a mapping is returned
    as it is, and the first look-up of a status raises. *)
Theorem load_fails_hard_on_corrupt_store :
  (* bytes that are no text *)
  _load Scenario.world_undecodable
  = (inl (Raise (Exn UnicodeDecodeError "invalid start byte")),
     Scenario.world_undecodable)
  ∧ (main Scenario.env_ok Scenario.args_plain Scenario.world_undecodable).1
    = inl (Raise (Exn UnicodeDecodeError "invalid start byte"))
  ∧ events (main Scenario.env_ok Scenario.args_plain
              Scenario.world_undecodable).2
    = [EvPrint "Loaded 2 devices from inventory.csv"]
  (* JSON that is no mapping *)
  ∧ _load Scenario.world_array
    = (inr (JArr [JStr "rpi-london-001"]), Scenario.world_array)
  ∧ JArr [JStr "rpi-london-001"] ≠ JObj ∅
  ∧ (main Scenario.env_ok Scenario.args_resume Scenario.world_array).1
    = inl (Raise (Exn AttributeError "object has no attribute 'get'"))
  ∧ events (main Scenario.env_ok Scenario.args_resume Scenario.world_array).2
    = [EvPrint "Loaded 2 devices from inventory.csv"].
Proof. split_and!; by vm_compute. Qed.

(* ===================================================================== *)
(** * Selection: resume and retry-failed                                  *)
(* ===================================================================== *)

Lemma eq_str_true v s : eq_str v s = true ↔ v = JStr s.
Proof.
  destruct v; simpl; try (split; [done|discriminate]).
  case_bool_decide; split; intros; (congruence || done).
Qed.


Section Selection.

Context (env : Env).

(** On a store [get_status] can read, a status filter is the plain
    filter on the last recorded status, and it changes nothing. *)
Lemma filter_by_status_ok keep devices w :
  store_ok (sm_state w) →
  filter_by_status keep devices w
  = (inr (filter (λ d, keep (last_status (sm_state w) (device_name d)) = true)
                 devices), w).
Proof.
  intros Hok. induction devices as [|d rest IH]; [done|].
  cbn [filter_by_status].
  rewrite (bind_inr _ _ _ _ _ (get_status_ok (device_name d) w Hok)).
  rewrite (bind_inr _ _ _ _ _ IH).
  rewrite filter_cons. unfold_monad.
  destruct (keep _); by case_decide.
Qed.


Lemma is_failed_iff st d :
  is_failed st d ↔ last_status st (device_name d) = JStr "failed".
Proof. apply eq_str_true. Qed.

End Selection.

Section ResumeRetry.

Context (env : Env).


Lemma filter_is_failed devices w :
  store_ok (sm_state w) →
  filter_by_status (λ st, eq_str st "failed") devices w
  = (inr (filter (is_failed (sm_state w)) devices), w).
Proof. intros Hok. by rewrite filter_by_status_ok. Qed.

End ResumeRetry.

Lemma store_ok_empty : store_ok (JObj ∅).
Proof. exists ∅. split; [done|]. intros k v Hk. by rewrite lookup_empty in Hk. Qed.

Lemma store_ok_rpi_succeeded : store_ok Scenario.rpi_succeeded.
Proof. apply store_ok_insert, store_ok_empty. Qed.

(** A run in which [rpi] succeeds and [mac] fails, then a second process
    started with [--resume] on the state file the first one left: it
    selects [mac] alone. With [--retry-failed] it selects [mac] as well. *)
Example resume_after_mixed_run :
  let first := main Scenario.env_ok Scenario.args_plain
                 (Scenario.world_with FAbsent) in
  let second (args : Args) :=
    (p ← prepare Scenario.env_ok args; apply_resume_retry p.1.1 p.2)
      (Scenario.world_with (state_file first.2)) in
  (second Scenario.args_resume).1 = inr [Scenario.mac]
  ∧ (second Scenario.args_retry_failed).1 = inr [Scenario.mac].
Proof. cbv zeta. split; vm_compute; reflexivity. Qed.

Section RetryFailed.

Context (env : Env).

(** C6. In retry-failed mode (without [--resume], which comes first), on
    a store [get_status] can read, step 5 keeps exactly the hosts whose
    last recorded status is failed. When there is none, [main] prints one
    line and ends with status 0: no host is touched and the store is as
    it was loaded. *)
Theorem retry_failed_selects_failed raw w args zabbix_token devices w1 :
  prepare env raw w = (inr (args, zabbix_token, devices), w1) →
  a_resume args = false →
  a_retry_failed args = true →
  store_ok (sm_state w1) →
  let selected := filter (is_failed (sm_state w1)) devices in
  (∀ d, d ∈ selected ↔
        d ∈ devices ∧ last_status (sm_state w1) (device_name d) = JStr "failed")
  ∧ (selected ≠ [] →
     apply_resume_retry args devices w1
     = (inr selected,
        add_event (EvPrint ("Retrying " +:+ pretty (length selected)
                            +:+ " failed devices")) w1))
  ∧ (selected = [] →
     main env raw w
     = (inl (SysExit 0),
        add_event (EvPrint "No failed devices to retry.") w1)
     ∧ process_exit_code (main env raw w) = 0).
Proof.
  intros Hprep Hres Hretry Hok selected.
  assert (apply_resume_retry args devices w1
          = match selected with
            | [] => (inl (SysExit 0),
                     add_event (EvPrint "No failed devices to retry.") w1)
            | _ => (inr selected,
                    add_event (EvPrint ("Retrying " +:+ pretty (length selected)
                                        +:+ " failed devices")) w1)
            end) as Hstep.
  { unfold apply_resume_retry. rewrite Hres, Hretry. unfold_monad.
    rewrite (filter_is_failed devices w1 Hok). fold selected.
    by destruct selected. }
  split_and!.
  - intros d. unfold selected. rewrite list_elem_of_filter, is_failed_iff.
    tauto.
  - intros Hne. rewrite Hstep. by destruct selected.
  - intros Hnil. rewrite Hnil in Hstep.
    assert (main env raw w
            = (inl (SysExit 0),
               add_event (EvPrint "No failed devices to retry.") w1)) as Hmain.
    { unfold main. rewrite (bind_inr _ _ _ _ _ Hprep).
      by rewrite (bind_inl _ _ _ _ _ Hstep). }
    split; [exact Hmain|]. by rewrite Hmain.
Qed.

End RetryFailed.

Lemma retry_failed_selects_failed_witness :
  process_exit_code
    (main Scenario.env_ok Scenario.args_retry_failed
          Scenario.world_rpi_succeeded) = 0.
Proof.
  refine (proj2 (proj2 (proj2
    (retry_failed_selects_failed Scenario.env_ok Scenario.args_retry_failed
       Scenario.world_rpi_succeeded Scenario.args_retry_failed "token"
       [Scenario.rpi; Scenario.mac]
       (add_event (EvPrint "Loaded 2 devices from inventory.csv")
          (set_sm_state Scenario.rpi_succeeded Scenario.world_rpi_succeeded))
       _ eq_refl eq_refl store_ok_rpi_succeeded)) _)).
  - by vm_compute.
  - by vm_compute.
Defined.

(* ===================================================================== *)
(** * Shell quoting                                                       *)
(* ===================================================================== *)

Section Quoting.

Import PyStr.

Lemma safe_char_plain c : shlex_safe_char c = true → plain c = true.
Proof.
  destruct c as [[] [] [] [] [] [] [] []]; vm_compute; congruence.
Qed.

Lemma all_safe_plain s : shlex_all_safe s = true → all_plain s = true.
Proof.
  induction s as [|c s IH]; simpl; [done|].
  rewrite !andb_true_iff. intros [Hc Hs]. auto using safe_char_plain.
Qed.

Lemma words_plain_char c cur s :
  plain c = true →
  Sh.words Sh.Unquoted cur (String c s) = Sh.words Sh.Unquoted (Sh.push cur c) s.
Proof.
  unfold plain. rewrite !andb_true_iff, !negb_true_iff.
  intros [[[Hb Hq] Hd] Ha]. simpl. by rewrite Hb, Hq, Hd, Ha.
Qed.

Lemma push_some acc c : Sh.push (Some acc) c = Some (acc +:+ String c "").
Proof. reflexivity. Qed.

Lemma app_snoc acc c s : (acc +:+ String c "") +:+ s = acc +:+ String c s.
Proof. by rewrite app_assoc_str. Qed.

(** Plain text is added to the word being read. *)
Lemma words_plain p acc rest :
  all_plain p = true →
  Sh.words Sh.Unquoted (Some acc) (p +:+ rest)
  = Sh.words Sh.Unquoted (Some (acc +:+ p)) rest.
Proof.
  revert acc. induction p as [|c p IH]; intros acc Hp.
  - by rewrite app_nil_l, app_empty_r.
  - simpl in Hp. apply andb_true_iff in Hp as [Hc Hp].
    rewrite app_cons, words_plain_char, push_some, IH by done.
    by rewrite app_snoc.
Qed.

Lemma words_plain_start c p rest :
  all_plain (String c p) = true →
  Sh.words Sh.Unquoted None (String c p +:+ rest)
  = Sh.words Sh.Unquoted (Some (String c p)) rest.
Proof.
  intros Hp. simpl in Hp. apply andb_true_iff in Hp as [Hc Hp].
  rewrite app_cons, words_plain_char by done.
  change (Sh.push None c) with (Some (String c "")).
  by rewrite words_plain.
Qed.

(** Between single quotes the text [replace_squote] writes reads back as
    the text it was given. *)
Lemma words_single v acc rest :
  Sh.words Sh.Single (Some acc) (replace_squote v +:+ String squote rest)
  = Sh.words Sh.Unquoted (Some (acc +:+ v)) rest.
Proof.
  revert acc. induction v as [|c v IH]; intros acc.
  - by rewrite app_nil_l, app_empty_r.
  - cbn [replace_squote]. case_bool_decide as Hc.
    + subst c. rewrite !app_cons.
      change (Sh.words Sh.Single (Some (acc +:+ String squote ""))
                (replace_squote v +:+ String squote rest)
              = Sh.words Sh.Unquoted (Some (acc +:+ String squote v)) rest).
      by rewrite IH, app_snoc.
    + rewrite app_cons. simpl. rewrite bool_decide_eq_false_2 by done.
      by rewrite push_some, IH, app_snoc.
Qed.

(** Whatever the value, the shell reads its quoted form back as the value
    itself, as part of the word it stands in. *)
Lemma words_quote v acc rest :
  Sh.words Sh.Unquoted (Some acc) (shlex_quote v +:+ rest)
  = Sh.words Sh.Unquoted (Some (acc +:+ v)) rest.
Proof.
  unfold shlex_quote.
  destruct (nonempty v) eqn:Hne; simpl.
  - destruct (shlex_all_safe v) eqn:Hsafe.
    + by apply words_plain, all_safe_plain.
    + rewrite app_cons, app_assoc_str, app_cons, app_nil_l.
      change (Sh.words Sh.Single (Some acc)
                (replace_squote v +:+ String squote rest)
              = Sh.words Sh.Unquoted (Some (acc +:+ v)) rest).
      apply words_single.
  - apply nonempty_false in Hne. subst v. by rewrite app_empty_r.
Qed.

Lemma words_render kv rest :
  name_ok kv.1 →
  Sh.words Sh.Unquoted None (render kv +:+ rest)
  = Sh.words Sh.Unquoted (Some (assignment kv)) rest.
Proof.
  destruct kv as [k v]. unfold name_ok, render, assignment. simpl.
  intros [Hne Hp]. destruct k as [|c k]; [done|].
  rewrite !app_assoc_str, words_plain_start by done.
  change ("=" +:+ shlex_quote v +:+ rest)
    with (String "=" (shlex_quote v +:+ rest)).
  rewrite words_plain_char, push_some, words_quote by done.
  by rewrite app_snoc.
Qed.

Lemma words_join items :
  Forall (λ kv, name_ok kv.1) items →
  Sh.words Sh.Unquoted None (join " " (map render items))
  = Some (map assignment items).
Proof.
  induction items as [|kv items IH]; [done|].
  intros Hok. apply Forall_cons in Hok as [Hkv Hok].
  destruct items as [|kv' items].
  - simpl. rewrite <- (app_empty_r (render kv)). by rewrite words_render.
  - change (join " " (map render (kv :: kv' :: items)))
      with (render kv +:+ " " +:+ join " " (map render (kv' :: items))).
    rewrite words_render by done.
    change (" " +:+ join " " (map render (kv' :: items)))
      with (String " " (join " " (map render (kv' :: items)))).
    cbn [Sh.words]. change (Sh.blank " ") with true. cbn iota.
    by rewrite IH.
Qed.

End Quoting.

Lemma optional_part (parts : list string) k v :
  (if PyStr.nonempty v then parts ++ [k +:+ "=" +:+ shlex_quote v] else parts)
  = parts ++ map render (filter (λ kv, kv.2 ≠ "") [(k, v)]).
Proof.
  rewrite filter_cons, filter_nil.
  destruct v as [|c v]; case_decide as Hv; simpl in *; try done.
  by rewrite app_nil_r.
Qed.

Lemma filter_items_cons (kv kv' : string * string) (items : list (string * string)) :
  filter (λ kv, kv.2 ≠ "") (kv :: kv' :: items)
  = filter (λ kv, kv.2 ≠ "") [kv] ++ filter (λ kv, kv.2 ≠ "") (kv' :: items).
Proof. by rewrite <- filter_app. Qed.

(** The parts [build_env_string] joins are the variables of [env_items],
    each written by [render]. *)
Lemma env_parts_items device zabbix_token :
  env_parts device zabbix_token = map render (env_items device zabbix_token).
Proof.
  unfold env_parts, env_items.
  change ("DEVICE_NAME=" +:+ shlex_quote (device_name device))
    with (render ("DEVICE_NAME", device_name device)).
  change ("LOCATION=" +:+ shlex_quote (location device))
    with ("LOCATION" +:+ "=" +:+ shlex_quote (location device)).
  change ("CLIENT=" +:+ shlex_quote (client device))
    with ("CLIENT" +:+ "=" +:+ shlex_quote (client device)).
  change ("CHAIN=" +:+ shlex_quote (chain device))
    with ("CHAIN" +:+ "=" +:+ shlex_quote (chain device)).
  change ("ASSET_TAG=" +:+ shlex_quote (asset_tag device))
    with ("ASSET_TAG" +:+ "=" +:+ shlex_quote (asset_tag device)).
  change ("LATITUDE=" +:+ shlex_quote (latitude device))
    with ("LATITUDE" +:+ "=" +:+ shlex_quote (latitude device)).
  change ("LONGITUDE=" +:+ shlex_quote (longitude device))
    with ("LONGITUDE" +:+ "=" +:+ shlex_quote (longitude device)).
  change ("ZABBIX_API_TOKEN=" +:+ shlex_quote zabbix_token)
    with ("ZABBIX_API_TOKEN" +:+ "=" +:+ shlex_quote zabbix_token).
  cbv zeta. rewrite !optional_part.
  rewrite !filter_items_cons, List.map_cons, !List.map_app, <- !app_assoc.
  reflexivity.
Qed.

Lemma env_items_names device zabbix_token :
  Forall (λ kv, name_ok kv.1) (env_items device zabbix_token).
Proof.
  unfold env_items. apply Forall_cons. split; [by vm_compute|].
  apply Forall_forall. intros kv Hkv.
  apply list_elem_of_filter in Hkv as [_ Hkv].
  repeat (apply elem_of_cons in Hkv as [-> | Hkv]; [by vm_compute|]).
  by apply elem_of_nil in Hkv.
Qed.

Lemma option_fmap_app {A} (l1 l2 : list A) (o : option (list A)) :
  (l1 ++.) <$> ((l2 ++.) <$> o) = ((l1 ++ l2) ++.) <$> o.
Proof. destruct o; simpl; [|done]. by rewrite app_assoc. Qed.

(** Variables followed by more of the command line. *)
Lemma words_join_then items rest :
  items ≠ [] →
  Forall (λ kv, name_ok kv.1) items →
  Sh.words Sh.Unquoted None
    (PyStr.join " " (map render items) +:+ String " " rest)
  = (map assignment items ++.) <$> Sh.words Sh.Unquoted None rest.
Proof.
  induction items as [|kv items IH]; [done|]. intros _ Hok.
  apply Forall_cons in Hok as [Hkv Hok].
  destruct items as [|kv' items].
  - simpl. rewrite words_render by done. simpl.
    by destruct (Sh.words Sh.Unquoted None rest).
  - change (PyStr.join " " (map render (kv :: kv' :: items)))
      with (render kv +:+ " "
            +:+ PyStr.join " " (map render (kv' :: items))).
    rewrite !app_assoc_str, words_render by done.
    change (" " +:+ ?x) with (String " " x).
    cbn [Sh.words]. change (Sh.blank " ") with true. cbn iota.
    rewrite IH by done.
    by destruct (Sh.words Sh.Unquoted None rest).
Qed.

Lemma env_items_nonempty device zabbix_token :
  env_items device zabbix_token ≠ [].
Proof. done. Qed.

Lemma words_sudo_prefix device rest :
  Sh.words Sh.Unquoted None (sudo_prefix device +:+ String " " rest)
  = (sudo_words device ++.) <$> Sh.words Sh.Unquoted None rest.
Proof.
  unfold sudo_prefix, sudo_words. case_bool_decide.
  - change ("sudo -E" +:+ String " " rest)
      with ("sudo" +:+ String " " ("-E" +:+ String " " rest)).
    rewrite words_plain_start by done.
    cbn [Sh.words]. change (Sh.blank " ") with true. cbn iota.
    rewrite words_plain_start by done.
    cbn [Sh.words]. change (Sh.blank " ") with true. cbn iota.
    by destruct (Sh.words Sh.Unquoted None rest).
  - rewrite words_plain_start by done.
    cbn [Sh.words]. change (Sh.blank " ") with true. cbn iota.
    by destruct (Sh.words Sh.Unquoted None rest).
Qed.

(** C9. For every host record and token, the environment string is the
    variables of [env_items] (the device name, and each other field and
    the token when not empty), each written as its name, an equals sign
    and the [shlex.quote] of its value, one space apart. A shell reading
    that string finds no active character in it and passes on one word
    per variable, holding the value character for character; and so it
    does within the [sudo] command line the string is placed in, whatever
    inert text follows it. *)
Theorem env_string_values_inert device zabbix_token :
  build_env_string device zabbix_token
  = PyStr.join " " (map render (env_items device zabbix_token))
  ∧ Sh.split (build_env_string device zabbix_token)
    = Some (map assignment (env_items device zabbix_token))
  ∧ (∀ rest,
       Sh.split (sudo_line device zabbix_token (String " " rest))
       = (λ ws, sudo_words device
                ++ map assignment (env_items device zabbix_token) ++ ws)
         <$> Sh.split rest)
  ∧ Sh.split (sudo_line device zabbix_token (" bash " +:+ remote_script))
    = Some (sudo_words device
            ++ map assignment (env_items device zabbix_token)
            ++ ["bash"; remote_script]).
Proof.
  assert (∀ rest,
       Sh.split (sudo_line device zabbix_token (String " " rest))
       = (λ ws, sudo_words device
                ++ map assignment (env_items device zabbix_token) ++ ws)
         <$> Sh.split rest) as Hline.
  { intros rest. unfold sudo_line, Sh.split, build_env_string.
    rewrite env_parts_items.
    change (" " +:+ ?x) with (String " " x).
    rewrite words_sudo_prefix.
    rewrite words_join_then
      by (apply env_items_nonempty || apply env_items_names).
    by destruct (Sh.words Sh.Unquoted None rest). }
  split_and!; [| |exact Hline|].
  - unfold build_env_string. by rewrite env_parts_items.
  - unfold build_env_string, Sh.split. rewrite env_parts_items.
    apply words_join, env_items_names.
  - change (" bash " +:+ remote_script)
      with (String " " ("bash " +:+ remote_script)).
    by rewrite Hline.
Qed.

(* ===================================================================== *)
(** * One deployment attempt                                              *)
(* ===================================================================== *)

Lemma new_events_app w w' tr :
  events w' = events w ++ tr → new_events w w' = tr.
Proof. intros H. unfold new_events. by rewrite H, drop_app_length. Qed.

Section Traced.

Lemma same_store_refl w : same_store w w.
Proof. by unfold same_store. Qed.

Lemma same_store_trans w1 w2 w3 :
  same_store w1 w2 → same_store w2 w3 → same_store w1 w3.
Proof. unfold same_store. intros (?&?&?) (?&?&?). split_and!; congruence. Qed.

Lemma traced_weaken {A} (c : M A) (P Q : list event → ctl + A → Prop) :
  traced c P → (∀ tr r, P tr r → Q tr r) → traced c Q.
Proof.
  intros Hc HPQ w. destruct (Hc w) as (Hs & tr & Hev & HP). eauto.
Qed.

Lemma traced_ret {A} (a : A) :
  traced (mret a) (λ tr r, tr = [] ∧ r = inr a).
Proof.
  intros w. split; [apply same_store_refl|].
  exists []. by rewrite app_nil_r.
Qed.

Lemma traced_reraise {A} (e : exn) :
  traced (reraise (A := A) e) (λ tr r, tr = [] ∧ r = inl (Raise e)).
Proof.
  intros w. split; [apply same_store_refl|].
  exists []. by rewrite app_nil_r.
Qed.

Lemma traced_raise {A} cls msg :
  traced (raise (A := A) cls msg)
         (λ tr r, tr = [] ∧ r = inl (Raise (Exn cls msg))).
Proof. apply traced_reraise. Qed.

Lemma traced_emit ev : traced (emit ev) (λ tr r, tr = [ev] ∧ r = inr ()).
Proof. intros w. split; [by unfold same_store|]. by exists [ev]. Qed.

Lemma traced_time : traced time_time (λ tr r, tr = [] ∧ ∃ t, r = inr t).
Proof.
  intros w. unfold time_time.
  destruct (clock w); (split; [by unfold same_store|]);
    exists []; simpl; rewrite app_nil_r; eauto.
Qed.

(** Sequencing: the traces follow one another. *)
Lemma traced_bind {A B} (c : M A) (f : A → M B) P Q :
  traced c P →
  (∀ a, traced (f a) (Q a)) →
  traced (c ≫= f)
    (λ tr r, (∃ e, r = inl e ∧ P tr (inl e))
             ∨ (∃ a tr1 tr2, tr = tr1 ++ tr2 ∧ P tr1 (inr a) ∧ Q a tr2 r)).
Proof.
  intros Hc Hf w. unfold mbind, M_bind.
  destruct (Hc w) as (Hs & tr1 & Hev & HP).
  destruct (c w) as [[e|a] w1]; simpl in *.
  - split; [done|]. exists tr1. split; [done|]. left. eauto.
  - destruct (Hf a w1) as (Hs2 & tr2 & Hev2 & HQ).
    split; [by eapply same_store_trans|].
    exists (tr1 ++ tr2). rewrite Hev2, Hev, app_assoc. split; [done|].
    right. by exists a, tr1, tr2.
Qed.

(** [try ... except Exception]: the handler runs after what the body did. *)
Lemma traced_try {A} (body : M A) (h : exn → M A) P Q :
  traced body P →
  (∀ e, traced (h e) (Q e)) →
  traced (try_except body h)
    (λ tr r, (P tr r ∧ ∀ e, r ≠ inl (Raise e))
             ∨ (∃ e tr1 tr2, tr = tr1 ++ tr2 ∧ P tr1 (inl (Raise e))
                             ∧ Q e tr2 r)).
Proof.
  intros Hb Hh w. unfold try_except.
  destruct (Hb w) as (Hs & tr1 & Hev & HP).
  destruct (body w) as [[[e|code]|a] w1]; simpl in *.
  - destruct (Hh e w1) as (Hs2 & tr2 & Hev2 & HQ).
    split; [by eapply same_store_trans|].
    exists (tr1 ++ tr2). rewrite Hev2, Hev, app_assoc. split; [done|].
    right. by exists e, tr1, tr2.
  - split; [done|]. exists tr1. split; [done|]. left. by split.
  - split; [done|]. exists tr1. split; [done|]. left. by split.
Qed.

End Traced.

Section Attempt.

Context (env : Env) (device : Device).

Lemma silent_not_save ev : silent device ev → not_save ev.
Proof. by intros [? _]. Qed.

Lemma quiet_nil {A} (r : ctl + A) :
  (∀ code, r ≠ inl (SysExit code)) → quiet device [] r.
Proof. intros Hr. split; [constructor|done]. Qed.

(** A sequence of quiet computations is quiet, and keeps what the last one
    promises about the outcome. *)
Lemma quiet_bind {A B} (c : M A) (f : A → M B) (R : ctl + B → Prop) :
  (∀ e, R (inl e)) →
  traced c (quiet device) →
  (∀ a, traced (f a) (λ tr r, quiet device tr r ∧ R r)) →
  traced (c ≫= f) (λ tr r, quiet device tr r ∧ R r).
Proof.
  intros HR Hc Hf.
  eapply traced_weaken; [exact (traced_bind _ _ _ _ Hc Hf)|].
  intros tr r [(e & -> & [Htr He])
              | (a & tr1 & tr2 & -> & [Htr1 _] & [Htr2 Hr] & HRr)].
  - split; [split|]; [done| |done]. intros code [= ->]. by eapply He.
  - split; [split|]; [|done|done]. by apply Forall_app.
Qed.

Lemma quiet_bind' {A B} (c : M A) (f : A → M B) :
  traced c (quiet device) →
  (∀ a, traced (f a) (quiet device)) →
  traced (c ≫= f) (quiet device).
Proof.
  intros Hc Hf.
  eapply traced_weaken;
    [apply (quiet_bind c f (λ _, True)); [done|done|]|by intros ?? [? _]].
  intros a. eapply traced_weaken; [apply Hf|done].
Qed.

Lemma quiet_time : traced time_time (quiet device).
Proof.
  eapply traced_weaken; [apply traced_time|].
  intros tr r [-> [t ->]]. by apply quiet_nil.
Qed.

Lemma quiet_ret {A} (a : A) : traced (mret a) (quiet device).
Proof.
  eapply traced_weaken; [apply traced_ret|].
  intros tr r [-> ->]. by apply quiet_nil.
Qed.

Lemma quiet_reraise {A} e : traced (reraise (A := A) e) (quiet device).
Proof.
  eapply traced_weaken; [apply traced_reraise|].
  intros tr r [-> ->]. by apply quiet_nil.
Qed.

Lemma quiet_emit ev : silent device ev → traced (emit ev) (quiet device).
Proof.
  intros Hev. eapply traced_weaken; [apply traced_emit|].
  intros tr r [-> ->]. split; [by apply Forall_singleton|done].
Qed.

Lemma silent_probe name : silent device (EvProbe name).
Proof. split; [done|]. by intros cp [cmd ?]. Qed.

Lemma silent_scp name l r : silent device (EvScp name l r).
Proof. split; [done|]. by intros cp [cmd ?]. Qed.

Lemma silent_log l c o e : silent device (EvLog l c o e).
Proof. split; [done|]. by intros cp [cmd ?]. Qed.

Lemma silent_run_other name command timeout cp :
  timeout ≠ 600 → silent device (EvSshRun name command timeout cp).
Proof. intros Ht. split; [done|]. intros cp' [cmd Hcmd]. congruence. Qed.

Lemma quiet_test_connectivity :
  traced (ssh_test_connectivity env device) (quiet device).
Proof.
  apply quiet_bind'; [apply quiet_emit, silent_probe|intros; apply quiet_ret].
Qed.

Lemma quiet_install_script : traced (install_script device) (quiet device).
Proof.
  unfold install_script. destruct (INSTALL_SCRIPTS !! platform device).
  - apply quiet_ret.
  - apply quiet_reraise.
Qed.

Lemma quiet_scp_file l r : traced (ssh_scp_file env device l r) (quiet device).
Proof.
  apply quiet_bind'; [apply quiet_emit, silent_scp|intros _].
  destruct (scp_file env device l r); [apply quiet_reraise|apply quiet_ret].
Qed.

Lemma quiet_write_log log code out err :
  traced (write_log env log device code out err) (quiet device).
Proof.
  unfold write_log. destruct (log_write_fault env log).
  - apply quiet_reraise.
  - apply quiet_emit, silent_log.
Qed.

(** The clean-up run, under its timeout of 10 seconds, is no execute step,
    and its failure is swallowed. *)
Lemma quiet_cleanup command :
  traced (try_except (ssh_ssh_run env device command 10;; mret ())
                     (λ _, mret ()))
         (quiet device).
Proof.
  eapply traced_weaken.
  - apply traced_try with (P := quiet device) (Q := λ _, quiet device).
    + apply quiet_bind'; [|intros; apply quiet_ret].
      unfold ssh_ssh_run. destruct (ssh_run env device command 10).
      * apply quiet_reraise.
      * apply quiet_bind'; [|intros; apply quiet_ret].
        apply quiet_emit, silent_run_other. lia.
    + intros e. apply quiet_ret.
  - intros tr r [[H _] | (e & tr1 & tr2 & -> & [H1 _] & [H2 Hr])]; [done|].
    split; [by apply Forall_app|done].
Qed.

End Attempt.

Section DeployDevice.

Context (env : Env) (device : Device).

Lemma conclude_traced start_time log result :
  traced (conclude env device start_time log result)
         (λ tr r, quiet device tr r ∧ decided_by device result r).
Proof.
  unfold conclude.
  apply quiet_bind; [by intros e res|apply quiet_time|intros now]. cbv zeta.
  apply quiet_bind; [by intros e res|apply quiet_write_log|intros _].
  destruct (returncode result =? 0) eqn:Hrc;
    (eapply traced_weaken; [apply traced_ret|]);
    intros tr r [-> ->]; (split; [by apply quiet_nil|]);
    intros res [= <-]; by rewrite Hrc.
Qed.

(** An early failure: time, log, and an outcome that bears the name. *)
Lemma failure_traced duration_of code out err msg log :
  traced (now ← time_time;
          write_log env log device code out err;;
          mret (mkResult (device_name device) false (duration_of now) msg log))
         (λ tr r, quiet device tr r ∧ named device r).
Proof.
  apply quiet_bind; [by intros e res|apply quiet_time|intros now].
  apply quiet_bind; [by intros e res|apply quiet_write_log|intros _].
  eapply traced_weaken; [apply traced_ret|].
  intros tr r [-> ->]. split; [by apply quiet_nil|]. by intros res [= <-].
Qed.

Lemma attempt_post_quiet (c : M DeploymentResult) :
  traced c (λ tr r, quiet device tr r ∧ named device r) →
  traced c (attempt_post device).
Proof.
  intros Hc. eapply traced_weaken; [exact Hc|].
  intros tr r [[Htr Hr] Hn]. split.
  - eapply Forall_impl; [exact Htr|]. by intros ev [? _].
  - destruct r as [[e|code]|res]; [done|by eapply Hr|].
    split; [by apply Hn|]. intros ev cp Hev Hex.
    rewrite Forall_forall in Htr. by destruct (Htr ev Hev) as [_ Hno]; destruct (Hno cp).
Qed.

(** Quiet steps before the attempt proper do not matter to its outcome. *)
Lemma attempt_post_bind {A} (c : M A) (f : A → M DeploymentResult) :
  traced c (quiet device) →
  (∀ a, traced (f a) (attempt_post device)) →
  traced (c ≫= f) (attempt_post device).
Proof.
  intros Hc Hf.
  eapply traced_weaken; [exact (traced_bind _ _ _ _ Hc Hf)|].
  intros tr r [(e & -> & [Htr He])
              | (a & tr1 & tr2 & -> & [Htr1 _] & [Htr2 Hr])].
  - split; [eapply Forall_impl; [exact Htr|by intros ev [? _]]|].
    destruct e as [e|code]; [done|by eapply He].
  - split.
    + apply Forall_app. split; [|done].
      eapply Forall_impl; [exact Htr1|]. by intros ev [? _].
    + destruct r as [[e|code]|res]; [done|done|].
      destruct Hr as [Hn Hiff]. split; [done|].
      intros ev cp Hev Hex. apply elem_of_app in Hev as [Hev|Hev].
      * rewrite Forall_forall in Htr1.
        by destruct (Htr1 ev Hev) as [_ Hno]; destruct (Hno cp).
      * by apply (Hiff ev cp).
Qed.

(** The execute step, followed by quiet steps that decide the outcome by
    its exit code. *)
Lemma execute_traced command (rest : CompletedProcess → M DeploymentResult) :
  (∀ result, traced (rest result)
               (λ tr r, quiet device tr r ∧ decided_by device result r)) →
  traced (result ← ssh_ssh_run env device command 600; rest result)
         (attempt_post device).
Proof.
  intros Hrest. unfold ssh_ssh_run.
  destruct (ssh_run env device command 600) as [e|cp].
  - eapply traced_weaken;
      [exact (traced_bind _ _ _ _ (traced_reraise e) Hrest)|].
    intros tr r [(e' & -> & -> & [= ->]) | (a & tr1 & tr2 & _ & [_ [=]] & _)].
    by split; [constructor|].
  - eapply traced_weaken.
    { refine (traced_bind _ _ _ _ _ Hrest).
      exact (traced_bind _ _ _ _ (traced_emit _) (λ _, traced_ret cp)). }
    intros tr r [(e & -> & Hfirst)
                | (a & tr1 & tr2 & -> & Hfirst & [[Htr2 Hr] Hdec])].
    { by destruct Hfirst as [(e' & _ & _ & [=])
                            | (u & t1 & t2 & _ & _ & _ & [=])]. }
    destruct Hfirst as [(e' & [=] & _)
                       | (u & t1 & t2 & -> & [-> _] & -> & [= <-])].
    split.
    + apply Forall_app. split; [by apply Forall_singleton|].
      eapply Forall_impl; [exact Htr2|]. by intros ev [? _].
    + destruct r as [[e|code]|res]; [done|by eapply Hr|].
      destruct (Hdec res eq_refl) as [Hn Hs]. split; [done|].
      intros ev cp' Hev [cmd Hcmd]. rewrite Hs.
      apply elem_of_app in Hev as [Hev|Hev].
      * apply list_elem_of_singleton in Hev. subst ev.
        injection Hcmd as _ ->. apply Z.eqb_eq.
      * rewrite Forall_forall in Htr2.
        destruct (Htr2 ev Hev) as [_ Hno]. destruct (Hno cp'). by exists cmd.
Qed.

(** The contract of [deploy_device]. *)
Lemma deploy_device_traced zabbix_token scripts_dir log_dir use_github :
  traced (deploy_device env device zabbix_token scripts_dir log_dir use_github)
         (attempt_post device).
Proof.
  unfold deploy_device.
  apply attempt_post_bind; [apply quiet_time|intros start_time]. cbv zeta.
  apply attempt_post_bind; [apply quiet_test_connectivity|].
  intros [reachable msg]. destruct reachable; simpl.
  - destruct use_github.
    + apply attempt_post_bind; [apply quiet_install_script|intros script].
      apply execute_traced. intros result. apply conclude_traced.
    + apply attempt_post_bind; [apply quiet_install_script|intros script].
      destruct (path_exists env _); simpl.
      * apply attempt_post_bind; [apply quiet_scp_file|intros scp_result].
        destruct (returncode scp_result =? 0); simpl.
        -- apply execute_traced. intros result.
           apply quiet_bind; [by intros e res|apply quiet_cleanup|intros _].
           apply conclude_traced.
        -- apply attempt_post_quiet, failure_traced.
      * apply attempt_post_quiet, failure_traced.
  - apply attempt_post_quiet, failure_traced.
Qed.

End DeployDevice.

Section ExecuteStep.

Context (env : Env).

(** C3. Whenever [deploy_device] returns an outcome and its trace holds the
    execute step, the outcome is a success exactly when that step returned
    exit code zero. *)
Theorem success_iff_execute_exit_zero device zabbix_token scripts_dir log_dir
    use_github w r w' ev cp :
  deploy_device env device zabbix_token scripts_dir log_dir use_github w
  = (inr r, w') →
  ev ∈ new_events w w' →
  execute_step device ev cp →
  (success r = true ↔ returncode cp = 0).
Proof.
  intros Hrun Hev Hex.
  destruct (deploy_device_traced env device zabbix_token scripts_dir log_dir
              use_github w) as (_ & tr & Htr & _ & Hpost).
  rewrite Hrun in Htr, Hpost. simpl in Htr, Hpost.
  rewrite (new_events_app _ _ _ Htr) in Hev.
  destruct Hpost as [_ Hiff]. by apply (Hiff ev cp).
Qed.

End ExecuteStep.

Lemma success_iff_execute_exit_zero_witness :
  let run := deploy_device Scenario.env_ok Scenario.mac "token" "scripts"
               "logs" false Scenario.fresh in
  let cp := mkProc 2 "out" Scenario.stderr_301 in
  let ev := EvSshRun "mac-paris-002" Scenario.mac_command 600 cp in
  let r := mkResult "mac-paris-002" false 0
             ("..." +:+ PyStr.str (replicate 200 "b"%char))
             "logs/mac-paris-002.log" in
  run = (inr r, run.2)
  ∧ ev ∈ new_events Scenario.fresh run.2
  ∧ execute_step Scenario.mac ev cp
  ∧ (success r = true ↔ returncode cp = 0).
Proof.
  intros run cp ev r.
  assert (run = (inr r, run.2)) as Hrun
    by (apply run_eq; vm_compute; reflexivity).
  assert (ev ∈ new_events Scenario.fresh run.2) as Hev.
  { apply list_elem_of_In. vm_compute. do 2 right. left. reflexivity. }
  assert (execute_step Scenario.mac ev cp) as Hex
    by (by exists Scenario.mac_command).
  split_and!; [exact Hrun|exact Hev|exact Hex|].
  exact (success_iff_execute_exit_zero Scenario.env_ok Scenario.mac "token"
           "scripts" "logs" false Scenario.fresh r run.2 ev cp Hrun Hev Hex).
Defined.

(* ===================================================================== *)
(** * A worker that raises                                                *)
(* ===================================================================== *)

Section Faults.

Context (env : Env).

Lemma same_store_last_status w w' name :
  same_store w w' →
  last_status (sm_state w') name = last_status (sm_state w) name.
Proof. by intros [-> _]. Qed.

(** When [deploy_and_record] raises, the loop records the substitute. *)
Lemma attempt_substitutes args zabbix_token device w e w1 :
  deploy_and_record env device zabbix_token (a_scripts_dir args)
    (a_log_dir args) (a_github args) w = (inl (Raise e), w1) →
  attempt env args zabbix_token device w
  = (inr (unexpected_error device e), w1).
Proof. intros H. unfold attempt. by rewrite (try_except_raise _ _ _ _ _ H). Qed.

(** C10, as the code has it. When [deploy_device] raises, in either loop
    the outcome recorded for the host is the substitute: failed, duration
    0, no log file, the text of the exception after "Unexpected error: ".
    No record call is made: the state manager, the state file and with
    them the last recorded status of the host are what they were, and no
    write of the state file is in the trace. *)
Theorem faulted_deploy_leaves_store args zabbix_token device w e w1 :
  deploy_device env device zabbix_token (a_scripts_dir args) (a_log_dir args)
    (a_github args) w = (inl (Raise e), w1) →
  attempt env args zabbix_token device w
  = (inr (mkResult (device_name device) false 0
            ("Unexpected error: " +:+ exn_str e) ""), w1)
  ∧ sm_state w1 = sm_state w
  ∧ state_file w1 = state_file w
  ∧ last_status (sm_state w1) (device_name device)
    = last_status (sm_state w) (device_name device)
  ∧ Forall not_save (new_events w w1).
Proof.
  intros Hrun.
  destruct (deploy_device_traced env device zabbix_token (a_scripts_dir args)
              (a_log_dir args) (a_github args) w)
    as (Hstore & tr & Htr & Hsave & _).
  rewrite Hrun in Hstore, Htr. simpl in Hstore, Htr.
  split_and!.
  - apply attempt_substitutes. unfold deploy_and_record.
    by rewrite (bind_inl _ _ _ _ _ Hrun).
  - by destruct Hstore.
  - by destruct Hstore as (_ & ? & _).
  - by apply same_store_last_status.
  - by rewrite (new_events_app _ _ _ Htr).
Qed.

End Faults.

(** C10 as it is worded fails when the exception comes from the record
    call itself. The install on [rpi] works; [mark_success] puts the entry
    in the mapping and then cannot open the state file. The outcome
    recorded for [rpi] is the substitute, yet the manager's entry for it
    went from none to success, and the write made for the next host puts
    that entry on disk. *)
Lemma record_fault_changes_entry :
  let w := Scenario.world_write_fault in
  let one := attempt Scenario.env_ok Scenario.args_plain "token" Scenario.rpi w in
  let all := deploy_all Scenario.env_ok Scenario.args_plain "token"
               [Scenario.rpi; Scenario.mac] w in
  (deploy_and_record Scenario.env_ok Scenario.rpi "token" "scripts" "logs"
     false w).1 = inl (Raise (Exn IOError "Permission denied"))
  ∧ one.1 = inr (mkResult "rpi-london-001" false 0
                   "Unexpected error: Permission denied" "")
  ∧ last_status (sm_state w) "rpi-london-001" = JNull
  ∧ last_status (sm_state one.2) "rpi-london-001" = JStr "success"
  ∧ match all.1 with
    | inr results => map success results = [false; false]
    | inl _ => False
    end
  ∧ match state_file all.2 with
    | FJson v => last_status v "rpi-london-001" = JStr "success"
    | _ => False
    end.
Proof. cbv zeta. split_and!; vm_compute; reflexivity. Qed.

Lemma faulted_deploy_leaves_store_witness :
  let run := deploy_device Scenario.env_timeout Scenario.rpi "token" "scripts"
               "logs" false Scenario.world_rpi_succeeded in
  run = (inl (Raise Scenario.timeout_600), run.2)
  ∧ attempt Scenario.env_timeout Scenario.args_plain "token" Scenario.rpi
      Scenario.world_rpi_succeeded
    = (inr (mkResult "rpi-london-001" false 0
              "Unexpected error: Command timed out after 600 seconds" ""),
       run.2)
  ∧ state_file run.2 = state_file Scenario.world_rpi_succeeded.
Proof.
  intros run.
  assert (run = (inl (Raise Scenario.timeout_600), run.2)) as Hrun
    by (apply run_eq; vm_compute; reflexivity).
  split; [exact Hrun|].
  by destruct (faulted_deploy_leaves_store Scenario.env_timeout
                 Scenario.args_plain "token" Scenario.rpi
                 Scenario.world_rpi_succeeded Scenario.timeout_600 run.2 Hrun)
    as (? & _ & ? & _).
Defined.

(* ===================================================================== *)
(** * The deployment loops                                                *)
(* ===================================================================== *)

Section Loops.

Context (env : Env).

Lemma save_no_exit w code w' : _save w ≠ (inl (SysExit code), w').
Proof. unfold _save. by destruct (write_faults w) as [|[] ?]. Qed.

Lemma record_no_exit name entry_of w code w' :
  (now ← datetime_now_isoformat env;
   state_setitem name (entry_of now);; _save) w ≠ (inl (SysExit code), w').
Proof.
  intros H.
  apply bind_inv in H as [(now & w1 & _ & H)|(e & H & [= <-])].
  - apply bind_inv in H as [(u & w2 & _ & H)|(e & H & [= <-])].
    + by apply save_no_exit in H.
    + unfold state_setitem in H. unfold_monad. by destruct (sm_state w1).
  - unfold datetime_now_isoformat, time_time in H. unfold_monad.
    by destruct (clock w).
Qed.

(** A worker returns an outcome that bears the name of its device, or
    raises; it never exits. *)
Lemma deploy_and_record_cases device zabbix_token scripts_dir log_dir
    use_github w r w' :
  deploy_and_record env device zabbix_token scripts_dir log_dir use_github w
  = (r, w') →
  match r with
  | inr res => r_device_name res = device_name device
  | inl (Raise _) => True
  | inl (SysExit _) => False
  end.
Proof.
  intros H. unfold deploy_and_record in H.
  destruct (deploy_device_traced env device zabbix_token scripts_dir log_dir
              use_github w) as (_ & tr & _ & _ & Hpost).
  apply bind_inv in H as [(res & w1 & Hdev & H)|(e & Hdev & ->)].
  - rewrite Hdev in Hpost. destruct Hpost as [Hname _].
    apply bind_inv in H as [(u & w2 & _ & H)|(e & Hmark & ->)].
    + by injection H as <- _.
    + destruct e as [e|code]; [done|].
      destruct (success res); by apply record_no_exit in Hmark.
  - rewrite Hdev in Hpost. by destruct e.
Qed.

(** One pass of a loop always yields an outcome, for the device at hand. *)
Lemma attempt_total args zabbix_token device w :
  ∃ result w',
    attempt env args zabbix_token device w = (inr result, w')
    ∧ r_device_name result = device_name device.
Proof.
  unfold attempt, try_except.
  destruct (deploy_and_record env device zabbix_token (a_scripts_dir args)
              (a_log_dir args) (a_github args) w) as [[[e|code]|res] w1] eqn:H;
    apply deploy_and_record_cases in H; [|done|]; eauto.
Qed.

Lemma print_device_result_total result w :
  ∃ w', print_device_result result w = (inr (), w').
Proof.
  unfold print_device_result. unfold_monad.
  destruct (success result); [eauto|]. simpl.
  destruct (PyStr.nonempty (log_file result)); eauto.
Qed.

(** The sequential loop: one outcome per device, in order. *)
Lemma deploy_sequential_total args zabbix_token devices results w :
  ∃ results' w',
    deploy_sequential env args zabbix_token devices results w
    = (inr (results ++ results'), w')
    ∧ map r_device_name results' = map device_name devices.
Proof.
  revert results w. induction devices as [|device rest IH]; intros results w.
  - exists [], w. by rewrite app_nil_r.
  - cbn [deploy_sequential].
    rewrite (bind_inr _ _ w () (add_event (EvPrint _) w) eq_refl).
    destruct (attempt_total args zabbix_token device (add_event (EvPrint
      (device_name device +:+ " (" +:+ platform device +:+ " @ "
       +:+ tailscale_ip device +:+ ")...")) w))
      as (result & w1 & Hattempt & Hname).
    rewrite (bind_inr _ _ _ _ _ Hattempt). cbv zeta.
    destruct (print_device_result_total result w1) as (w2 & Hprint).
    rewrite (bind_inr _ _ _ _ _ Hprint).
    destruct (IH (results ++ [result]) w2) as (results' & w' & Hrest & Hnames).
    exists (result :: results'), w'. split.
    + rewrite Hrest. by rewrite <- app_assoc.
    + simpl. by rewrite Hname, Hnames.
Qed.

Lemma next_completion_bound n w :
  (0 < n)%nat →
  ∃ k w', next_completion n w = (inr k, w') ∧ (k < n)%nat.
Proof.
  intros Hn. unfold next_completion.
  destruct (completions w) as [|k rest]; [by eauto|].
  eexists _, _. split; [done|]. apply Nat.mod_upper_bound. lia.
Qed.

(** The pool: one outcome per device, in the order the workers finish. *)
Lemma deploy_parallel_total workers args zabbix_token pending results w :
  (0 < workers)%nat →
  ∃ results' w',
    deploy_parallel env (length pending) workers args zabbix_token pending
      results w
    = (inr (results ++ results'), w')
    ∧ map r_device_name results' ≡ₚ map device_name pending.
Proof.
  intros Hworkers.
  remember (length pending) as fuel eqn:Hfuel.
  revert pending results w Hfuel.
  induction fuel as [|fuel IH]; intros pending results w Hfuel.
  - destruct pending; [|done]. exists [], w. by rewrite app_nil_r.
  - destruct pending as [|device0 pending']; [done|].
    cbn [deploy_parallel]. set (pending := device0 :: pending') in *.
    destruct (next_completion_bound (Nat.min workers (length pending)) w)
      as (k & w0 & Hnext & Hk); [simpl; lia|].
    rewrite (bind_inr _ _ _ _ _ Hnext). cbv zeta.
    assert (k < length pending)%nat as Hlt by lia.
    destruct (lookup_lt_is_Some_2 pending k Hlt) as [device Hdevice].
    rewrite (nth_lookup_Some _ _ device0 _ Hdevice).
    destruct (attempt_total args zabbix_token device w0)
      as (result & w1 & Hattempt & Hname).
    rewrite (bind_inr _ _ _ _ _ Hattempt).
    destruct (print_device_result_total result w1) as (w2 & Hprint).
    rewrite (bind_inr _ _ _ _ _ Hprint).
    destruct (IH (delete k pending) (results ++ [result]) w2)
      as (results' & w' & Hrest & Hnames).
    { rewrite length_delete by eauto. simpl in *. lia. }
    exists (result :: results'), w'. split.
    + rewrite Hrest. by rewrite <- app_assoc.
    + rewrite (delete_Permutation pending k device Hdevice).
      simpl. rewrite Hname. by constructor.
Qed.

(** Step 12 runs to its end, with one outcome per selected device. *)
Lemma deploy_all_total args zabbix_token devices w :
  ∃ results w',
    deploy_all env args zabbix_token devices w = (inr results, w')
    ∧ map r_device_name results ≡ₚ map device_name devices
    ∧ length results = length devices.
Proof.
  unfold deploy_all.
  destruct (1 <? a_parallel args) eqn:Hpar.
  - rewrite (bind_inr _ _ w () (add_event (EvPrint _) w) eq_refl).
    destruct (deploy_parallel_total (Z.to_nat (a_parallel args)) args
                zabbix_token devices [] (add_event (EvPrint
                  ("Deploying to " +:+ pretty (length devices) +:+ " devices ("
                   +:+ pretty (a_parallel args) +:+ " concurrent)...")) w))
      as (results & w' & Hrun & Hnames); [apply Z.ltb_lt in Hpar; lia|].
    exists results, w'. split_and!; [done|done|].
    apply Permutation_length in Hnames. by rewrite !length_map in Hnames.
  - rewrite (bind_inr _ _ w () (add_event (EvPrint _) w) eq_refl).
    destruct (deploy_sequential_total args zabbix_token devices []
                (add_event (EvPrint
                  ("Deploying to " +:+ pretty (length devices)
                   +:+ " devices (sequential)...")) w))
      as (results & w' & Hrun & Hnames).
    exists results, w'. split_and!; [done|by rewrite Hnames|].
    apply (f_equal length) in Hnames. by rewrite !length_map in Hnames.
Qed.

End Loops.

(* ===================================================================== *)
(** * The exit status                                                     *)
(* ===================================================================== *)

Section ExitStatus.

Context (env : Env) (S : Z → Prop).

Lemma exits_ret {A} (a : A) : exits_in S (mret a).
Proof. by intros w code w'. Qed.

Lemma exits_raise {A} cls msg : exits_in S (raise (A := A) cls msg).
Proof. by intros w code w'. Qed.

Lemma exits_print line : exits_in S (print line).
Proof. by intros w code w'. Qed.

Lemma exits_exit {A} code : S code → exits_in S (sys_exit (A := A) code).
Proof. by intros HS w code' w' [= <- _]. Qed.

Lemma exits_bind {A B} (c : M A) (f : A → M B) :
  exits_in S c → (∀ a, exits_in S (f a)) → exits_in S (c ≫= f).
Proof.
  intros Hc Hf w code w' H.
  apply bind_inv in H as [(a & w1 & _ & H)|(e & H & [= <-])].
  - by eapply Hf.
  - by eapply Hc.
Qed.

Lemma exits_input prompt : exits_in S (input prompt).
Proof. intros w code w'. unfold input. by destruct (stdin w). Qed.

Lemma exits_total {A} (c : M A) :
  (∀ w, ∃ a w', c w = (inr a, w')) → exits_in S c.
Proof. intros Hc w code w' H. destruct (Hc w) as (a & w1 & Ha). congruence. Qed.

Lemma exits_init : exits_in S StateManager_init.
Proof.
  intros w code w' H. unfold StateManager_init in H.
  apply bind_inv in H as [(st & w1 & _ & H)|(e & H & [= <-])]; [done|].
  destruct (state_file w) eqn:E.
  - rewrite load_soft in H by auto. done.
  - rewrite load_soft in H by auto. done.
  - rewrite load_undecodable in H by done. done.
  - rewrite load_soft in H by auto. done.
  - rewrite (load_json _ _ E) in H. done.
Qed.

End ExitStatus.

(** Close an [exits_in] goal over code built from the primitives. *)
Ltac solve_exits :=
  repeat first
    [ apply exits_ret | apply exits_raise | apply exits_print
    | apply exits_input
    | apply exits_exit; first [by left | by right | done]
    | apply exits_bind; [|intros]
    | match goal with
      | |- exits_in _ (if ?b then _ else _) => destruct b
      | |- exits_in _ (match ?x with _ => _ end) => destruct x
      end ].

Section ExitCodes.

Context (env : Env).

Lemma exits_filter_by_status S keep devices :
  exits_in S (filter_by_status keep devices).
Proof.
  induction devices as [|d rest IH]; cbn [filter_by_status]; [solve_exits|].
  apply exits_bind; [|intros status; solve_exits; exact IH].
  unfold get_status, py_get. solve_exits.
  intros w code w' H. unfold get_world in H. congruence.
Qed.

(** Step 5 ends the run only with status 0, and never hands on an empty
    selection. *)
Lemma apply_resume_retry_exits args devices :
  exits_in zero (apply_resume_retry args devices).
Proof.
  unfold apply_resume_retry.
  apply exits_bind; [|intros ds; solve_exits].
  destruct (a_resume args); [|destruct (a_retry_failed args)].
  - apply exits_bind; [apply exits_filter_by_status|intros ds]. solve_exits.
  - apply exits_bind; [apply exits_filter_by_status|intros ds]. solve_exits.
  - solve_exits.
Qed.

Lemma apply_resume_retry_nonempty args devices w w' :
  apply_resume_retry args devices w ≠ (inr [], w').
Proof.
  intros H. unfold apply_resume_retry in H.
  apply bind_inv in H as [(ds & w1 & _ & H)|(e & _ & [=])].
  by destruct ds.
Qed.

Lemma exits_weaken {A} (S S' : Z → Prop) (c : M A) :
  (∀ code, S code → S' code) → exits_in S c → exits_in S' c.
Proof. intros HS Hc w code w' H. eauto. Qed.

Lemma zero_zero_or_one code : zero code → zero_or_one code.
Proof. by left. Qed.

Lemma exits_parse_args (args : Args) :
  exits_in zero_or_one (parse_args env args).
Proof. unfold parse_args. cbv zeta. solve_exits. Qed.

Lemma exits_get_token args : exits_in zero_or_one (get_token env args).
Proof. unfold get_token. cbv zeta. solve_exits. Qed.

Lemma exits_check_prerequisites dry_run :
  exits_in zero_or_one (check_prerequisites env dry_run).
Proof. unfold check_prerequisites. cbv zeta. solve_exits. Qed.

Lemma exits_parse_args_any cmdline :
  exits_in up_to_two (parse_args env cmdline).
Proof.
  destruct cmdline as [help|usage|args].
  - apply exits_bind; [apply exits_print|intros _].
    apply exits_exit. by left.
  - apply exits_exit. by right; right.
  - eapply exits_weaken; [|apply exits_parse_args].
    intros code [-> | ->]; [by left|by right; left].
Qed.

Lemma exits_parse_rows S fieldnames rows row_num devices :
  exits_in S (parse_rows fieldnames rows row_num devices).
Proof.
  revert row_num devices.
  induction rows as [|row rows IH]; intros row_num devices;
    [apply exits_ret|].
  destruct row as [|c cs]; [apply IH|]. cbn [parse_rows].
  destruct (normalize_items _ []) as [e|row]; [by intros w code w'|].
  destruct (negb _); [apply IH|]. cbv zeta.
  destruct (validate _); [apply IH|].
  apply exits_bind; [apply exits_print|intros _; apply IH].
Qed.

Lemma exits_parse_inventory lines :
  exits_in zero_or_one (parse_inventory lines).
Proof.
  unfold parse_inventory. destruct lines as [|fieldnames rows]; [solve_exits|].
  destruct (missing_columns fieldnames); [apply exits_parse_rows|solve_exits].
Qed.

Lemma exits_load_inventory args : exits_in zero_or_one (load_inventory env args).
Proof.
  unfold load_inventory.
  destruct (inventory_file env (a_inventory args)) as [[lines fault]|];
    [|solve_exits].
  apply exits_bind; [|intros devices; solve_exits].
  unfold read_inventory. destruct fault as [e|]; [|apply exits_parse_inventory].
  destruct lines; [by intros w code w'|].
  apply exits_bind; [apply exits_parse_inventory|by intros ds w code w'].
Qed.

Lemma exits_apply_filters args devices :
  exits_in zero_or_one (apply_filters args devices).
Proof. unfold apply_filters. cbv zeta. solve_exits. Qed.

Lemma exits_check_devices S ssh name_width ip_width devices ok_count
    fail_count :
  exits_in S (check_devices env ssh name_width ip_width devices ok_count
                fail_count).
Proof.
  revert ok_count fail_count.
  induction devices as [|d rest IH]; intros ok_count fail_count;
    cbn [check_devices]; [apply exits_ret|].
  apply exits_bind.
  { unfold probe_with, ssh_test_connectivity, emit.
    destruct ssh; [|apply exits_raise].
    apply exits_bind; [by intros w code w'|intros; apply exits_ret]. }
  intros [reachable msg]. cbv zeta.
  apply exits_bind; [apply exits_print|intros _].
  destruct reachable; apply IH.
Qed.

Lemma exits_run_connectivity_checks ssh devices :
  exits_in zero_or_one (run_connectivity_checks env ssh devices).
Proof.
  unfold run_connectivity_checks, max_len.
  apply exits_bind; [apply exits_print|intros _].
  apply exits_bind; [destruct devices; solve_exits|intros name_width].
  apply exits_bind; [destruct devices; solve_exits|intros ip_width].
  apply exits_bind; [apply exits_check_devices|intros [ok_count fail_count]].
  solve_exits.
Qed.

Lemma exits_mapM {A B} S (f : A → M B) l :
  (∀ a, exits_in S (f a)) → exits_in S (mapM f l).
Proof. intros Hf. induction l as [|a l IH]; simpl; solve_exits; auto. Qed.

Lemma exits_deploy_all S args zabbix_token devices :
  exits_in S (deploy_all env args zabbix_token devices).
Proof.
  apply exits_total. intros w.
  destruct (deploy_all_total env args zabbix_token devices w)
    as (results & w' & H & _). eauto.
Qed.

Lemma exits_run_selected args zabbix_token devices :
  exits_in zero_or_one (run_selected env args zabbix_token devices).
Proof.
  unfold run_selected.
  apply exits_bind.
  { destruct (a_check args); [|apply exits_ret].
    apply exits_bind; [apply exits_run_connectivity_checks|intros _].
    apply exits_exit. by left. }
  intros _.
  unfold print_deployment_plan, print_summary_report, exit_on_failures,
    print_dry_run_device.
  cbv zeta.
  solve_exits;
    first [ apply exits_deploy_all
          | apply exits_mapM; intros; apply exits_print
          | by intros w code w' ].
Qed.

Lemma exits_prepare_from S cmdline :
  (∀ code, zero_or_one code → S code) →
  exits_in S (parse_args env cmdline) →
  exits_in S (prepare env cmdline).
Proof.
  intros HS Hparse. unfold prepare.
  apply exits_bind; [exact Hparse|intros args].
  eapply exits_weaken; [exact HS|].
  apply exits_bind; [apply exits_get_token|intros zabbix_token].
  apply exits_bind; [apply exits_check_prerequisites|intros _].
  apply exits_bind; [apply exits_load_inventory|intros devices].
  apply exits_bind; [apply exits_apply_filters|intros devices'].
  apply exits_bind; [apply exits_init|intros _].
  apply exits_ret.
Qed.

Lemma exits_main_from S cmdline :
  (∀ code, zero_or_one code → S code) →
  exits_in S (parse_args env cmdline) →
  exits_in S (main env cmdline).
Proof.
  intros HS Hparse. unfold main.
  apply exits_bind; [by apply exits_prepare_from|].
  intros [[args zabbix_token] devices].
  eapply exits_weaken; [exact HS|].
  apply exits_bind; [|intros ds; apply exits_run_selected].
  eapply exits_weaken; [apply zero_zero_or_one|apply apply_resume_retry_exits].
Qed.

Lemma exits_main (args : Args) : exits_in zero_or_one (main env args).
Proof. apply exits_main_from; [done|apply exits_parse_args]. Qed.

Lemma exits_main_any cmdline : exits_in up_to_two (main env cmdline).
Proof.
  apply exits_main_from; [|apply exits_parse_args_any].
  intros code [-> | ->]; [by left|by right; left].
Qed.

(** A filter that leaves no device ends the run with status 1. *)
Lemma apply_filters_cases args devices w :
  devices ≠ [] →
  (∃ w', apply_filters args devices w = (inl (SysExit 1), w'))
  ∨ (∃ ds, ds ≠ [] ∧ apply_filters args devices w = (inr ds, w)).
Proof.
  intros Hne. unfold apply_filters. unfold_monad.
  destruct (PyStr.nonempty (a_device args)); cbv zeta.
  - destruct (filter _ devices) as [|d ds] eqn:Hf; simpl; [by left; eauto|].
    destruct (PyStr.nonempty (a_platform args)); cbv zeta.
    + destruct (filter _ (d :: ds)) as [|d' ds'] eqn:Hf'; simpl.
      * left; eauto.
      * right. by exists (d' :: ds').
    + right. by exists (d :: ds).
  - simpl. destruct (PyStr.nonempty (a_platform args)); cbv zeta.
    + destruct (filter _ devices) as [|d' ds'] eqn:Hf'; simpl.
      * left; eauto.
      * right. by exists (d' :: ds').
    + right. by exists devices.
Qed.

Lemma exit_on_failures_run results w :
  exit_on_failures results w
  = (if existsb (λ r, negb (success r)) results
     then inl (SysExit 1) else inr (), w).
Proof. unfold exit_on_failures. by destruct (existsb _ results). Qed.

End ExitCodes.

Section Disposition.

Context (env : Env).

Lemma load_inventory_config_error args w :
  inventory_file env (a_inventory args) = None
  ∨ (∃ lines,
       inventory_file env (a_inventory args) = Some (lines, None)
       ∧ ((parse_inventory lines w).1 = inl (SysExit 1)
          ∨ (parse_inventory lines w).1 = inr [])) →
  (load_inventory env args w).1 = inl (SysExit 1).
Proof.
  unfold load_inventory. intros [-> | (lines & -> & Hparse)]; [done|].
  unfold read_inventory, mbind, M_bind.
  destruct (parse_inventory lines w) as [r w1]. simpl in Hparse.
  by destruct Hparse as [-> | ->].
Qed.

Lemma main_help help w : process_exit_code (main env (ArgHelp help) w) = 0.
Proof. reflexivity. Qed.

Lemma main_usage_error usage w :
  process_exit_code (main env (ArgError usage) w) = 2.
Proof. reflexivity. Qed.

Lemma main_zero_or_one (args : Args) w :
  zero_or_one (process_exit_code (main env args w)).
Proof.
  unfold process_exit_code.
  destruct (main env args w) as [[[e|code]|u] w'] eqn:Hmain; simpl.
  - by right.
  - by apply (exits_main env args w code w').
  - by left.
Qed.

(** C2, as the code has it. The exit status of the script is 0, 1 or 2.
    It is 2 exactly when the argument parser rejects the command line,
    before [main] does anything of its own. For a command line that is
    accepted it is 0 or 1: status 1 is what a configuration error gives
    (no inventory file, an inventory the parser rejects or finds no valid
    device in, a filter that matches no device) and also what a failed
    host gives at the end of the run; status 0 is what is left: every
    outcome a success, or step 5 ending the run because resume or
    retry-failed left no device, which it does with status 0 and never by
    handing on an empty list. *)
Theorem exit_status_classes cmdline w :
  up_to_two (process_exit_code (main env cmdline w))
  ∧ (process_exit_code (main env cmdline w) = 2
     ↔ ∃ usage, cmdline = ArgError usage)
  ∧ (∀ args : Args, zero_or_one (process_exit_code (main env args w)))
  ∧ (∀ args w0,
       inventory_file env (a_inventory args) = None
       ∨ (∃ lines,
            inventory_file env (a_inventory args) = Some (lines, None)
            ∧ ((parse_inventory lines w0).1 = inl (SysExit 1)
               ∨ (parse_inventory lines w0).1 = inr [])) →
       (load_inventory env args w0).1 = inl (SysExit 1))
  ∧ (∀ args devices w0,
       devices ≠ [] →
       (∃ w', apply_filters args devices w0 = (inl (SysExit 1), w'))
       ∨ (∃ ds, ds ≠ [] ∧ apply_filters args devices w0 = (inr ds, w0)))
  ∧ (∀ args devices,
       exits_in zero (apply_resume_retry args devices)
       ∧ ∀ w0 w', apply_resume_retry args devices w0 ≠ (inr [], w'))
  ∧ (∀ results w0,
       exit_on_failures results w0
       = (if existsb (λ r, negb (success r)) results
          then inl (SysExit 1) else inr (), w0)).
Proof.
  split_and!.
  - destruct cmdline as [help|usage|args].
    + rewrite main_help. by left.
    + rewrite main_usage_error. by right; right.
    + destruct (main_zero_or_one args w) as [-> | ->];
        [by left|by right; left].
  - destruct cmdline as [help|usage|args].
    + rewrite main_help. split; [done|by intros [? [=]]].
    + rewrite main_usage_error. split; [by eexists|done].
    + split; [|by intros [? [=]]].
      intros H. destruct (main_zero_or_one args w) as [H0 | H1]; congruence.
  - intros args. apply main_zero_or_one.
  - intros args w0. apply load_inventory_config_error.
  - intros args devices w0. apply apply_filters_cases.
  - intros args devices. split.
    + apply apply_resume_retry_exits.
    + intros w0 w'. apply apply_resume_retry_nonempty.
  - intros results w0. apply exit_on_failures_run.
Qed.

End Disposition.

Lemma exit_status_classes_witness :
  inventory_file Scenario.env_no_inventory (a_inventory Scenario.args_plain)
  = None
  ∧ (load_inventory Scenario.env_no_inventory Scenario.args_plain
       Scenario.fresh).1 = inl (SysExit 1)
  ∧ process_exit_code
      (main Scenario.env_ok (ArgError "usage: deploy-agents.py") Scenario.fresh)
    = 2.
Proof.
  assert (inventory_file Scenario.env_no_inventory
            (a_inventory Scenario.args_plain) = None) as Hinv by reflexivity.
  split; [exact Hinv|].
  destruct (exit_status_classes Scenario.env_no_inventory
              Scenario.args_plain Scenario.fresh)
    as (_ & _ & _ & Hconfig & _).
  split; [exact (Hconfig Scenario.args_plain Scenario.fresh (or_introl Hinv))|].
  apply (proj1 (proj2 (exit_status_classes Scenario.env_ok
                         (ArgError "usage: deploy-agents.py") Scenario.fresh))).
  by eexists.
Defined.

(** C2 as it is worded fails: a configuration error and a failed host end
    the process with the same status. Without inventory file [main] prints
    its error and exits with 1 before anything else happens; with the
    inventory of [rpi] and [mac], where the install on [mac] ends with
    status 2, [main] deploys to both, reports one failure, and exits with 1
    as well. *)
Lemma config_error_and_host_failure_share_status :
  let missing := main Scenario.env_no_inventory Scenario.args_plain
                   Scenario.world_rpi_succeeded in
  let failed := main Scenario.env_ok Scenario.args_plain
                  Scenario.world_rpi_succeeded in
  inventory_file Scenario.env_no_inventory "inventory.csv" = None
  ∧ events missing.2
    = [EvPrint "ERROR: Inventory file not found: inventory.csv"]
  ∧ last (events failed.2) = Some (EvPrint "Failed:           1")
  ∧ process_exit_code missing = 1
  ∧ process_exit_code failed = 1
  ∧ process_exit_code missing = process_exit_code failed.
Proof. cbv zeta. split_and!; vm_compute; reflexivity. Qed.

(* ===================================================================== *)
(** * Validation of host records                                          *)
(* ===================================================================== *)

Section Validation.

Lemma valid_platforms p :
  p ∈ VALID_PLATFORMS ↔ p = "raspberrypi" ∨ p = "radxa" ∨ p = "macos".
Proof.
  unfold VALID_PLATFORMS, INSTALL_SCRIPTS.
  rewrite !dom_insert_L, dom_empty_L.
  rewrite !elem_of_union, !elem_of_singleton, elem_of_empty. tauto.
Qed.

Lemma append_if_nil {A} (b : bool) (l : list A) (x : A) :
  (if b then l ++ [x] else l) = [] ↔ b = false ∧ l = [].
Proof.
  destruct b; split; try done.
  - intros H. by apply app_nil in H as [_ ?].
  - by intros [].
  - by intros [_ ?].
Qed.

Lemma validate_platform d : validate d = [] → platform d ∈ VALID_PLATFORMS.
Proof.
  unfold validate. cbv zeta. rewrite !append_if_nil, bool_decide_eq_false.
  intros (_ & _ & _ & _ & Hp & _). by apply dec_stable.
Qed.

(** A record passes [validate] exactly when its name, address, location
    and credentials are not empty and its platform is one of the three
    that have an install script. *)
Theorem validate_accepts d :
  validate d = [] ↔
  device_name d ≠ ""
  ∧ (platform d = "raspberrypi" ∨ platform d = "radxa" ∨ platform d = "macos")
  ∧ tailscale_ip d ≠ ""
  ∧ location d ≠ ""
  ∧ ssh_user d ≠ ""
  ∧ ssh_password d ≠ "".
Proof.
  unfold validate. cbv zeta.
  rewrite !append_if_nil, !negb_false_iff.
  rewrite bool_decide_eq_false, <- valid_platforms.
  assert (∀ s, PyStr.nonempty s = true ↔ s ≠ "") as Hne by (by intros []).
  rewrite !Hne. split.
  - intros (? & ? & ? & ? & ? & ? & _). split_and!; try done.
    by apply dec_stable.
  - intros (? & ? & ? & ? & ? & ?). split_and!; try done.
    by intros ?.
Qed.

(** A record that passed [validate] has an install script, named after
    its platform; [install_script] raises [KeyError] exactly on the
    platforms outside the table. *)
Theorem validated_device_has_script d :
  (validate d = [] →
   ∀ w, install_script d w
        = (inr ("install-zabbix-agent-" +:+ platform d +:+ ".sh"), w))
  ∧ (∀ w, (∃ e, (install_script d w).1 = inl (Raise e) ∧ exn_cls e = KeyError)
          ↔ platform d ∉ VALID_PLATFORMS).
Proof.
  split.
  - intros Hvalid w. apply validate_platform, valid_platforms in Hvalid.
    unfold install_script. by destruct Hvalid as [-> | [-> | ->]].
  - intros w. unfold install_script, VALID_PLATFORMS.
    rewrite not_elem_of_dom.
    destruct (INSTALL_SCRIPTS !! platform d) eqn:E; simpl; split.
    + by intros (e & [=] & _).
    + done.
    + done.
    + intros _. by eexists.
Qed.

End Validation.

Lemma validated_device_has_script_witness :
  validate Scenario.mac = []
  ∧ install_script Scenario.mac Scenario.fresh
    = (inr "install-zabbix-agent-macos.sh", Scenario.fresh).
Proof.
  assert (validate Scenario.mac = []) as Hvalid by (by vm_compute).
  split; [exact Hvalid|].
  exact (proj1 (validated_device_has_script Scenario.mac) Hvalid Scenario.fresh).
Defined.

(* ===================================================================== *)
(** * The inventory parser                                                *)
(* ===================================================================== *)

Section Inventory.

Lemma dict_set_ok k v (d : list (option string * cell)) :
  item_ok (k, v) → Forall item_ok d → Forall item_ok (dict_set k v d).
Proof.
  intros Hkv. induction d as [|[k' v'] d IH]; intros Hd; simpl.
  - by apply Forall_singleton.
  - apply Forall_cons in Hd as [Hkv' Hd].
    case_decide; apply Forall_cons; auto.
Qed.

Lemma dict_set_fresh {V} (v : V) (d : list (option string * V)) :
  Forall (λ kv, ∃ k, kv.1 = Some k) d → dict_set None v d = d ++ [(None, v)].
Proof.
  induction d as [|[k' v'] d IH]; intros Hd; simpl; [done|].
  apply Forall_cons in Hd as [[k Hk] Hd]. simpl in Hk. subst k'.
  case_decide; [done|]. by rewrite IH.
Qed.

Lemma foldl_dict_set_ok (pairs : list (option string * cell)) d :
  Forall item_ok pairs → Forall item_ok d →
  Forall item_ok (foldl (λ d kv, dict_set kv.1 kv.2 d) d pairs).
Proof.
  revert d. induction pairs as [|[k v] pairs IH]; intros d Hp Hd; [done|].
  apply Forall_cons in Hp as [Hkv Hp]. simpl.
  apply IH; [done|]. by apply dict_set_ok.
Qed.

Lemma zip_cells_ok (fieldnames row : list string) :
  Forall item_ok (zip (map Some fieldnames) (map CStr row)).
Proof.
  revert row. induction fieldnames as [|f fs IH]; intros [|c row]; simpl;
    try by constructor.
  apply Forall_cons. split; [|apply IH].
  split; [by eexists|left; by eexists].
Qed.

Lemma foldl_restval_ok (keys : list string) d :
  Forall item_ok d →
  Forall item_ok (foldl (λ d key, dict_set (Some key) CNone d) d keys).
Proof.
  revert d. induction keys as [|k keys IH]; intros d Hd; [done|].
  simpl. apply IH, dict_set_ok; [|done]. split; [by eexists|by right].
Qed.

Lemma dict_of_cells_ok (fieldnames row : list string) :
  Forall item_ok (dict_of (zip (map Some fieldnames) (map CStr row))).
Proof.
  unfold dict_of. apply foldl_dict_set_ok; [apply zip_cells_ok|constructor].
Qed.

(** A row that fits the header is normalized without error. *)
Lemma normalize_items_ok items acc :
  Forall item_ok items → ∃ row, normalize_items items acc = inr row.
Proof.
  revert acc. induction items as [|[k v] items IH]; intros acc Hi; [by eexists|].
  apply Forall_cons in Hi as [[[k' Hk] Hv] Hi]. simpl in *. subst k.
  unfold normalize_item. simpl.
  destruct Hv as [[s ->] | ->]; apply IH, Hi.
Qed.

Lemma normalize_items_fail items bad rest acc e :
  Forall item_ok items → normalize_item bad = inl e →
  normalize_items (items ++ bad :: rest) acc = inl e.
Proof.
  intros Hi Hbad. revert acc.
  induction items as [|[k v] items IH]; intros acc; simpl.
  - by rewrite Hbad.
  - apply Forall_cons in Hi as [[[k' Hk] Hv] Hi]. simpl in *. subst k.
    unfold normalize_item at 1. simpl.
    destruct Hv as [[s ->] | ->]; by apply IH.
Qed.

Lemma normalize_row_fits fieldnames cells :
  (length cells ≤ length fieldnames)%nat →
  ∃ row, normalize_items (dictreader_row fieldnames cells) [] = inr row.
Proof.
  intros Hlen. apply normalize_items_ok. unfold dictreader_row. cbv zeta.
  destruct (Nat.ltb_spec (length fieldnames) (length cells)); [lia|].
  apply foldl_restval_ok, dict_of_cells_ok.
Qed.

Lemma normalize_row_too_long fieldnames cells :
  (length fieldnames < length cells)%nat →
  normalize_items (dictreader_row fieldnames cells) [] = inl none_has_no_strip.
Proof.
  intros Hlen. unfold dictreader_row. cbv zeta.
  destruct (Nat.ltb_spec (length fieldnames) (length cells)); [|lia].
  rewrite dict_set_fresh.
  - by apply normalize_items_fail; [apply dict_of_cells_ok|].
  - eapply Forall_impl; [apply dict_of_cells_ok|]. by intros kv [? _].
Qed.

End Inventory.

Section Normalization.

Import PyStr.

Lemma isspace_lower c : isspace (lower_char c) = isspace c.
Proof. by destruct c as [[] [] [] [] [] [] [] []]. Qed.

Lemma lower_char_idem c : lower_char (lower_char c) = lower_char c.
Proof. by destruct c as [[] [] [] [] [] [] [] []]. Qed.

Lemma lstrip_chars_lower l :
  lstrip_chars (map lower_char l) = map lower_char (lstrip_chars l).
Proof.
  induction l as [|c l IH]; [done|]. simpl. rewrite isspace_lower.
  by destruct (isspace c).
Qed.

Lemma strip_lower s : strip (str_lower s) = str_lower (strip s).
Proof.
  unfold strip, str_lower, strip_chars. rewrite !chars_str.
  by rewrite lstrip_chars_lower, <- List.map_rev, lstrip_chars_lower,
    List.map_rev.
Qed.

Lemma str_lower_idem s : str_lower (str_lower s) = str_lower s.
Proof.
  unfold str_lower. rewrite chars_str, List.map_map. f_equal.
  apply List.map_ext. apply lower_char_idem.
Qed.

Lemma lstrip_chars_head l :
  match lstrip_chars l with [] => True | c :: _ => isspace c = false end.
Proof.
  induction l as [|c l IH]; [done|]. simpl.
  by destruct (isspace c) eqn:E.
Qed.

Lemma lstrip_chars_fix l :
  match l with [] => True | c :: _ => isspace c = false end →
  lstrip_chars l = l.
Proof. destruct l as [|c l]; [done|]. simpl. by intros ->. Qed.

Lemma lstrip_chars_suffix l : ∃ p, l = p ++ lstrip_chars l.
Proof.
  induction l as [|c l [p IH]]; [by exists []|]. simpl.
  destruct (isspace c); [|by exists []].
  exists (c :: p). simpl. by f_equal.
Qed.

Lemma strip_chars_idem l : strip_chars (strip_chars l) = strip_chars l.
Proof.
  unfold strip_chars.
  pose proof (lstrip_chars_head l) as Hhead.
  set (s1 := lstrip_chars l) in *.
  pose proof (lstrip_chars_head (rev s1)) as Hhead'.
  destruct (lstrip_chars_suffix (rev s1)) as [p Hp].
  set (t := lstrip_chars (rev s1)) in *.
  assert (lstrip_chars (rev t) = rev t) as ->.
  { apply lstrip_chars_fix.
    assert (s1 = rev t ++ rev p) as Hs1.
    { by rewrite <- rev_app_distr, <- Hp, rev_involutive. }
    destruct (rev t) as [|c t']; [done|].
    by rewrite Hs1 in Hhead. }
  rewrite rev_involutive. f_equal. by apply lstrip_chars_fix.
Qed.

Lemma strip_idem s : stripped (strip s).
Proof.
  unfold stripped, strip. by rewrite chars_str, strip_chars_idem.
Qed.

Lemma dict_set_Forall {K V} `{EqDecision K} (P : K * V → Prop) k v d :
  P (k, v) → Forall P d → Forall P (dict_set k v d).
Proof.
  intros Hkv. induction d as [|[k' v'] d IH]; intros Hd; simpl.
  - by apply Forall_singleton.
  - apply Forall_cons in Hd as [Hkv' Hd].
    case_decide; apply Forall_cons; auto.
Qed.

Lemma normalize_items_stripped items acc row :
  Forall (λ kv, stripped kv.2) acc →
  normalize_items items acc = inr row →
  Forall (λ kv, stripped kv.2) row.
Proof.
  revert acc. induction items as [|[k v] items IH]; intros acc Hacc; simpl.
  - by intros [= <-].
  - destruct (normalize_item (k, v)) as [e|[k' v']] eqn:Hitem; [done|].
    apply IH, dict_set_Forall; [|done]. simpl.
    unfold normalize_item in Hitem. simpl in Hitem.
    destruct k as [k|]; [|done].
    destruct v as [s| |[|c cs]]; try done; injection Hitem as <- <-;
      try done.
    destruct (nonempty s); [apply strip_idem|done].
Qed.

Lemma row_get_stripped name row :
  Forall (λ kv, stripped kv.2) row → stripped (row_get name row).
Proof.
  unfold row_get. induction row as [|[k v] row IH]; intros Hrow; [done|].
  apply Forall_cons in Hrow as [Hv Hrow]. simpl.
  case_decide; [done|by apply IH].
Qed.

Lemma device_of_row_normalized row :
  Forall (λ kv, stripped kv.2) row → normalized (device_of_row row).
Proof.
  intros Hrow. unfold normalized, device_of_row. simpl.
  split_and!; try by apply row_get_stripped.
  - unfold stripped. rewrite strip_lower. f_equal.
    by apply row_get_stripped.
  - apply str_lower_idem.
Qed.

End Normalization.

Section ParseRows.

Context (fieldnames : list string).

Lemma parse_rows_post_skip row rows acc tr r :
  (length row ≤ length fieldnames)%nat →
  parse_rows_post fieldnames rows acc tr r →
  parse_rows_post fieldnames (row :: rows) acc tr r.
Proof.
  intros Hfit [Htr Hr]. split; [done|].
  destruct r as [[e|code]|devices]; [|done|].
  - destruct Hr as [-> Hex]. split; [done|]. by apply Exists_cons_tl.
  - destruct Hr as (Hfits & admitted & -> & Hvalid & Hlen).
    split; [by apply Forall_cons|].
    exists admitted. split_and!; [done|done|simpl; lia].
Qed.

Lemma parse_rows_traced rows row_num acc :
  traced (parse_rows fieldnames rows row_num acc)
         (parse_rows_post fieldnames rows acc).
Proof.
  revert row_num acc. induction rows as [|row rows IH]; intros row_num acc.
  - eapply traced_weaken; [apply traced_ret|].
    intros tr r [-> ->]. split; [constructor|]. split; [constructor|].
    exists []. by rewrite app_nil_r.
  - destruct row as [|c cs].
    { eapply traced_weaken; [apply (IH row_num acc)|].
      intros tr r. apply parse_rows_post_skip. simpl. lia. }
    cbn [parse_rows]. set (cells := c :: cs).
    destruct (decide (length fieldnames < length cells)%nat) as [Hlong|Hfit].
    + rewrite (normalize_row_too_long _ _ Hlong).
      eapply traced_weaken; [apply traced_reraise|].
      intros tr r [-> ->]. split; [constructor|].
      split; [done|]. by apply Exists_cons_hd.
    + assert (length cells ≤ length fieldnames)%nat as Hle by lia.
      destruct (normalize_row_fits _ _ Hle) as [row Hrow].
      pose proof (normalize_items_stripped _ _ _ (Forall_nil_2 _) Hrow)
        as Hstripped.
      rewrite Hrow.
      destruct (PyStr.nonempty (row_get "device_name" row)); simpl.
      * cbv zeta. destruct (validate (device_of_row row)) as [|err errs] eqn:Hv.
        -- eapply traced_weaken; [apply (IH (S row_num))|].
           intros tr r [Htr Hr]. split; [done|].
           destruct r as [[e|code]|devices]; [|done|].
           ++ destruct Hr as [-> Hex]. split; [done|]. by apply Exists_cons_tl.
           ++ destruct Hr as (Hfits & admitted & -> & Hvalid & Hlen).
              split; [by apply Forall_cons|].
              exists (device_of_row row :: admitted).
              rewrite <- app_assoc. split_and!; [done| |simpl; lia].
              apply Forall_cons. split; [|done].
              split; [done|by apply device_of_row_normalized].
        -- eapply traced_weaken;
             [exact (traced_bind _ _ _ _ (traced_emit _)
                       (λ _, IH (S row_num) acc))|].
           intros tr r [(e & -> & _ & [=])
                       | (u & tr1 & tr2 & -> & [-> _] & Hpost)].
           apply (parse_rows_post_skip cells) in Hpost; [|done].
           destruct Hpost as [Htr Hr]. split; [|done].
           apply Forall_cons. split; [by eexists|done].
      * eapply traced_weaken; [apply (IH (S row_num) acc)|].
        intros tr r. by apply parse_rows_post_skip.
Qed.

End ParseRows.

Section ParseInventory.

Lemma missing_columns_nil fieldnames :
  missing_columns fieldnames = [] ↔ header_ok fieldnames.
Proof.
  unfold missing_columns, header_ok. split.
  - intros Hnil c Hc.
    destruct (decide (c ∈ map (λ f, str_lower (PyStr.strip f)) fieldnames))
      as [Hin|Hnot].
    + apply list_elem_of_In, in_map_iff in Hin as (f & <- & Hf).
      exists f. split; [by apply list_elem_of_In|done].
    + by destruct (filter_nil_not_elem_of _ _ c Hnil Hnot).
  - intros Hok.
    destruct (filter _ required_columns) as [|c l] eqn:Hf; [done|].
    assert (c ∈ filter (λ c, c ∉ map (λ f, str_lower (PyStr.strip f))
                               fieldnames) required_columns) as Hc
      by (rewrite Hf; left).
    apply list_elem_of_filter in Hc as [Hnot Hc].
    destruct (Hok c Hc) as (f & Hin & <-).
    destruct Hnot. apply list_elem_of_In, in_map_iff.
    exists f. split; [done|by apply list_elem_of_In].
Qed.

(** What [parse_inventory] does, by the kind of its outcome. *)
Lemma parse_inventory_cases lines w :
  same_store w (parse_inventory lines w).2
  ∧ Forall is_print (new_events w (parse_inventory lines w).2)
  ∧ match (parse_inventory lines w).1 with
    | inr devices =>
        (∃ fieldnames rows,
           lines = fieldnames :: rows ∧ header_ok fieldnames
           ∧ Forall (λ row, (length row ≤ length fieldnames)%nat) rows)
        ∧ Forall (λ d, validate d = [] ∧ normalized d) devices
        ∧ (length devices ≤ length (tail lines))%nat
    | inl (SysExit code) =>
        code = 1
        ∧ (lines = [] ∨ ∃ fieldnames rows,
                          lines = fieldnames :: rows ∧ ¬ header_ok fieldnames)
    | inl (Raise e) =>
        e = none_has_no_strip
        ∧ ∃ fieldnames rows,
            lines = fieldnames :: rows ∧ header_ok fieldnames
            ∧ Exists (λ row, (length fieldnames < length row)%nat) rows
    end.
Proof.
  unfold parse_inventory. destruct lines as [|fieldnames rows].
  - split_and!; [done| |].
    + unfold new_events. simpl. rewrite drop_app_length.
      apply Forall_singleton. by eexists.
    + simpl. split; [done|by left].
  - destruct (missing_columns fieldnames) as [|c l] eqn:Hmiss.
    + apply missing_columns_nil in Hmiss.
      destruct (parse_rows_traced fieldnames rows 2 [] w)
        as (Hstore & tr & Htr & Hprint & Hpost).
      split_and!; [done|by rewrite (new_events_app _ _ _ Htr)|].
      destruct (parse_rows fieldnames rows 2 [] w) as [[[e|code]|devices] w'];
        simpl in *.
      * destruct Hpost as [-> Hex]. split; [done|]. by exists fieldnames, rows.
      * done.
      * destruct Hpost as (Hfits & admitted & -> & Hvalid & Hlen).
        split_and!; [by exists fieldnames, rows|done|done].
    + assert (¬ header_ok fieldnames) as Hbad.
      { intros Hok. apply missing_columns_nil in Hok. congruence. }
      split_and!; [done| |].
      * unfold new_events. simpl. rewrite <- app_assoc, drop_app_length.
        apply Forall_cons. split; [by eexists|].
        apply Forall_singleton. by eexists.
      * simpl. split; [done|]. right. by exists fieldnames, rows.
Qed.

(** [parse_inventory] hands over only records that pass [validate], at
    most one per row, and does nothing but print. *)
Theorem parse_inventory_admits_valid_only lines w devices w' :
  parse_inventory lines w = (inr devices, w') →
  Forall (λ d, validate d = []) devices
  ∧ (length devices ≤ length (tail lines))%nat
  ∧ same_store w w'
  ∧ Forall is_print (new_events w w').
Proof.
  intros Hrun.
  destruct (parse_inventory_cases lines w) as (Hstore & Hprint & Hpost).
  rewrite Hrun in Hstore, Hprint, Hpost. simpl in *.
  destruct Hpost as (_ & Hall & ?). split_and!; try done.
  eapply Forall_impl; [exact Hall|]. by intros d [? _].
Qed.

(** Every record [parse_inventory] hands over is normalized: no field has
    white space at either end, and the platform is in lower case. *)
Theorem parse_inventory_normalizes lines w devices w' :
  parse_inventory lines w = (inr devices, w') →
  Forall normalized devices.
Proof.
  intros Hrun.
  destruct (parse_inventory_cases lines w) as (_ & _ & Hpost).
  rewrite Hrun in Hpost. simpl in Hpost.
  destruct Hpost as (_ & Hall & _).
  eapply Forall_impl; [exact Hall|]. by intros d [_ ?].
Qed.

(** [parse_inventory] ends the process exactly when the file has no
    header row or the header lacks a required column (names compared
    without case and surrounding white space), and then with status 1. *)
Theorem parse_inventory_rejects_header lines w :
  ((∃ code, (parse_inventory lines w).1 = inl (SysExit code))
   ↔ lines = [] ∨ ∃ fieldnames rows,
                     lines = fieldnames :: rows ∧ ¬ header_ok fieldnames)
  ∧ (∀ code, (parse_inventory lines w).1 = inl (SysExit code) → code = 1).
Proof.
  destruct (parse_inventory_cases lines w) as (_ & _ & Hpost).
  split; [split|].
  - intros [code Hcode]. rewrite Hcode in Hpost. by destruct Hpost.
  - intros Hbad.
    destruct (parse_inventory lines w).1 as [[e|code]|devices]; [| by eexists |].
    + destruct Hpost as (_ & fieldnames & rows & -> & Hok & _).
      by destruct Hbad as [|(f & r & [= <- <-] & Hbad)].
    + destruct Hpost as ((fieldnames & rows & -> & Hok & _) & _).
      by destruct Hbad as [|(f & r & [= <- <-] & Hbad)].
  - intros code Hcode. rewrite Hcode in Hpost. by destruct Hpost.
Qed.

(** Under a header that names every required column, [parse_inventory]
    returns when no row has more cells than the header has columns, and
    otherwise raises [AttributeError]: the surplus cells sit under the key
    [None], which has no [strip]. *)
Theorem parse_inventory_row_too_long fieldnames rows w :
  header_ok fieldnames →
  (Forall (λ row, (length row ≤ length fieldnames)%nat) rows →
   ∃ devices, (parse_inventory (fieldnames :: rows) w).1 = inr devices)
  ∧ (Exists (λ row, (length fieldnames < length row)%nat) rows →
     (parse_inventory (fieldnames :: rows) w).1
     = inl (Raise none_has_no_strip)).
Proof.
  intros Hok.
  destruct (parse_inventory_cases (fieldnames :: rows) w) as (_ & _ & Hpost).
  destruct (parse_inventory (fieldnames :: rows) w).1 as [[e|code]|devices].
  - destruct Hpost as (-> & f & r & [= <- <-] & _ & Hex). split; [|done].
    intros Hfits. apply Exists_exists in Hex as (row & Hrow & Hlong).
    rewrite Forall_forall in Hfits. specialize (Hfits row Hrow). lia.
  - destruct Hpost as [_ [|(f & r & [= <- <-] & Hbad)]]; done.
  - destruct Hpost as ((f & r & [= <- <-] & _ & Hfits) & _).
    split; [by eexists|].
    intros Hex. apply Exists_exists in Hex as (row & Hrow & Hlong).
    rewrite Forall_forall in Hfits. specialize (Hfits row Hrow). lia.
Qed.

End ParseInventory.

Lemma sample_header_ok : header_ok Sample.header.
Proof. apply missing_columns_nil. by vm_compute. Qed.

Lemma parse_inventory_admits_valid_only_witness :
  let run := parse_inventory Sample.lines Scenario.fresh in
  run = (inr [Scenario.rpi; Scenario.mac], run.2)
  ∧ Forall (λ d, validate d = []) [Scenario.rpi; Scenario.mac].
Proof.
  intros run.
  assert (run = (inr [Scenario.rpi; Scenario.mac], run.2)) as Hrun
    by (apply run_eq; vm_compute; reflexivity).
  split; [exact Hrun|].
  exact (proj1 (parse_inventory_admits_valid_only Sample.lines Scenario.fresh
                  [Scenario.rpi; Scenario.mac] run.2 Hrun)).
Defined.

Lemma parse_inventory_rejects_header_witness :
  (parse_inventory [["device_name"; "platform"]] Scenario.fresh).1
  = inl (SysExit 1)
  ∧ 1 = 1.
Proof.
  assert ((parse_inventory [["device_name"; "platform"]] Scenario.fresh).1
          = inl (SysExit 1)) as Hrun by (vm_compute; reflexivity).
  split; [exact Hrun|].
  exact (proj2 (parse_inventory_rejects_header
                  [["device_name"; "platform"]] Scenario.fresh) 1 Hrun).
Defined.

Lemma parse_inventory_row_too_long_witness :
  header_ok Sample.header
  ∧ (parse_inventory Sample.lines_long Scenario.fresh).1
    = inl (Raise none_has_no_strip).
Proof.
  split; [exact sample_header_ok|].
  apply (proj2 (parse_inventory_row_too_long Sample.header
                  (Sample.rows ++ [["x"; "macos"; "ip"; "loc"; "u"; "p"; "c";
                                    "a"; "1"; "2"; "n"; "surplus"]])
                  Scenario.fresh sample_header_ok)).
  apply Exists_app. right. apply Exists_cons_hd. vm_compute. lia.
Defined.

Lemma parse_inventory_normalizes_witness :
  let run := parse_inventory Sample.lines Scenario.fresh in
  run = (inr [Scenario.rpi; Scenario.mac], run.2)
  ∧ Forall normalized [Scenario.rpi; Scenario.mac].
Proof.
  intros run.
  assert (run = (inr [Scenario.rpi; Scenario.mac], run.2)) as Hrun
    by (apply run_eq; vm_compute; reflexivity).
  split; [exact Hrun|].
  exact (parse_inventory_normalizes Sample.lines Scenario.fresh
           [Scenario.rpi; Scenario.mac] run.2 Hrun).
Defined.

(* ===================================================================== *)
(** * The steps of one deployment                                         *)
(* ===================================================================== *)

Section TracedSteps.

Lemma traced_after_time {B} (f : Z → M B) Q :
  (∀ t, traced (f t) Q) → traced (time_time ≫= f) Q.
Proof.
  intros Hf w. unfold mbind, M_bind, time_time.
  destruct (clock w) as [|t rest].
  - exact (Hf 0 w).
  - exact (Hf t (set_clock rest w)).
Qed.

Lemma traced_after_ret {A B} (a : A) (f : A → M B) Q :
  traced (f a) Q → traced (mret a ≫= f) Q.
Proof. intros Hf w. exact (Hf w). Qed.

(** [c] adds [tr1] and hands [a] on. *)
Lemma traced_then {A B} (c : M A) (f : A → M B) tr1 a
    (P : list event → ctl + B → Prop) :
  traced c (λ tr r, tr = tr1 ∧ r = inr a) →
  traced (f a) (λ tr2 r, P (tr1 ++ tr2) r) →
  traced (c ≫= f) P.
Proof.
  intros Hc Hf w. unfold mbind, M_bind.
  destruct (Hc w) as (Hs & tr & Hev & -> & Hr).
  destruct (c w) as [r1 w1]. simpl in *. subst r1.
  destruct (Hf w1) as (Hs2 & tr2 & Hev2 & HQ).
  split; [by eapply same_store_trans|].
  exists (tr1 ++ tr2). by rewrite Hev2, Hev, app_assoc.
Qed.

(** [c] adds [tr1] and fails. *)
Lemma traced_fails {A B} (c : M A) (f : A → M B) tr1 e
    (P : list event → ctl + B → Prop) :
  traced c (λ tr r, tr = tr1 ∧ r = inl e) →
  P tr1 (inl e) →
  traced (c ≫= f) P.
Proof.
  intros Hc HP w. unfold mbind, M_bind.
  destruct (Hc w) as (Hs & tr & Hev & -> & Hr).
  destruct (c w) as [r1 w1]. simpl in *. subst r1.
  split; [done|]. by exists tr1.
Qed.

End TracedSteps.

Section DeployPath.

Context (env : Env) (device : Device).
Context (zabbix_token scripts_dir log_dir : string).

Lemma ends_with_log_traced code out err outcome start_time :
  traced (now ← time_time;
          write_log env (device_log device log_dir) device code out err;;
          mret (outcome (now - start_time)))
         (ends_with_log env device log_dir code out err outcome).
Proof.
  apply traced_after_time. intros now.
  unfold write_log, ends_with_log.
  destruct (log_write_fault env (device_log device log_dir)) as [e|].
  - by eapply traced_fails; [apply traced_reraise|].
  - eapply traced_then; [apply traced_emit|].
    eapply traced_weaken; [apply traced_ret|].
    intros tr r [-> ->]. split; [done|]. by eexists.
Qed.

Lemma conclude_path start_time result :
  traced (conclude env device start_time (device_log device log_dir) result)
         (ends_with_log env device log_dir (returncode result) (stdout result)
            (stderr result) (outcome_of device log_dir result)).
Proof.
  unfold conclude, outcome_of.
  destruct (returncode result =? 0).
  - exact (ends_with_log_traced (returncode result) (stdout result)
             (stderr result)
             (λ duration, mkResult (device_name device) true duration ""
                            (device_log device log_dir))
             start_time).
  - exact (ends_with_log_traced (returncode result) (stdout result)
             (stderr result)
             (failed_with device log_dir (execute_error_message (stderr result)))
             start_time).
Qed.

Lemma cleanup_traced :
  traced (try_except (ssh_ssh_run env device cleanup_command 10;; mret ())
                     (λ _, mret ()))
         (λ tr r, tr = cleanup_events env device ∧ r = inr ()).
Proof.
  unfold ssh_ssh_run, cleanup_events.
  destruct (ssh_run env device cleanup_command 10) as [e|cp].
  - intros w. split; [apply same_store_refl|].
    exists []. by rewrite app_nil_r.
  - intros w. split; [by unfold same_store|]. by eexists.
Qed.

Lemma probe_traced :
  traced (ssh_test_connectivity env device)
         (λ tr r, tr = [EvProbe (device_name device)]
                  ∧ r = inr (test_connectivity env device)).
Proof. intros w. split; [by unfold same_store|]. by eexists. Qed.

Lemma scp_traced local_path remote_path :
  traced (ssh_scp_file env device local_path remote_path)
         (λ tr r, tr = [EvScp (device_name device) local_path remote_path]
                  ∧ r = match scp_file env device local_path remote_path with
                        | inl e => inl (Raise e)
                        | inr cp => inr cp
                        end).
Proof.
  intros w. unfold ssh_scp_file. unfold_monad.
  split; [by destruct (scp_file env device local_path remote_path)|].
  eexists. by destruct (scp_file env device local_path remote_path).
Qed.

Lemma run_traced command timeout :
  traced (ssh_ssh_run env device command timeout)
         (λ tr r, match ssh_run env device command timeout with
                  | inl e => tr = [] ∧ r = inl (Raise e)
                  | inr cp =>
                      tr = [EvSshRun (device_name device) command timeout cp]
                      ∧ r = inr cp
                  end).
Proof.
  intros w. unfold ssh_ssh_run. unfold_monad.
  destruct (ssh_run env device command timeout) as [e|cp].
  - split; [apply same_store_refl|]. exists []. by rewrite app_nil_r.
  - split; [by unfold same_store|]. by eexists.
Qed.

(** One run of [deploy_device], path by path. *)
Lemma deploy_device_path use_github :
  traced (deploy_device env device zabbix_token scripts_dir log_dir use_github)
         (deploy_path env device zabbix_token scripts_dir log_dir use_github).
Proof.
  unfold deploy_device, deploy_path.
  apply traced_after_time. intros start_time. cbv zeta.
  eapply traced_then; [apply probe_traced|].
  eapply traced_weaken;
    [|intros tr r H; exists tr; split; [reflexivity|exact H]].
  destruct (test_connectivity env device) as [[] msg]; simpl.
  - unfold install_script, github_command, local_command, cleanup_command.
    destruct (INSTALL_SCRIPTS !! platform device) as [script|];
      [|by destruct use_github; (eapply traced_fails; [apply traced_raise|])].
    destruct use_github; apply traced_after_ret; cbv zeta.
    + pose proof (run_traced
                    ("curl -fsSL "
                     +:+ shlex_quote (GITHUB_RAW_BASE +:+ "/" +:+ script)
                     +:+ " | " +:+ sudo_line device zabbix_token " bash")
                    600) as Hrun.
      destruct (ssh_run env device _ 600) as [e|result].
      * by eapply traced_fails; [exact Hrun|].
      * eapply traced_then; [exact Hrun|].
        eapply traced_weaken; [apply conclude_path|].
        intros tr r H. by exists tr.
    + destruct (path_exists env (os_path_join scripts_dir script)); simpl.
      * pose proof (scp_traced (os_path_join scripts_dir script) remote_script)
          as Hscp.
        destruct (scp_file env device _ remote_script) as [e|scp_result].
        { eapply traced_fails; [exact Hscp|]. by exists []. }
        eapply traced_then; [exact Hscp|].
        eapply traced_weaken;
          [|intros tr r H; exists tr; split; [reflexivity|exact H]].
        destruct (returncode scp_result =? 0); simpl.
        -- pose proof (run_traced
                         (sudo_line device zabbix_token
                            (" bash " +:+ remote_script)) 600) as Hrun.
           destruct (ssh_run env device _ 600) as [e|result].
           ++ by eapply traced_fails; [exact Hrun|].
           ++ eapply traced_then; [exact Hrun|].
              eapply traced_then; [apply cleanup_traced|].
              eapply traced_weaken; [apply conclude_path|].
              intros tr r H. by exists tr.
        -- exact (ends_with_log_traced (returncode scp_result)
                    (stdout scp_result)
                    ("SCP failed: " +:+ PyStr.strip (stderr scp_result))
                    (failed_with device log_dir
                       ("SCP failed: " +:+ PyStr.strip (stderr scp_result)))
                    start_time).
      * exact (ends_with_log_traced 1 ""
                 ("Local script not found: " +:+ os_path_join scripts_dir script)
                 (failed_with device log_dir
                    ("Local script not found: "
                     +:+ os_path_join scripts_dir script))
                 start_time).
  - exact (ends_with_log_traced 1 "" msg (failed_with device log_dir msg)
             start_time).
Qed.

End DeployPath.

(** Take a run of [deploy_device] apart, path by path. *)
Ltac path_cases H :=
  unfold deploy_path, ends_with_log, cleanup_events in H;
  repeat match type of H with
         | ∃ _, _ => destruct H as [? H]
         | _ ∧ _ => destruct H as [? H]
         | match ?x with _ => _ end => revert H; destruct x eqn:?; intros H
         end;
  simplify_eq/=.

Section DeploySteps.

Context (env : Env) (device : Device).
Context (zabbix_token scripts_dir log_dir : string).

Lemma deploy_device_run use_github w :
  let run := deploy_device env device zabbix_token scripts_dir log_dir
               use_github w in
  same_store w run.2
  ∧ deploy_path env device zabbix_token scripts_dir log_dir use_github
      (new_events w run.2) run.1.
Proof.
  cbv zeta.
  destruct (deploy_device_path env device zabbix_token scripts_dir log_dir
              use_github w) as (Hs & tr & Hev & Hp).
  by rewrite (new_events_app _ _ _ Hev).
Qed.

Lemma in_order_step lo ev s tr :
  step_of device ev = Some s → (lo < step_rank s)%nat →
  in_order device (step_rank s) tr → in_order device lo (ev :: tr).
Proof. intros Hs Hlo Htr. simpl. by rewrite Hs. Qed.

Lemma step_of_probe : step_of device (EvProbe (device_name device)) = Some Probe.
Proof. simpl. by rewrite bool_decide_eq_true_2. Qed.

Lemma step_of_scp l r :
  step_of device (EvScp (device_name device) l r) = Some Push.
Proof. simpl. by rewrite bool_decide_eq_true_2. Qed.

Lemma step_of_execute command cp :
  step_of device (EvSshRun (device_name device) command 600 cp) = Some Execute.
Proof. simpl. by rewrite bool_decide_eq_true_2. Qed.

Lemma step_of_cleanup command cp :
  step_of device (EvSshRun (device_name device) command 10 cp) = Some Cleanup.
Proof. simpl. by rewrite bool_decide_eq_true_2. Qed.

(** Set up the case analysis of one run: its trace [tr], its outcome [r]
    and the path [H] they took. *)
Ltac deploy_run use_github w tr r H :=
  cbv zeta;
  destruct (deploy_device_run use_github w) as [_ H]; revert H;
  generalize (new_events w (deploy_device env device zabbix_token scripts_dir
                              log_dir use_github w).2)
             (deploy_device env device zabbix_token scripts_dir
                log_dir use_github w).1;
  intros tr r H.

(** [deploy_device] takes its steps in the order probe, copy, install,
    removal, log, the probe first, and takes none of them twice: nothing
    is retried. Its trace holds nothing else, no write of the state file
    and no line on the terminal. *)
Theorem deploy_steps_in_order use_github w :
  let run := deploy_device env device zabbix_token scripts_dir log_dir
               use_github w in
  in_order device 0 (new_events w run.2)
  ∧ ∃ rest, new_events w run.2 = EvProbe (device_name device) :: rest.
Proof.
  deploy_run use_github w tr r H. path_cases H.
  all: split; [|by eexists].
  all: repeat (rewrite bool_decide_eq_true_2 by done); simpl.
  all: try destruct (ssh_run env device cleanup_command 10); simpl.
  all: repeat (rewrite bool_decide_eq_true_2 by done); simpl.
  all: repeat split; lia.
Qed.

(** A host the probe finds unreachable is left alone: nothing is copied
    to it and no command is sent. The outcome is a failure whose message
    is the diagnostic of the probe, and the log file holds exit code 1 and
    that diagnostic; if the log file cannot be written, the exception of
    that is what [deploy_device] raises. *)
Theorem unreachable_host_is_left_alone use_github w msg :
  test_connectivity env device = (false, msg) →
  let run := deploy_device env device zabbix_token scripts_dir log_dir
               use_github w in
  match log_write_fault env (device_log device log_dir) with
  | None =>
      new_events w run.2
      = [EvProbe (device_name device);
         EvLog (device_log device log_dir) 1 (or_empty "") (or_empty msg)]
      ∧ ∃ duration,
          run.1 = inr (mkResult (device_name device) false duration msg
                         (device_log device log_dir))
  | Some e =>
      new_events w run.2 = [EvProbe (device_name device)]
      ∧ run.1 = inl (Raise e)
  end.
Proof.
  intros Hprobe. deploy_run use_github w tr r H. path_cases H.
  all: try done.
  by split; [|eexists].
Qed.

(** In local mode the install command is sent only to a host that
    answered the probe, and only after the install script of its platform
    was found on disk and copied to the host by a copy that returned exit
    code 0. *)
Theorem install_runs_only_after_push w ev :
  let run := deploy_device env device zabbix_token scripts_dir log_dir
               false w in
  ev ∈ new_events w run.2 →
  step_of device ev = Some Execute →
  (test_connectivity env device).1 = true
  ∧ ∃ script scp_result,
      INSTALL_SCRIPTS !! platform device = Some script
      ∧ path_exists env (os_path_join scripts_dir script) = true
      ∧ scp_file env device (os_path_join scripts_dir script) remote_script
        = inr scp_result
      ∧ returncode scp_result = 0
      ∧ EvScp (device_name device) (os_path_join scripts_dir script)
          remote_script ∈ new_events w run.2.
Proof.
  deploy_run false w tr r H. path_cases H.
  all: try destruct (ssh_run env device cleanup_command 10); simpl.
  all: intros Hev Hstep.
  all: repeat match goal with
         | H : _ ∈ _ :: _ |- _ => apply elem_of_cons in H as [->|H]
         | H : _ ∈ [] |- _ => by apply elem_of_nil in H
         end.
  all: try by (simpl in Hstep; repeat case_bool_decide).
  all: split; [done|]; eexists _, _.
  all: split_and!; [reflexivity|eassumption|eassumption|by apply Z.eqb_eq|].
  all: apply list_elem_of_further, list_elem_of_here.
Qed.

(** In GitHub mode nothing is copied to the host and nothing removed from
    it: besides the probe and the log, the one thing [deploy_device] does
    is send the command that pipes the script of the platform from GitHub
    into the shell. *)
Theorem github_mode_never_copies w ev :
  let run := deploy_device env device zabbix_token scripts_dir log_dir
               true w in
  ev ∈ new_events w run.2 →
  ev = EvProbe (device_name device)
  ∨ (∃ script result,
       INSTALL_SCRIPTS !! platform device = Some script
       ∧ ev = EvSshRun (device_name device)
                (github_command device zabbix_token script) 600 result)
  ∨ (∃ code out err, ev = EvLog (device_log device log_dir) code out err).
Proof.
  deploy_run true w tr r H. path_cases H. all: intros Hev.
  all: repeat match goal with
         | H : _ ∈ _ :: _ |- _ => apply elem_of_cons in H as [->|H]
         | H : _ ∈ [] |- _ => by apply elem_of_nil in H
         end.
  all: try (by left).
  all: try (by right; right; eexists _, _, _).
  all: by right; left; eexists _, _.
Qed.

(** Every outcome [deploy_device] returns bears the name of the device
    and the path of its log file, and the last thing done before it was
    returned is the writing of that log file; the exit code in the log is
    zero exactly when the outcome is a success. *)
Theorem returned_outcome_has_log use_github w res :
  let run := deploy_device env device zabbix_token scripts_dir log_dir
               use_github w in
  run.1 = inr res →
  r_device_name res = device_name device
  ∧ log_file res = device_log device log_dir
  ∧ ∃ code out err,
      last (new_events w run.2) = Some (EvLog (log_file res) code out err)
      ∧ (success res = true ↔ code = 0).
Proof.
  deploy_run use_github w tr r H. intros ->. path_cases H.
  all: unfold outcome_of, failed_with in *.
  all: repeat match goal with
         | H : context [?x =? 0] |- _ => destruct (Z.eqb_spec x 0)
         | |- context [?x =? 0] => destruct (Z.eqb_spec x 0)
         end.
  all: simplify_eq/=.
  all: try destruct (ssh_run env device cleanup_command 10); simpl.
  all: split_and!; try done; eexists _, _, _.
  all: split; [reflexivity|done].
Qed.

End DeploySteps.

Lemma unreachable_host_is_left_alone_witness :
  let run := deploy_device Outage.env_unreachable Scenario.rpi "token"
               "scripts" "logs" false Scenario.fresh in
  test_connectivity Outage.env_unreachable Scenario.rpi
  = (false, "SSH connection timed out")
  ∧ new_events Scenario.fresh run.2
    = [EvProbe "rpi-london-001";
       EvLog "logs/rpi-london-001.log" 1 (or_empty "")
         "SSH connection timed out"]
  ∧ ∃ duration,
      run.1 = inr (mkResult "rpi-london-001" false duration
                     "SSH connection timed out" "logs/rpi-london-001.log").
Proof.
  intros run.
  assert (test_connectivity Outage.env_unreachable Scenario.rpi
          = (false, "SSH connection timed out")) as Hprobe by reflexivity.
  split; [exact Hprobe|].
  exact (unreachable_host_is_left_alone Outage.env_unreachable Scenario.rpi
           "token" "scripts" "logs" false Scenario.fresh
           "SSH connection timed out" Hprobe).
Defined.

Lemma install_runs_only_after_push_witness :
  let run := deploy_device Scenario.env_ok Scenario.mac "token" "scripts"
               "logs" false Scenario.fresh in
  let ev := EvSshRun "mac-paris-002" Scenario.mac_command 600
              (mkProc 2 "out" Scenario.stderr_301) in
  ev ∈ new_events Scenario.fresh run.2
  ∧ step_of Scenario.mac ev = Some Execute
  ∧ EvScp "mac-paris-002" "scripts/install-zabbix-agent-macos.sh"
      "/tmp/install-zabbix-agent.sh" ∈ new_events Scenario.fresh run.2.
Proof.
  intros run ev.
  assert (ev ∈ new_events Scenario.fresh run.2) as Hev.
  { apply list_elem_of_In. vm_compute. do 2 right. left. reflexivity. }
  assert (step_of Scenario.mac ev = Some Execute) as Hstep by reflexivity.
  split_and!; [exact Hev|exact Hstep|].
  destruct (install_runs_only_after_push Scenario.env_ok Scenario.mac "token"
              "scripts" "logs" Scenario.fresh ev Hev Hstep)
    as (_ & script & scp_result & Hscript & _ & _ & _ & Hin).
  vm_compute in Hscript. injection Hscript as <-. exact Hin.
Defined.

Lemma github_mode_never_copies_witness :
  let run := deploy_device Scenario.env_ok Scenario.rpi "token" "scripts"
               "logs" true Scenario.fresh in
  let ev := EvLog "logs/rpi-london-001.log" 0 "done" (or_empty "") in
  ev ∈ new_events Scenario.fresh run.2
  ∧ (ev = EvProbe "rpi-london-001"
     ∨ (∃ script result,
          INSTALL_SCRIPTS !! "raspberrypi" = Some script
          ∧ ev = EvSshRun "rpi-london-001"
                   (github_command Scenario.rpi "token" script) 600 result)
     ∨ (∃ code out err, ev = EvLog "logs/rpi-london-001.log" code out err)).
Proof.
  intros run ev.
  assert (ev ∈ new_events Scenario.fresh run.2) as Hev.
  { apply list_elem_of_In. vm_compute. do 2 right. left. reflexivity. }
  split; [exact Hev|].
  exact (github_mode_never_copies Scenario.env_ok Scenario.rpi "token"
           "scripts" "logs" Scenario.fresh ev Hev).
Defined.

Lemma returned_outcome_has_log_witness :
  let run := deploy_device Scenario.env_ok Scenario.rpi "token" "scripts"
               "logs" false Scenario.fresh in
  let res := mkResult "rpi-london-001" true 0 "" "logs/rpi-london-001.log" in
  run.1 = inr res
  ∧ ∃ code out err,
      last (new_events Scenario.fresh run.2)
      = Some (EvLog "logs/rpi-london-001.log" code out err)
      ∧ (true = true ↔ code = 0).
Proof.
  intros run res.
  assert (run.1 = inr res) as Hrun by (vm_compute; reflexivity).
  split; [exact Hrun|].
  exact (proj2 (proj2 (returned_outcome_has_log Scenario.env_ok Scenario.rpi
                         "token" "scripts" "logs" false Scenario.fresh res
                         Hrun))).
Defined.

(* ===================================================================== *)
(** * The connectivity probe                                              *)
(* ===================================================================== *)

Section Probe.

Lemma prefixed_nonempty c p s : String c p +:+ s ≠ "".
Proof. by rewrite app_cons. Qed.

Lemma starts_withb_spec p s : starts_withb p s = true ↔ ∃ r, s = p +:+ r.
Proof.
  revert s. induction p as [|a p IH]; intros s; simpl.
  - split; [intros _; by exists s|done].
  - destruct s as [|b s].
    + split; [done|]. intros [r Hr]. by rewrite app_cons in Hr.
    + rewrite andb_true_iff, bool_decide_eq_true, IH. split.
      * intros [-> [r ->]]. by exists r.
      * intros [r Hr]. rewrite app_cons in Hr. injection Hr as -> ->.
        split; [done|by exists r].
Qed.

(** [needle in hay] holds exactly when [needle] occurs in [hay]. *)
Lemma str_contains_spec needle hay :
  str_contains needle hay = true ↔ ∃ a b, hay = a +:+ needle +:+ b.
Proof.
  induction hay as [|c hay IH]; simpl.
  - rewrite orb_false_r, starts_withb_spec. split.
    + intros [r Hr]. by exists "", r.
    + intros (a & b & H). destruct a as [|c a]; [by exists b|].
      by rewrite app_cons in H.
  - rewrite orb_true_iff, starts_withb_spec, IH. split.
    + intros [[r Hr] | (a & b & ->)]; [by exists "", r|].
      by exists (String c a), b.
    + intros (a & b & H). destruct a as [|c' a].
      * left. by exists b.
      * right. rewrite app_cons in H. injection H as _ ->. by exists a, b.
Qed.

Lemma test_connectivity_of_message run : (test_connectivity_of run).2 ≠ "".
Proof.
  unfold test_connectivity_of. destruct run as [e|result].
  - case_bool_decide; simpl; [done|apply prefixed_nonempty].
  - destruct (_ && _); simpl; [done|apply prefixed_nonempty].
Qed.

(** The probe calls a host reachable exactly when the probe command
    returned exit code 0 and its output holds the text "ok"; a timeout, any
    other exception and any other result make the host unreachable. The
    diagnostic is "OK" for a reachable host and never empty. *)
Theorem test_connectivity_verdict run :
  let verdict := test_connectivity_of run in
  (verdict.1 = true
   ↔ ∃ result a b,
       run = inr result ∧ returncode result = 0
       ∧ stdout result = a +:+ "ok" +:+ b)
  ∧ (verdict.1 = true → verdict.2 = "OK")
  ∧ verdict.2 ≠ "".
Proof.
  cbv zeta. split_and!; [| |apply test_connectivity_of_message].
  - unfold test_connectivity_of. destruct run as [e|result].
    + split; [by case_bool_decide|]. by intros (? & ? & ? & [=] & _).
    + destruct (Z.eqb_spec (returncode result) 0) as [Hrc|Hrc]; simpl.
      * destruct (str_contains "ok" (stdout result)) eqn:Hok; simpl.
        -- split; [intros _|done].
           apply str_contains_spec in Hok as (a & b & Hok). by exists result, a, b.
        -- split; [done|]. intros (? & a & b & [= <-] & _ & Hout).
           assert (str_contains "ok" (stdout result) = true) as Hyes
             by (apply str_contains_spec; by exists a, b).
           congruence.
      * split; [done|]. by intros (? & ? & ? & [= <-] & ? & _).
  - unfold test_connectivity_of. destruct run as [e|result].
    + by case_bool_decide.
    + by destruct (_ && _).
Qed.

End Probe.

(* ===================================================================== *)
(** * What the outcome of a deployment depends on                         *)
(* ===================================================================== *)

Section Outcome.

Context (env : Env) (device : Device).
Context (zabbix_token scripts_dir log_dir : string).

(** When the probe is the one of [SSHExecutor], an outcome that
    [deploy_device] returns is a success exactly when it carries no error
    message: every failure says why. *)
Theorem failure_carries_message use_github w res probe :
  test_connectivity env device = test_connectivity_of probe →
  let run := deploy_device env device zabbix_token scripts_dir log_dir
               use_github w in
  run.1 = inr res →
  (success res = true ↔ error_message res = "").
Proof.
  intros Hprobe. pose proof (test_connectivity_of_message probe) as Hmsg.
  rewrite <- Hprobe in Hmsg. cbv zeta.
  destruct (deploy_device_run env device zabbix_token scripts_dir log_dir
              use_github w) as [_ H].
  intros Hres. rewrite Hres in H. revert H.
  generalize (new_events w (deploy_device env device zabbix_token scripts_dir
                              log_dir use_github w).2).
  intros tr H. path_cases H.
  all: unfold outcome_of, failed_with.
  all: repeat match goal with
         | |- context [?x =? 0] => destruct (x =? 0)
         end.
  all: simpl; split; try done.
  all: try (intros E; by apply prefixed_nonempty in E).
  all: try (intros E; by apply execute_error_message_nonempty in E).
  all: intros ->; match goal with
                  | H : test_connectivity env device = _ |- _ =>
                      by rewrite H in Hmsg
                  end.
Qed.

(** Whether the removal of the copied script works, fails or runs into
    its timeout makes no difference to the outcome: the two runs return
    outcomes with the same name, verdict, error message and log file, or
    raise the same exception. *)
Theorem cleanup_never_decides f g use_github w :
  same_verdict
    (deploy_device (with_cleanup f env) device zabbix_token scripts_dir log_dir
       use_github w).1
    (deploy_device (with_cleanup g env) device zabbix_token scripts_dir log_dir
       use_github w).1.
Proof.
  destruct (deploy_device_run (with_cleanup f env) device zabbix_token
              scripts_dir log_dir use_github w) as [_ Hf].
  destruct (deploy_device_run (with_cleanup g env) device zabbix_token
              scripts_dir log_dir use_github w) as [_ Hg].
  revert Hf Hg.
  generalize (new_events w (deploy_device (with_cleanup f env) device
                              zabbix_token scripts_dir log_dir use_github w).2)
             (deploy_device (with_cleanup f env) device
                zabbix_token scripts_dir log_dir use_github w).1
             (new_events w (deploy_device (with_cleanup g env) device
                              zabbix_token scripts_dir log_dir use_github w).2)
             (deploy_device (with_cleanup g env) device
                zabbix_token scripts_dir log_dir use_github w).1.
  intros tr1 r1 tr2 r2 Hf Hg.
  unfold deploy_path, ends_with_log in Hf, Hg. simpl in Hf, Hg.
  destruct Hf as (t1 & _ & Hf). destruct Hg as (t2 & _ & Hg).
  revert Hf Hg.
  repeat match goal with
         | |- context [match ?x with _ => _ end] => destruct x
         end.
  all: intros Hf Hg.
  all: repeat match goal with
         | H : ∃ _, _ |- _ => destruct H as [? H]
         | H : _ ∧ _ |- _ => destruct H as [? H]
         end.
  all: subst; unfold same_verdict, outcome_of, failed_with; try done.
  all: by destruct (_ =? 0).
Qed.

End Outcome.

Lemma failure_carries_message_witness :
  let run := deploy_device Outage.env_unreachable Scenario.rpi "token"
               "scripts" "logs" false Scenario.fresh in
  let res := mkResult "rpi-london-001" false 0 "SSH connection timed out"
               "logs/rpi-london-001.log" in
  run.1 = inr res ∧ (false = true ↔ "SSH connection timed out" = "").
Proof.
  intros run res.
  assert (run.1 = inr res) as Hrun by (vm_compute; reflexivity).
  split; [exact Hrun|].
  exact (failure_carries_message Outage.env_unreachable Scenario.rpi "token"
           "scripts" "logs" false Scenario.fresh res
           (inl Outage.probe_timeout) eq_refl Hrun).
Defined.

(* ===================================================================== *)
(** * The record of an attempt                                            *)
(* ===================================================================== *)

Section Recording.

Context (env : Env).


(** A record call on a store that is no mapping raises and changes
    nothing but the clock. *)
Lemma record_unusable name status err w :
  (∀ m, sm_state w ≠ JObj m) →
  ∃ e w',
    (now ← datetime_now_isoformat env;
     state_setitem name (state_entry status now err);; _save) w
    = (inl (Raise e), w')
    ∧ exn_cls e = TypeError
    ∧ same_store w w' ∧ events w' = events w.
Proof.
  intros Hst.
  unfold datetime_now_isoformat, time_time, state_setitem, _save.
  unfold_monad.
  destruct (clock w) as [|t ck]; simpl;
    destruct (sm_state w) as [| | | | |m] eqn:E; simpl;
    try (by destruct (Hst m)); by eexists _, _.
Qed.


(** On a state manager whose store is no mapping (the state file held
    other JSON) no attempt can be recorded: whatever happened on the host,
    the outcome the loop keeps is the substitute for an exception, a
    failure, and the store and the state file stay as they were. *)
Theorem unusable_store_fails_every_attempt args zabbix_token device w :
  (∀ m, sm_state w ≠ JObj m) →
  ∃ e w',
    attempt env args zabbix_token device w
    = (inr (unexpected_error device e), w')
    ∧ same_store w w'
    ∧ Forall not_save (new_events w w').
Proof.
  intros Hst. unfold attempt, deploy_and_record.
  destruct (deploy_device_traced env device zabbix_token (a_scripts_dir args)
              (a_log_dir args) (a_github args) w)
    as (Hstore & tr & Htr & Hsave & Hpost).
  destruct (deploy_device env device zabbix_token (a_scripts_dir args)
              (a_log_dir args) (a_github args) w)
    as [[[e|code]|res] w1] eqn:Hdev; simpl in *; [| done |].
  - exists e, w1. split_and!; [|done|by rewrite (new_events_app _ _ _ Htr)].
    erewrite try_except_raise; [reflexivity|]. by apply bind_inl.
  - assert (∀ m, sm_state w1 ≠ JObj m) as Hst1
      by (intros m; destruct Hstore as [-> _]; apply Hst).
    assert (∃ e w',
              (if success res
               then mark_success env (device_name device)
               else mark_failed env (device_name device) (error_message res))
                w1 = (inl (Raise e), w')
              ∧ same_store w1 w' ∧ events w' = events w1)
      as (e & w' & Hrec & Hstore' & Hev).
    { destruct (success res);
        [destruct (record_unusable (device_name device) "success" JNull w1 Hst1)
           as (e & w' & ? & _ & ? & ?)
        |destruct (record_unusable (device_name device) "failed"
                     (JStr (error_message res)) w1 Hst1)
           as (e & w' & ? & _ & ? & ?)];
        by exists e, w'. }
    exists e, w'. split_and!.
    + erewrite try_except_raise; [reflexivity|].
      rewrite (bind_inr _ _ _ _ _ Hdev). by apply bind_inl.
    + by eapply same_store_trans.
    + unfold new_events. rewrite Hev, Htr, drop_app_length. done.
Qed.

(** A record call that cannot open the state file for writing raises
    [IOError] with the file as it was, but the entry stays in the state
    manager: the next record call that can write puts both entries on
    disk. *)
Theorem failed_write_is_made_up name error other m w :
  sm_state w = JObj m →
  head (write_faults w) = Some true →
  ∃ e w1,
    mark_failed env name error w = (inl (Raise e), w1)
    ∧ exn_cls e = IOError
    ∧ state_file w1 = state_file w
    ∧ last_status (sm_state w1) name = JStr "failed"
    ∧ (name ≠ other →
       head (write_faults w1) ≠ Some true →
       ∃ w2 v,
         mark_success env other w1 = (inr (), w2)
         ∧ state_file w2 = FJson v
         ∧ last_status v name = JStr "failed"
         ∧ last_status v other = JStr "success").
Proof.
  intros Hst Hw.
  set (ts := isoformat env (default 0 (head (clock w)))).
  set (st1 := JObj (<[name := state_entry "failed" ts (JStr error)]> m)).
  assert (∃ e w1,
            mark_failed env name error w = (inl (Raise e), w1)
            ∧ exn_cls e = IOError
            ∧ state_file w1 = state_file w
            ∧ sm_state w1 = st1) as (e & w1 & Hrun & He & Hfile & Hst1).
  { unfold mark_failed, datetime_now_isoformat, time_time, state_setitem, _save.
    unfold_monad.
    destruct (clock w) as [|t ck] eqn:Hck; simpl; rewrite Hst; simpl;
      destruct (write_faults w) as [|[] wf]; simpl in *; try done;
      by eexists _, _. }
  exists e, w1. split_and!; [done|done|done| |].
  - rewrite Hst1. apply last_status_insert.
  - intros Hne Hw1.
    destruct (record_run env other "success" JNull _ w1 Hst1 Hw1)
      as (w2 & Hrun2 & Hs2 & Hf2).
    exists w2, (sm_state w2). split_and!.
    + exact Hrun2.
    + by rewrite Hf2, Hs2.
    + rewrite Hs2, last_status_insert_ne by done. apply last_status_insert.
    + rewrite Hs2. apply last_status_insert.
Qed.

End Recording.


Lemma unusable_store_fails_every_attempt_witness :
  let w := set_sm_state (JArr []) Scenario.fresh in
  (∀ m, sm_state w ≠ JObj m)
  ∧ ∃ e w',
      attempt Scenario.env_ok Scenario.args_plain "token" Scenario.rpi w
      = (inr (unexpected_error Scenario.rpi e), w')
      ∧ same_store w w'
      ∧ Forall not_save (new_events w w').
Proof.
  intros w.
  assert (∀ m, sm_state w ≠ JObj m) as Hst by (intros m; simpl; discriminate).
  split; [exact Hst|].
  exact (unusable_store_fails_every_attempt Scenario.env_ok
           Scenario.args_plain "token" Scenario.rpi w Hst).
Defined.

Lemma failed_write_is_made_up_witness :
  sm_state Scenario.world_write_fault = JObj ∅
  ∧ head (write_faults Scenario.world_write_fault) = Some true
  ∧ ∃ e w1,
      mark_failed Scenario.env_ok "rpi-london-001" "SCP failed: no route"
        Scenario.world_write_fault = (inl (Raise e), w1)
      ∧ exn_cls e = IOError
      ∧ state_file w1 = state_file Scenario.world_write_fault
      ∧ last_status (sm_state w1) "rpi-london-001" = JStr "failed".
Proof.
  assert (sm_state Scenario.world_write_fault = JObj ∅) as Hst by reflexivity.
  assert (head (write_faults Scenario.world_write_fault) = Some true) as Hw
    by reflexivity.
  split_and!; [exact Hst|exact Hw|].
  destruct (failed_write_is_made_up Scenario.env_ok "rpi-london-001"
              "SCP failed: no route" "mac-paris-002" ∅
              Scenario.world_write_fault Hst Hw)
    as (e & w1 & Hrun & He & Hfile & Hstatus & _).
  exists e, w1. split_and!; [exact Hrun|exact He|exact Hfile|exact Hstatus].
Defined.

(* ===================================================================== *)
(** * The phases of [main]                                                *)
(* ===================================================================== *)

Section Confined.

Context (ok : event → Prop) `{!Allows ok}.

Lemma confined_weaken {A} (P Q : A → Prop) (c : M A) :
  (∀ a, P a → Q a) → confined ok P c → confined ok Q c.
Proof.
  intros HPQ Hc w. destruct (Hc w) as (? & ? & ? & HP). split_and!; auto.
Qed.

Lemma confined_ret {A} (Q : A → Prop) (a : A) : Q a → confined ok Q (mret a).
Proof.
  intros HQ w. split_and!; [done|done| |by intros ? [= <-]].
  exists []. by rewrite app_nil_r.
Qed.

Lemma confined_fail {A} (Q : A → Prop) (e : ctl) :
  confined ok Q (λ w, (inl e, w)).
Proof.
  intros w. split_and!; [done|done| |done].
  exists []. by rewrite app_nil_r.
Qed.

Lemma confined_raise {A} (Q : A → Prop) cls msg :
  confined ok Q (raise (A := A) cls msg).
Proof. apply confined_fail. Qed.

Lemma confined_exit {A} (Q : A → Prop) code :
  confined ok Q (sys_exit (A := A) code).
Proof. apply confined_fail. Qed.

Lemma confined_emit (Q : unit → Prop) ev :
  ok ev → Q () → confined ok Q (emit ev).
Proof.
  intros Hev HQ w. split_and!; [done|done| |by intros []].
  exists [ev]. split; [done|by apply Forall_singleton].
Qed.

Lemma confined_print (Q : unit → Prop) line : Q () → confined ok Q (print line).
Proof. apply confined_emit, allows_print. Qed.

Lemma confined_input prompt : confined ok (λ _, True) (input prompt).
Proof.
  intros w. unfold input.
  destruct (stdin w); (split_and!; [done|done| |done]);
    exists [EvPrint prompt]; (split; [done|]);
    apply Forall_singleton, allows_print.
Qed.

Lemma confined_bind {A B} (P : A → Prop) (Q : B → Prop) (c : M A)
    (f : A → M B) :
  confined ok P c → (∀ a, P a → confined ok Q (f a)) →
  confined ok Q (c ≫= f).
Proof.
  intros Hc Hf w. unfold mbind, M_bind.
  destruct (Hc w) as (Hfile & Hfaults & (tr & Hev & Htr) & HP).
  destruct (c w) as [[e|a] w1]; simpl in *.
  - split_and!; [done|done|by exists tr|done].
  - destruct (Hf a (HP a eq_refl) w1)
      as (Hfile' & Hfaults' & (tr' & Hev' & Htr') & HQ).
    split_and!; [congruence|congruence| |done].
    exists (tr ++ tr'). rewrite Hev', Hev, app_assoc. split; [done|].
    by apply Forall_app.
Qed.

(** What follows a computation that never returns does not matter. *)
Lemma confined_cut {A B} (Q : B → Prop) (c : M A) (f : A → M B) :
  confined ok (λ _, False) c → confined ok Q (c ≫= f).
Proof. intros Hc. by apply (confined_bind (λ _, False)). Qed.

Lemma confined_mapM {A B} (f : A → M B) l :
  (∀ a, confined ok (λ _, True) (f a)) →
  confined ok (λ _, True) (mapM f l).
Proof.
  intros Hf. induction l as [|a l IH]; simpl; [by apply confined_ret|].
  apply (confined_bind (λ _, True)); [apply Hf|intros b _].
  apply (confined_bind (λ _, True)); [apply IH|intros bs _].
  by apply confined_ret.
Qed.

End Confined.

(** Close a [confined] goal over code built from the primitives, when
    nothing is asked of the value returned. *)
Ltac solve_confined :=
  repeat first
    [ by apply confined_ret
    | apply confined_raise | apply confined_exit
    | apply (confined_bind _ (λ _, True)); [|intros ? _]
    | match goal with
      | |- confined ?ok _ (print ?line) => by apply (confined_print ok _ line)
      | |- confined ?ok _ (input ?prompt) => apply (confined_input ok prompt)
      | |- confined _ _ (if ?b then _ else _) => destruct b
      | |- confined _ _ (match ?x with _ => _ end) => destruct x
      end ].

Section Phases.

Context (env : Env) (ok : event → Prop) `{!Allows ok}.

Lemma load_world w : (_load w).2 = w.
Proof.
  destruct (state_file w) eqn:E.
  - by rewrite load_soft by auto.
  - by rewrite load_soft by auto.
  - by rewrite load_undecodable by done.
  - by rewrite load_soft by auto.
  - by rewrite (load_json _ _ E).
Qed.

Lemma confined_init : confined ok (λ _, True) StateManager_init.
Proof.
  intros w. unfold StateManager_init, mbind, M_bind, modify.
  pose proof (load_world w) as Hw.
  destruct (_load w) as [[e|st] w1]; simpl in *; subst w1;
    (split_and!; [done|done| |done]); exists []; by rewrite app_nil_r.
Qed.

Lemma get_status_world name w : (get_status name w).2 = w.
Proof.
  unfold get_status, py_get. unfold_monad.
  destruct (sm_state w) as [| | | | |m]; simpl; try done.
  destruct (truthy (default JNull (m !! name))); [|done].
  by destruct (default JNull (m !! name)).
Qed.

Lemma confined_get_status name : confined ok (λ _, True) (get_status name).
Proof.
  intros w. rewrite get_status_world.
  split_and!; [done|done| |done]. exists []. by rewrite app_nil_r.
Qed.

Lemma confined_filter_by_status keep devices :
  confined ok (λ _, True) (filter_by_status keep devices).
Proof.
  induction devices as [|d rest IH]; cbn [filter_by_status];
    [by apply confined_ret|].
  apply (confined_bind _ (λ _, True)); [apply confined_get_status|intros st _].
  apply (confined_bind _ (λ _, True)); [apply IH|intros kept _].
  by apply confined_ret.
Qed.

Lemma confined_apply_resume_retry args devices :
  confined ok (λ _, True) (apply_resume_retry args devices).
Proof.
  unfold apply_resume_retry.
  apply (confined_bind _ (λ _, True)); [|intros ds _; solve_confined].
  destruct (a_resume args); [|destruct (a_retry_failed args)].
  - apply (confined_bind _ (λ _, True));
      [apply confined_filter_by_status|intros ds _].
    solve_confined.
  - apply (confined_bind _ (λ _, True));
      [apply confined_filter_by_status|intros ds _].
    solve_confined.
  - solve_confined.
Qed.

(** Steps 1 to 4 and the loading of the state: the modes are those of the
    command line. *)
Lemma parse_inventory_traced lines :
  traced (parse_inventory lines) (λ tr _, Forall is_print tr).
Proof.
  unfold parse_inventory. destruct lines as [|fieldnames rows].
  - intros w. split; [done|]. eexists [_]. split; [reflexivity|].
    apply Forall_singleton. by eexists.
  - destruct (missing_columns fieldnames) eqn:Hmissing.
    + eapply traced_weaken; [apply parse_rows_traced|]. by intros tr r [? _].
    + intros w. split; [done|]. eexists [_; _].
      split; [simpl; by rewrite <- app_assoc|].
      repeat constructor; by eexists.
Qed.

Lemma confined_of_traced {A} (c : M A) :
  traced c (λ tr _, Forall is_print tr) → confined ok (λ _, True) c.
Proof.
  intros Hc w. destruct (Hc w) as ((_ & Hfile & Hfaults) & tr & Hev & Htr).
  split_and!; [done|done| |done]. exists tr. split; [done|].
  eapply Forall_impl; [exact Htr|]. intros ev [line ->]. apply allows_print.
Qed.

Lemma confined_load_inventory args :
  confined ok (λ _, True) (load_inventory env args).
Proof.
  unfold load_inventory.
  destruct (inventory_file env (a_inventory args)) as [[lines fault]|];
    [|solve_confined].
  apply (confined_bind _ (λ _, True)); [|intros devices _; solve_confined].
  unfold read_inventory.
  destruct fault as [e|];
    [|apply confined_of_traced, parse_inventory_traced].
  destruct lines; [apply confined_fail|].
  apply (confined_bind _ (λ _, True));
    [apply confined_of_traced, parse_inventory_traced|intros ds _].
  apply confined_fail.
Qed.

Lemma confined_parse_args cmdline :
  confined ok (λ args, ∀ raw, cmdline = ArgNamespace raw →
                       a_dry_run args = a_dry_run raw
                       ∧ a_check args = a_check raw)
           (parse_args env cmdline).
Proof.
  destruct cmdline as [help|usage|raw]; simpl.
  - apply (confined_bind _ (λ _, True)); [solve_confined|intros _ _].
    apply confined_exit.
  - apply confined_exit.
  - cbv zeta.
    destruct (_ <? 1); [apply confined_ret; by intros ? [= <-]|].
    destruct (5 <? _); [|apply confined_ret; by intros ? [= <-]].
    apply (confined_bind _ (λ _, True)); [solve_confined|intros _ _].
    apply confined_ret. by intros ? [= <-].
Qed.

(** Steps 1 to 4 and the loading of the state: the modes are those of the
    command line. *)
Lemma confined_prepare cmdline :
  confined ok (λ p, ∀ raw, cmdline = ArgNamespace raw →
                    a_dry_run p.1.1 = a_dry_run raw
                    ∧ a_check p.1.1 = a_check raw)
           (prepare env cmdline).
Proof.
  unfold prepare.
  eapply confined_bind; [apply confined_parse_args|].
  intros args Hargs.
  apply (confined_bind _ (λ _, True)).
  { unfold get_token. cbv zeta. solve_confined. }
  intros zabbix_token _.
  apply (confined_bind _ (λ _, True)).
  { unfold check_prerequisites. cbv zeta. solve_confined. }
  intros _ _.
  apply (confined_bind _ (λ _, True)); [apply confined_load_inventory|].
  intros devices _.
  apply (confined_bind _ (λ _, True)).
  { unfold apply_filters. cbv zeta. solve_confined. }
  intros devices' _.
  apply (confined_bind _ (λ _, True)); [apply confined_init|intros _ _].
  by apply confined_ret.
Qed.

End Phases.

Lemma probed_app tr1 tr2 : probed (tr1 ++ tr2) = probed tr1 ++ probed tr2.
Proof. apply omap_app. Qed.

Section MainModes.

Context (env : Env).

Lemma confined_max_len ok f devices :
  confined ok (λ _, True) (max_len f devices).
Proof.
  unfold max_len. destruct devices; [apply confined_raise|by apply confined_ret].
Qed.

Lemma confined_check_devices ssh name_width ip_width devices ok_count
    fail_count :
  confined print_or_probe (λ _, True)
           (check_devices env ssh name_width ip_width devices ok_count
              fail_count).
Proof.
  revert ok_count fail_count.
  induction devices as [|d rest IH]; intros ok_count fail_count;
    cbn [check_devices]; [by apply confined_ret|].
  apply (confined_bind _ (λ _, True)).
  { unfold probe_with, ssh_test_connectivity.
    destruct ssh; [|apply confined_raise].
    apply (confined_bind _ (λ _, True)); [|intros; by apply confined_ret].
    apply confined_emit; [right; by eexists|done]. }
  intros [reachable msg] _. cbv zeta.
  apply (confined_bind _ (λ _, True)); [solve_confined|intros _ _].
  destruct reachable; apply IH.
Qed.

(** Without an executor the loop never gets past its first probe. *)
Lemma confined_check_devices_none ok name_width ip_width devices ok_count
    fail_count :
  confined ok (λ _, True)
           (check_devices env false name_width ip_width devices ok_count
              fail_count).
Proof.
  destruct devices as [|d rest]; cbn [check_devices];
    [by apply confined_ret|].
  apply (confined_bind _ (λ _, False)); [apply confined_raise|].
  by intros [reachable msg] ?.
Qed.

Lemma confined_run_connectivity_checks ssh devices :
  confined print_or_probe (λ _, True)
           (run_connectivity_checks env ssh devices).
Proof.
  unfold run_connectivity_checks.
  apply (confined_bind _ (λ _, True)); [solve_confined|intros _ _].
  apply (confined_bind _ (λ _, True)); [apply confined_max_len|intros nw _].
  apply (confined_bind _ (λ _, True)); [apply confined_max_len|intros iw _].
  apply (confined_bind _ (λ _, True));
    [apply confined_check_devices|intros [ok_count fail_count] _].
  solve_confined.
Qed.

Lemma confined_run_connectivity_checks_none ok `{!Allows ok} devices :
  confined ok (λ _, True) (run_connectivity_checks env false devices).
Proof.
  unfold run_connectivity_checks.
  apply (confined_bind _ (λ _, True)); [solve_confined|intros _ _].
  apply (confined_bind _ (λ _, True)); [apply confined_max_len|intros nw _].
  apply (confined_bind _ (λ _, True)); [apply confined_max_len|intros iw _].
  apply (confined_bind _ (λ _, True));
    [apply confined_check_devices_none|intros [ok_count fail_count] _].
  solve_confined.
Qed.

(** With an executor the loop probes every device once, in the order
    given, and returns. *)
Lemma check_devices_run name_width ip_width devices ok_count fail_count w :
  ∃ counts w' tr,
    check_devices env true name_width ip_width devices ok_count fail_count w
    = (inr counts, w')
    ∧ same_store w w'
    ∧ events w' = events w ++ tr
    ∧ probed tr = map device_name devices.
Proof.
  revert ok_count fail_count w.
  induction devices as [|d rest IH]; intros ok_count fail_count w.
  - exists (ok_count, fail_count), w, []. by rewrite app_nil_r.
  - cbn [check_devices]. unfold probe_with, ssh_test_connectivity.
    unfold_monad. destruct (test_connectivity env d) as [reachable msg].
    simpl.
    match goal with
    | |- context [add_event (EvPrint ?l) _] => set (line := l)
    end.
    set (w1 := add_event (EvPrint line)
                 (add_event (EvProbe (device_name d)) w)).
    destruct reachable.
    + destruct (IH (S ok_count) fail_count w1)
        as (counts & w' & tr & Hrun & Hstore & Hev & Hprobed).
      exists counts, w', (EvProbe (device_name d) :: EvPrint line :: tr).
      split_and!; [done|done| |by simpl; f_equal].
      rewrite Hev. unfold w1. simpl. by rewrite <- !app_assoc.
    + destruct (IH ok_count (S fail_count) w1)
        as (counts & w' & tr & Hrun & Hstore & Hev & Hprobed).
      exists counts, w', (EvProbe (device_name d) :: EvPrint line :: tr).
      split_and!; [done|done| |by simpl; f_equal].
      rewrite Hev. unfold w1. simpl. by rewrite <- !app_assoc.
Qed.

(** The checks on a list that is not empty. *)
Lemma run_connectivity_checks_run devices w :
  devices ≠ [] →
  ∃ w' tr,
    run_connectivity_checks env true devices w = (inr (), w')
    ∧ same_store w w'
    ∧ events w' = events w ++ tr
    ∧ probed tr = map device_name devices.
Proof.
  intros Hne. unfold run_connectivity_checks, max_len.
  destruct devices as [|d0 rest0] eqn:Hdevices; [done|].
  rewrite <- Hdevices. clear Hne.
  set (header := LF +:+ "Testing connectivity to " +:+ pretty (length devices)
                 +:+ " devices..." +:+ LF).
  rewrite (bind_inr _ _ w () (add_event (EvPrint header) w) eq_refl).
  rewrite (bind_inr (mret _) _ _ _ _ eq_refl).
  rewrite (bind_inr (mret _) _ _ _ _ eq_refl).
  match goal with
  | |- context [check_devices env true ?nw ?iw devices 0%nat 0%nat] =>
      destruct (check_devices_run nw iw devices 0%nat 0%nat
                  (add_event (EvPrint header) w))
        as ([ok_count fail_count] & w1 & tr & Hrun & Hstore & Hev & Hprobed)
  end.
  rewrite (bind_inr _ _ _ _ _ Hrun). unfold_monad. simpl.
  case_bool_decide; simpl.
  - eexists _, (EvPrint header :: tr ++ [_; _]).
    split_and!; [reflexivity|done| |].
    + simpl. rewrite Hev. simpl. by rewrite <- !app_assoc.
    + simpl. rewrite probed_app. simpl. by rewrite app_nil_r.
  - eexists _, (EvPrint header :: tr ++ [_; _]).
    split_and!; [reflexivity|done| |].
    + simpl. rewrite Hev. simpl. by rewrite <- !app_assoc.
    + simpl. rewrite probed_app. simpl. by rewrite app_nil_r.
Qed.

Lemma confined_plan ok `{!Allows ok} devices args :
  confined ok (λ _, True) (print_deployment_plan devices args).
Proof. unfold print_deployment_plan. solve_confined. Qed.

(** In dry-run mode [run_selected] only prints and never returns. *)
Lemma run_selected_dry_run ok `{!Allows ok} args zabbix_token devices :
  a_dry_run args = true →
  confined ok (λ _, False) (run_selected env args zabbix_token devices).
Proof.
  intros Hdry. unfold run_selected. rewrite Hdry.
  apply (confined_bind _ (λ _, True)).
  { destruct (a_check args); [|by apply confined_ret].
    apply (confined_bind _ (λ _, True));
      [exact (confined_run_connectivity_checks_none ok devices)
      |intros; apply confined_exit]. }
  intros _ _.
  apply (confined_bind _ (λ _, True));
    [exact (confined_plan ok devices args)|intros _ _].
  apply confined_cut.
  apply (confined_bind _ (λ _, True)); [solve_confined|intros _ _].
  apply (confined_bind _ (λ _, True)).
  { apply confined_mapM. intros d. unfold print_dry_run_device.
    solve_confined. }
  intros _ _.
  apply (confined_bind _ (λ _, True)); [solve_confined|intros _ _].
  apply confined_exit.
Qed.

(** In check mode [run_selected] only prints and probes, and never
    returns. *)
Lemma run_selected_check args zabbix_token devices :
  a_check args = true →
  confined print_or_probe (λ _, False)
           (run_selected env args zabbix_token devices).
Proof.
  intros Hcheck. unfold run_selected. rewrite Hcheck.
  apply confined_cut.
  apply (confined_bind _ (λ _, True)); [|intros; apply confined_exit].
  apply confined_run_connectivity_checks.
Qed.

Lemma confined_main ok `{!Allows ok} raw :
  (∀ args zabbix_token devices,
     a_dry_run args = a_dry_run raw → a_check args = a_check raw →
     confined ok (λ _, False) (run_selected env args zabbix_token devices)) →
  confined ok (λ _, False) (main env raw).
Proof.
  intros Hrun. unfold main.
  eapply confined_bind; [exact (confined_prepare env ok raw)|].
  intros [[args zabbix_token] devices] Hmodes.
  destruct (Hmodes raw eq_refl) as [Hdry Hcheck]. simpl in *.
  apply (confined_bind _ (λ _, True));
    [exact (confined_apply_resume_retry ok args devices)|intros ds _].
  by apply Hrun.
Qed.

Lemma confined_run {A} ok (Q : A → Prop) (c : M A) w :
  confined ok Q c →
  state_file (c w).2 = state_file w
  ∧ Forall ok (new_events w (c w).2)
  ∧ ∀ a, (c w).1 = inr a → Q a.
Proof.
  intros Hc. destruct (Hc w) as (Hfile & _ & (tr & Hev & Htr) & HQ).
  by rewrite (new_events_app _ _ _ Hev).
Qed.

(** Steps 1 to 5 of [main], from the command line to the selection of the
    devices, touch no host and never write the state file: all they add to
    the trace is output on the terminal. *)
Theorem selection_only_prints raw w :
  let run := (p ← prepare env raw; apply_resume_retry p.1.1 p.2) w in
  state_file run.2 = state_file w
  ∧ Forall is_print (new_events w run.2).
Proof.
  cbv zeta.
  assert (confined is_print (λ _, True)
            (p ← prepare env raw; apply_resume_retry p.1.1 p.2)) as Hc.
  { eapply confined_bind; [exact (confined_prepare env is_print raw)|].
    intros p _. exact (confined_apply_resume_retry is_print _ _). }
  by destruct (confined_run _ _ _ w Hc) as (? & ? & _).
Qed.

(** With [--dry-run], [main] touches no host and writes nothing: it only
    prints, leaves the state file as it was, and ends by an exit or an
    exception before the deployment. *)
Theorem dry_run_only_prints raw w :
  a_dry_run raw = true →
  let run := main env raw w in
  state_file run.2 = state_file w
  ∧ Forall is_print (new_events w run.2)
  ∧ ∀ u, run.1 ≠ inr u.
Proof.
  intros Hdry. cbv zeta.
  assert (confined is_print (λ _, False) (main env raw)) as Hc.
  { apply (confined_main is_print). intros args tok devices Hd _.
    apply (run_selected_dry_run is_print). congruence. }
  destruct (confined_run _ _ _ w Hc) as (? & ? & HQ).
  split_and!; [done|done|]. intros u Hu. by apply (HQ u).
Qed.

(** With [--check], [main] does nothing on a host but probe it: no copy,
    no command, no log and no write of the state file, and it ends by an
    exit or an exception before the deployment. *)
Theorem check_mode_never_deploys raw w :
  a_check raw = true →
  let run := main env raw w in
  state_file run.2 = state_file w
  ∧ Forall print_or_probe (new_events w run.2)
  ∧ ∀ u, run.1 ≠ inr u.
Proof.
  intros Hcheck. cbv zeta.
  assert (confined print_or_probe (λ _, False) (main env raw)) as Hc.
  { apply (confined_main print_or_probe). intros args tok devices _ Hc.
    apply run_selected_check. congruence. }
  destruct (confined_run _ _ _ w Hc) as (? & ? & HQ).
  split_and!; [done|done|]. intros u Hu. by apply (HQ u).
Qed.

(** In check mode every selected device is probed exactly once, in the
    order of the inventory, and the run ends with exit status 0 whatever
    the probes found. The list is not empty: step 5 never hands on an
    empty one, and on none the checks would raise [ValueError]. *)
Theorem check_mode_probes_each_host_once args zabbix_token devices w :
  a_check args = true →
  a_dry_run args = false →
  devices ≠ [] →
  let run := run_selected env args zabbix_token devices w in
  run.1 = inl (SysExit 0)
  ∧ same_store w run.2
  ∧ probed (new_events w run.2) = map device_name devices.
Proof.
  intros Hcheck Hdry Hne. cbv zeta. unfold run_selected.
  rewrite Hcheck, Hdry. simpl.
  destruct (run_connectivity_checks_run devices w Hne)
    as (w' & tr & Hrun & Hstore & Hev & Hprobed).
  unfold mbind, M_bind. rewrite Hrun. simpl.
  split_and!; [done|done|]. by rewrite (new_events_app _ _ _ Hev).
Qed.

(** With both [--check] and [--dry-run] there is no SSH executor to check
    with: on a list of devices that is not empty the checks print their
    opening line and raise [AttributeError] at the first probe, no host is
    probed, and the process ends with status 1. *)
Theorem check_with_dry_run_raises args zabbix_token devices w :
  a_check args = true →
  a_dry_run args = true →
  devices ≠ [] →
  let run := run_selected env args zabbix_token devices w in
  (∃ e, run.1 = inl (Raise e) ∧ exn_cls e = AttributeError)
  ∧ process_exit_code run = 1
  ∧ new_events w run.2
    = [EvPrint (LF +:+ "Testing connectivity to " +:+ pretty (length devices)
                +:+ " devices..." +:+ LF)].
Proof.
  intros Hcheck Hdry Hne. cbv zeta.
  unfold run_selected, process_exit_code, run_connectivity_checks, max_len.
  rewrite Hcheck, Hdry. simpl.
  destruct devices as [|d rest]; [done|].
  cbn [check_devices]. unfold probe_with. unfold_monad. simpl.
  split_and!; [by eexists|done|].
  unfold new_events. simpl. by rewrite drop_app_length.
Qed.

(** A deployment to more than one device asks first. Unless the answer is
    [y], nothing is deployed: the run only prints, leaves the state store
    alone and ends with exit status 0, or with [EOFError] when there is
    no answer to read. *)
Theorem declined_confirmation_deploys_nothing args zabbix_token devices w :
  a_check args = false →
  a_dry_run args = false →
  (1 < length devices)%nat →
  (∀ answer rest, stdin w = answer :: rest → answered_yes answer = false) →
  let run := run_selected env args zabbix_token devices w in
  match stdin w with
  | [] => ∃ e, run.1 = inl (Raise e) ∧ exn_cls e = EOFError
  | _ :: _ => run.1 = inl (SysExit 0)
  end
  ∧ same_store w run.2
  ∧ Forall is_print (new_events w run.2).
Proof.
  intros Hcheck Hdry Hmany Hno. cbv zeta. unfold run_selected.
  rewrite Hcheck, Hdry. apply Nat.ltb_lt in Hmany. rewrite Hmany.
  unfold print_deployment_plan, input. unfold_monad. simpl.
  destruct (stdin w) as [|answer rest] eqn:Hin; simpl.
  - split_and!; [by eexists|done|].
    unfold new_events. simpl. rewrite <- !app_assoc, drop_app_length.
    repeat constructor; by eexists.
  - rewrite (Hno answer rest eq_refl). simpl.
    split_and!; [done|done|].
    unfold new_events. simpl. rewrite <- !app_assoc, drop_app_length.
    repeat constructor; by eexists.
Qed.

End MainModes.

Lemma dry_run_only_prints_witness :
  let run := main Scenario.env_ok Modes.args_dry_run Scenario.fresh in
  a_dry_run Modes.args_dry_run = true
  ∧ state_file run.2 = state_file Scenario.fresh
  ∧ Forall is_print (new_events Scenario.fresh run.2)
  ∧ run.1 = inl (SysExit 0).
Proof.
  intros run.
  assert (a_dry_run Modes.args_dry_run = true) as Hdry by reflexivity.
  destruct (dry_run_only_prints Scenario.env_ok Modes.args_dry_run
              Scenario.fresh Hdry) as (Hfile & Hprints & _).
  split_and!; [exact Hdry|exact Hfile|exact Hprints|].
  vm_compute. reflexivity.
Defined.

Lemma check_mode_never_deploys_witness :
  let run := main Scenario.env_ok Modes.args_check Scenario.fresh in
  a_check Modes.args_check = true
  ∧ state_file run.2 = state_file Scenario.fresh
  ∧ Forall print_or_probe (new_events Scenario.fresh run.2)
  ∧ run.1 = inl (SysExit 0).
Proof.
  intros run.
  assert (a_check Modes.args_check = true) as Hcheck by reflexivity.
  destruct (check_mode_never_deploys Scenario.env_ok Modes.args_check
              Scenario.fresh Hcheck) as (Hfile & Hprints & _).
  split_and!; [exact Hcheck|exact Hfile|exact Hprints|].
  vm_compute. reflexivity.
Defined.

Lemma check_mode_probes_each_host_once_witness :
  let run := run_selected Outage.env_unreachable Modes.args_check "token"
               [Scenario.rpi; Scenario.mac] Scenario.fresh in
  a_check Modes.args_check = true
  ∧ a_dry_run Modes.args_check = false
  ∧ [Scenario.rpi; Scenario.mac] ≠ []
  ∧ run.1 = inl (SysExit 0)
  ∧ probed (new_events Scenario.fresh run.2)
    = ["rpi-london-001"; "mac-paris-002"].
Proof.
  intros run.
  assert (a_check Modes.args_check = true) as Hcheck by reflexivity.
  assert (a_dry_run Modes.args_check = false) as Hdry by reflexivity.
  assert ([Scenario.rpi; Scenario.mac] ≠ []) as Hne by discriminate.
  destruct (check_mode_probes_each_host_once Outage.env_unreachable
              Modes.args_check "token" [Scenario.rpi; Scenario.mac]
              Scenario.fresh Hcheck Hdry Hne) as (Hexit & _ & Hprobed).
  split_and!; [exact Hcheck|exact Hdry|exact Hne|exact Hexit|exact Hprobed].
Defined.

Lemma check_with_dry_run_raises_witness :
  let run := run_selected Scenario.env_ok Modes.args_check_dry_run "token"
               [Scenario.rpi] Scenario.fresh in
  a_check Modes.args_check_dry_run = true
  ∧ a_dry_run Modes.args_check_dry_run = true
  ∧ [Scenario.rpi] ≠ []
  ∧ process_exit_code run = 1
  ∧ new_events Scenario.fresh run.2
    = [EvPrint (LF +:+ "Testing connectivity to 1 devices..." +:+ LF)].
Proof.
  intros run.
  assert (a_check Modes.args_check_dry_run = true) as Hcheck by reflexivity.
  assert (a_dry_run Modes.args_check_dry_run = true) as Hdry by reflexivity.
  assert ([Scenario.rpi] ≠ []) as Hne by discriminate.
  destruct (check_with_dry_run_raises Scenario.env_ok
              Modes.args_check_dry_run "token" [Scenario.rpi] Scenario.fresh
              Hcheck Hdry Hne) as (_ & Hcode & Hevents).
  split_and!; [exact Hcheck|exact Hdry|exact Hne|exact Hcode|exact Hevents].
Defined.

Lemma declined_confirmation_deploys_nothing_witness :
  let run := run_selected Scenario.env_ok Scenario.args_plain "token"
               [Scenario.rpi; Scenario.mac] Modes.world_no in
  (1 < length [Scenario.rpi; Scenario.mac])%nat
  ∧ answered_yes "n" = false
  ∧ run.1 = inl (SysExit 0)
  ∧ same_store Modes.world_no run.2
  ∧ Forall is_print (new_events Modes.world_no run.2).
Proof.
  intros run.
  assert (1 < length [Scenario.rpi; Scenario.mac])%nat as Hmany
    by (simpl; lia).
  assert (answered_yes "n" = false) as Hno by reflexivity.
  assert (∀ answer rest,
            stdin Modes.world_no = answer :: rest → answered_yes answer = false)
    as Hanswer by (by intros answer rest [= <- _]).
  destruct (declined_confirmation_deploys_nothing Scenario.env_ok
              Scenario.args_plain "token" [Scenario.rpi; Scenario.mac]
              Modes.world_no eq_refl eq_refl Hmany Hanswer)
    as (Hexit & Hstore & Hprints).
  split_and!; [exact Hmany|exact Hno|exact Hexit|exact Hstore|exact Hprints].
Defined.

(* ===================================================================== *)
(** * Every host once                                                     *)
(* ===================================================================== *)

Section Once.

Context (env : Env).


Lemma path_probed device zabbix_token scripts_dir log_dir use_github tr r :
  deploy_path env device zabbix_token scripts_dir log_dir use_github tr r →
  probed tr = [device_name device].
Proof.
  intros H. path_cases H; try done.
  all: by destruct (ssh_run env device cleanup_command 10).
Qed.

Lemma record_events name status err w :
  ∃ tr,
    events ((now ← datetime_now_isoformat env;
             state_setitem name (state_entry status now err);; _save) w).2
    = events w ++ tr
    ∧ probed tr = [].
Proof.
  unfold datetime_now_isoformat, time_time, state_setitem, _save.
  unfold_monad.
  destruct (clock w) as [|t ck]; simpl;
    destruct (sm_state w) as [| | | | |m]; simpl;
    try (exists []; by rewrite app_nil_r);
    destruct (write_faults w) as [|[] wf]; simpl;
    try (exists []; by rewrite app_nil_r); by eexists [_].
Qed.

Lemma deploy_and_record_probed device zabbix_token scripts_dir log_dir
    use_github w :
  ∃ tr,
    events (deploy_and_record env device zabbix_token scripts_dir log_dir
              use_github w).2 = events w ++ tr
    ∧ probed tr = [device_name device].
Proof.
  unfold deploy_and_record, mbind, M_bind.
  destruct (deploy_device_path env device zabbix_token scripts_dir log_dir
              use_github w) as (_ & tr & Hev & Hpath).
  apply path_probed in Hpath.
  destruct (deploy_device env device zabbix_token scripts_dir log_dir
              use_github w) as [[e|res] w1]; simpl in *; [by exists tr|].
  assert (∃ tr2,
            events ((if success res
                     then mark_success env (device_name device)
                     else mark_failed env (device_name device)
                            (error_message res)) w1).2 = events w1 ++ tr2
            ∧ probed tr2 = []) as (tr2 & Hev2 & Hprobed2).
  { destruct (success res); apply record_events. }
  revert Hev2.
  destruct ((if success res
             then mark_success env (device_name device)
             else mark_failed env (device_name device) (error_message res))
              w1) as [[e|[]] w2]; simpl; intros Hev2;
    exists (tr ++ tr2); by rewrite Hev2, Hev, app_assoc, probed_app, Hpath,
                             Hprobed2.
Qed.

(** One pass of a loop yields the outcome of the device and probes it
    once. *)
Lemma attempt_run args zabbix_token device w :
  ∃ result w' tr,
    attempt env args zabbix_token device w = (inr result, w')
    ∧ r_device_name result = device_name device
    ∧ events w' = events w ++ tr
    ∧ probed tr = [device_name device].
Proof.
  destruct (attempt_total env args zabbix_token device w)
    as (result & w' & Hrun & Hname).
  destruct (deploy_and_record_probed device zabbix_token (a_scripts_dir args)
              (a_log_dir args) (a_github args) w) as (tr & Hev & Hprobed).
  exists result, w', tr. split_and!; [done|done| |done].
  rewrite <- Hev. unfold attempt in Hrun. unfold_monad.
  destruct (deploy_and_record env device zabbix_token (a_scripts_dir args)
              (a_log_dir args) (a_github args) w) as [[[e|code]|res] w1];
    simpl in *; by simplify_eq.
Qed.

Lemma print_device_result_run result w :
  ∃ w' tr,
    print_device_result result w = (inr (), w')
    ∧ events w' = events w ++ tr ∧ probed tr = [].
Proof.
  unfold print_device_result. unfold_monad.
  destruct (success result); [by eexists _, [_]|]. simpl.
  destruct (PyStr.nonempty (log_file result)); simpl;
    eexists _, _; (split; [reflexivity|]); simpl;
    rewrite <- ?app_assoc; by split.
Qed.

Lemma deploy_sequential_probed args zabbix_token devices results w :
  ∃ results' w' tr,
    deploy_sequential env args zabbix_token devices results w
    = (inr (results ++ results'), w')
    ∧ map r_device_name results' = map device_name devices
    ∧ events w' = events w ++ tr
    ∧ probed tr = map device_name devices.
Proof.
  revert results w. induction devices as [|device rest IH]; intros results w.
  - exists [], w, []. by rewrite !app_nil_r.
  - cbn [deploy_sequential].
    rewrite (bind_inr _ _ w () (add_event (EvPrint _) w) eq_refl).
    set (w0 := add_event _ w).
    destruct (attempt_run args zabbix_token device w0)
      as (result & w1 & tr1 & Hattempt & Hname & Hev1 & Hprobed1).
    rewrite (bind_inr _ _ _ _ _ Hattempt). cbv zeta.
    destruct (print_device_result_run result w1)
      as (w2 & tr2 & Hprint & Hev2 & Hprobed2).
    rewrite (bind_inr _ _ _ _ _ Hprint).
    destruct (IH (results ++ [result]) w2)
      as (results' & w' & tr3 & Hrest & Hnames & Hev3 & Hprobed3).
    exists (result :: results'), w', (EvPrint
      (device_name device +:+ " (" +:+ platform device +:+ " @ "
       +:+ tailscale_ip device +:+ ")...") :: tr1 ++ tr2 ++ tr3).
    split_and!.
    + rewrite Hrest. by rewrite <- app_assoc.
    + simpl. by rewrite Hname, Hnames.
    + rewrite Hev3, Hev2, Hev1. unfold w0. simpl.
      by rewrite <- !app_assoc.
    + simpl. by rewrite !probed_app, Hprobed1, Hprobed2, Hprobed3.
Qed.

Lemma deploy_parallel_probed workers args zabbix_token pending results w :
  (0 < workers)%nat →
  ∃ w' tr,
    (deploy_parallel env (length pending) workers args zabbix_token pending
       results w).2 = w'
    ∧ events w' = events w ++ tr
    ∧ probed tr ≡ₚ map device_name pending.
Proof.
  intros Hworkers.
  remember (length pending) as fuel eqn:Hfuel.
  revert pending results w Hfuel.
  induction fuel as [|fuel IH]; intros pending results w Hfuel.
  - destruct pending; [|done]. exists w, []. by rewrite app_nil_r.
  - destruct pending as [|device0 pending']; [done|].
    cbn [deploy_parallel]. set (pending := device0 :: pending') in *.
    destruct (next_completion_bound (Nat.min workers (length pending)) w)
      as (k & w0 & Hnext & Hk); [simpl; lia|].
    assert (events w0 = events w) as Hev0.
    { unfold next_completion in Hnext.
      destruct (completions w); by injection Hnext as _ <-. }
    rewrite (bind_inr _ _ _ _ _ Hnext). cbv zeta.
    assert (k < length pending)%nat as Hlt by lia.
    destruct (lookup_lt_is_Some_2 pending k Hlt) as [device Hdevice].
    rewrite (nth_lookup_Some _ _ device0 _ Hdevice).
    destruct (attempt_run args zabbix_token device w0)
      as (result & w1 & tr1 & Hattempt & Hname & Hev1 & Hprobed1).
    rewrite (bind_inr _ _ _ _ _ Hattempt).
    destruct (print_device_result_run result w1)
      as (w2 & tr2 & Hprint & Hev2 & Hprobed2).
    rewrite (bind_inr _ _ _ _ _ Hprint).
    destruct (IH (delete k pending) (results ++ [result]) w2)
      as (w' & tr3 & Hrest & Hev3 & Hprobed3).
    { rewrite length_delete by eauto. simpl in *. lia. }
    exists w', (tr1 ++ tr2 ++ tr3). split_and!.
    + done.
    + rewrite Hev3, Hev2, Hev1, Hev0. by rewrite <- !app_assoc.
    + rewrite (delete_Permutation pending k device Hdevice).
      rewrite !probed_app, Hprobed1, Hprobed2. simpl. by constructor.
Qed.

(** In one run of step 12 every selected device is probed exactly once,
    whatever the size of the pool; without a pool the devices are probed,
    and their outcomes listed, in the order of the inventory. *)
Theorem each_host_probed_once args zabbix_token devices w :
  let run := deploy_all env args zabbix_token devices w in
  probed (new_events w run.2) ≡ₚ map device_name devices
  ∧ (a_parallel args ≤ 1 →
     probed (new_events w run.2) = map device_name devices
     ∧ ∃ results,
         run.1 = inr results
         ∧ map r_device_name results = map device_name devices).
Proof.
  cbv zeta. unfold deploy_all.
  destruct (Z.ltb_spec 1 (a_parallel args)) as [Hpar|Hseq].
  - split; [|lia].
    rewrite (bind_inr _ _ w () (add_event (EvPrint _) w) eq_refl).
    set (w0 := add_event _ w).
    destruct (deploy_parallel_probed (Z.to_nat (a_parallel args)) args
                zabbix_token devices [] w0) as (w' & tr & -> & Hev & Hprobed);
      [lia|].
    unfold new_events. rewrite Hev. unfold w0. simpl.
    by rewrite <- app_assoc, drop_app_length.
  - rewrite (bind_inr _ _ w () (add_event (EvPrint _) w) eq_refl).
    set (w0 := add_event _ w).
    destruct (deploy_sequential_probed args zabbix_token devices [] w0)
      as (results & w' & tr & Hrun & Hnames & Hev & Hprobed).
    rewrite Hrun. simpl.
    assert (probed (new_events w w') = map device_name devices) as Hp.
    { unfold new_events. rewrite Hev. unfold w0. simpl.
      by rewrite <- app_assoc, drop_app_length. }
    split; [by rewrite Hp|]. intros _. split; [done|by exists results].
Qed.

End Once.

(* ===================================================================== *)
(** * The attempts of a run, one after the other                          *)
(* ===================================================================== *)

Section Chain.

Context (env : Env).

Lemma between_refl w : between w w.
Proof.
  split_and!; [apply same_store_refl|done|].
  exists []. by rewrite app_nil_r.
Qed.

Lemma between_trans w1 w2 w3 : between w1 w2 → between w2 w3 → between w1 w3.
Proof.
  intros (Hs1 & Hc1 & tr1 & He1 & Hp1) (Hs2 & Hc2 & tr2 & He2 & Hp2).
  split_and!; [by eapply same_store_trans|congruence|].
  exists (tr1 ++ tr2). split; [by rewrite He2, He1, <- app_assoc|].
  by apply Forall_app.
Qed.

Lemma between_print line w : between w (add_event (EvPrint line) w).
Proof.
  split_and!; [done|done|].
  exists [EvPrint line]. split; [done|]. repeat constructor. by eexists.
Qed.

Lemma between_print_device_result result w :
  ∃ w', print_device_result result w = (inr (), w') ∧ between w w'.
Proof.
  unfold print_device_result. unfold_monad.
  destruct (success result); [eexists; split; [done|apply between_print]|].
  simpl. destruct (PyStr.nonempty (log_file result));
    (eexists; split; [reflexivity|]);
    repeat (eapply between_trans; [|apply between_print]);
    apply between_refl.
Qed.

Lemma between_next_completion n w :
  (0 < n)%nat →
  ∃ k w', next_completion n w = (inr k, w') ∧ (k < n)%nat ∧ between w w'.
Proof.
  intros Hn. unfold next_completion.
  destruct (completions w) as [|k rest].
  - exists 0%nat, w. split_and!; [done|done|apply between_refl].
  - eexists _, _. split_and!; [done|apply Nat.mod_upper_bound; lia|].
    split_and!; [done|done|].
    exists []. by rewrite app_nil_r.
Qed.

(** What the loop printed before the first pass is no pass. *)
Lemma attempted_after args zabbix_token order w w0 results w' :
  between w w0 →
  attempted env args zabbix_token order w0 results w' →
  attempted env args zabbix_token order w results w'.
Proof.
  intros Hb H. destruct H as [w0 w' Hb'|device order w0 w1 result w2 results w'
                                         Hb' Hattempt Hrest].
  - constructor. by eapply between_trans.
  - econstructor; [by eapply between_trans|done|done].
Qed.

(** The outcomes of the passes bear the names of the devices attempted. *)
Lemma attempted_names args zabbix_token order w results w' :
  attempted env args zabbix_token order w results w' →
  map r_device_name results = map device_name order.
Proof.
  induction 1 as [|device order w w0 result w1 results w' _ Hattempt _ IH];
    [done|].
  destruct (attempt_total env args zabbix_token device w0)
    as (result' & w1' & Hattempt' & Hname).
  rewrite Hattempt in Hattempt'. injection Hattempt' as <- <-.
  simpl. by rewrite Hname, IH.
Qed.

(** The sequential loop is the chain of its passes, in inventory order. *)
Lemma deploy_sequential_attempted args zabbix_token devices results w :
  ∃ results' w',
    deploy_sequential env args zabbix_token devices results w
    = (inr (results ++ results'), w')
    ∧ attempted env args zabbix_token devices w results' w'.
Proof.
  revert results w. induction devices as [|device rest IH]; intros results w.
  - exists [], w. rewrite app_nil_r. split; [done|].
    constructor. apply between_refl.
  - cbn [deploy_sequential].
    rewrite (bind_inr _ _ w () (add_event (EvPrint _) w) eq_refl).
    set (w0 := add_event _ w).
    destruct (attempt_total env args zabbix_token device w0)
      as (result & w1 & Hattempt & _).
    rewrite (bind_inr _ _ _ _ _ Hattempt). cbv zeta.
    destruct (between_print_device_result result w1) as (w2 & Hprint & Hb).
    rewrite (bind_inr _ _ _ _ _ Hprint).
    destruct (IH (results ++ [result]) w2) as (results' & w' & Hrest & Hchain).
    exists (result :: results'), w'. split.
    + rewrite Hrest. by rewrite <- app_assoc.
    + econstructor; [apply between_print|exact Hattempt|].
      by apply attempted_after with w2.
Qed.

(** The pool is the chain of its passes, in the order the workers
    finish. *)
Lemma deploy_parallel_attempted workers args zabbix_token pending results w :
  (0 < workers)%nat →
  ∃ order results' w',
    deploy_parallel env (length pending) workers args zabbix_token pending
      results w
    = (inr (results ++ results'), w')
    ∧ order ≡ₚ pending
    ∧ attempted env args zabbix_token order w results' w'.
Proof.
  intros Hworkers.
  remember (length pending) as fuel eqn:Hfuel.
  revert pending results w Hfuel.
  induction fuel as [|fuel IH]; intros pending results w Hfuel.
  - destruct pending; [|done]. exists [], [], w. rewrite app_nil_r.
    split_and!; [done|done|]. constructor. apply between_refl.
  - destruct pending as [|device0 pending']; [done|].
    cbn [deploy_parallel]. set (pending := device0 :: pending') in *.
    destruct (between_next_completion (Nat.min workers (length pending)) w)
      as (k & w0 & Hnext & Hk & Hb0); [simpl; lia|].
    rewrite (bind_inr _ _ _ _ _ Hnext). cbv zeta.
    assert (k < length pending)%nat as Hlt by lia.
    destruct (lookup_lt_is_Some_2 pending k Hlt) as [device Hdevice].
    rewrite (nth_lookup_Some _ _ device0 _ Hdevice).
    destruct (attempt_total env args zabbix_token device w0)
      as (result & w1 & Hattempt & _).
    rewrite (bind_inr _ _ _ _ _ Hattempt).
    destruct (between_print_device_result result w1) as (w2 & Hprint & Hb).
    rewrite (bind_inr _ _ _ _ _ Hprint).
    destruct (IH (delete k pending) (results ++ [result]) w2)
      as (order & results' & w' & Hrest & Horder & Hchain).
    { rewrite length_delete by eauto. simpl in *. lia. }
    exists (device :: order), (result :: results'), w'. split_and!.
    + rewrite Hrest. by rewrite <- app_assoc.
    + rewrite (delete_Permutation pending k device Hdevice).
      by constructor.
    + econstructor; [exact Hb0|exact Hattempt|].
      by apply attempted_after with w2.
Qed.

(** Step 12 is the chain of the passes over the selected devices. *)
Lemma deploy_all_attempted args zabbix_token devices w :
  ∃ order results w',
    deploy_all env args zabbix_token devices w = (inr results, w')
    ∧ order ≡ₚ devices
    ∧ (a_parallel args ≤ 1 → order = devices)
    ∧ attempted env args zabbix_token order w results w'.
Proof.
  unfold deploy_all.
  destruct (Z.ltb_spec 1 (a_parallel args)) as [Hpar|Hseq].
  - rewrite (bind_inr _ _ w () (add_event (EvPrint _) w) eq_refl).
    set (w0 := add_event _ w).
    destruct (deploy_parallel_attempted (Z.to_nat (a_parallel args)) args
                zabbix_token devices [] w0)
      as (order & results & w' & Hrun & Horder & Hchain); [lia|].
    exists order, results, w'. split_and!; [done|done|lia|].
    apply attempted_after with w0; [apply between_print|done].
  - rewrite (bind_inr _ _ w () (add_event (EvPrint _) w) eq_refl).
    set (w0 := add_event _ w).
    destruct (deploy_sequential_attempted args zabbix_token devices [] w0)
      as (results & w' & Hrun & Hchain).
    exists devices, results, w'. split_and!; [done|done|done|].
    apply attempted_after with w0; [apply between_print|done].
Qed.

(** A run that is neither a check nor a dry run, and is confirmed where
    it asks, comes to step 11: when the log directory cannot be made it
    ends there, with that exception, having only printed; otherwise it
    runs step 12 over the selected devices, prints the summary of the
    outcomes of step 12, and ends with status 1 when one of them is a
    failure. *)
Lemma run_selected_deploys args zabbix_token devices w0 :
  a_check args = false →
  a_dry_run args = false →
  ((length devices ≤ 1)%nat
   ∨ ∃ answer rest, stdin w0 = answer :: rest ∧ answered_yes answer = true) →
  let run := run_selected env args zabbix_token devices w0 in
  match makedirs_fault env (a_log_dir args) with
  | Some e => run.1 = inl (Raise e) ∧ between w0 run.2
  | None =>
      ∃ w1 results w2,
        between w0 w1
        ∧ deploy_all env args zabbix_token devices w1 = (inr results, w2)
        ∧ between w2 run.2
        ∧ run.1 = (if existsb (λ r, negb (success r)) results
                   then inl (SysExit 1) else inr ())
  end.
Proof.
  intros Hcheck Hdry Hconfirm. cbv zeta. unfold run_selected.
  rewrite Hcheck, Hdry.
  rewrite (bind_inr (mret ()) _ w0 () w0 eq_refl).
  set (wA := add_event (EvPrint ("Devices:    " +:+ pretty (length devices)))
               (add_event (EvPrint "DEPLOYMENT PLAN") w0)).
  rewrite (bind_inr (print_deployment_plan devices args) _ w0 () wA eq_refl).
  rewrite (bind_inr (mret ()) _ wA () wA eq_refl).
  assert (between w0 wA) as HbA.
  { repeat (eapply between_trans; [|apply between_print]).
    apply between_refl. }
  match goal with
  | |- context [(?c ≫= _) wA] =>
      assert (∃ wB, c wA = (inr (), wB) ∧ between wA wB)
        as (wB & Hasked & HbB)
  end.
  { destruct (Nat.ltb_spec 1 (length devices)) as [Hmany|Hfew].
    - destruct Hconfirm as [?|(answer & rest & Hin & Hyes)]; [lia|].
      unfold input. unfold_monad.
      change (stdin wA) with (stdin w0). rewrite Hin, Hyes. simpl.
      eexists. split; [reflexivity|].
      split_and!; [done|done|]. eexists [_]. split; [done|].
      repeat constructor. by eexists.
    - exists wA. split; [done|apply between_refl]. }
  rewrite (bind_inr _ _ _ _ _ Hasked).
  pose proof (between_trans _ _ _ HbA HbB) as Hb.
  destruct (makedirs_fault env (a_log_dir args)) as [e|].
  - rewrite (bind_inl (reraise e) _ wB (Raise e) wB eq_refl). by split.
  - rewrite (bind_inr (mret ()) _ wB () wB eq_refl).
    destruct (deploy_all_total env args zabbix_token devices wB)
      as (results & w2 & Hrun & _).
    rewrite (bind_inr _ _ _ _ _ Hrun).
    exists wB, results, w2. split_and!; [done|done| |].
    all: unfold print_summary_report, exit_on_failures; unfold_monad.
    all: destruct (existsb _ results); simpl; try done.
    all: repeat (eapply between_trans; [|apply between_print]).
    all: apply between_refl.
Qed.




(** C1. Whatever the size of the pool, step 12 runs to its end, and its
    list of outcomes is made by one pass of [attempt] per selected device
    and by nothing else: the passes go over the devices in some order
    (a permutation of the selected devices, so each of them once and none
    besides; the inventory order when the loop is sequential), every pass
    starts in the world the pass before it left, and its outcome, which
    bears the name of its device, is put on the list in that order. A
    pass yields the outcome of the worker when the worker returns; when
    the worker raises, it yields the substitute with the text
    "Unexpected error: " and the world as the worker left it, and the
    passes over the other devices go on. No worker ends the process. A
    run that is neither a check nor a dry run, and is confirmed where it
    asks, comes to step 12 having only printed, unless the log directory
    cannot be made, which ends it before any host is attempted; after
    step 12 it only prints, and it ends with status 1 exactly when one of
    the outcomes of step 12 is a failure. *)
Theorem every_host_gets_one_outcome args zabbix_token devices w :
  (∃ order results w',
     deploy_all env args zabbix_token devices w = (inr results, w')
     ∧ order ≡ₚ devices
     ∧ (a_parallel args ≤ 1 → order = devices)
     ∧ attempted env args zabbix_token order w results w'
     ∧ map r_device_name results = map device_name order
     ∧ length results = length devices)
  ∧ (∀ device w0,
       match deploy_and_record env device zabbix_token (a_scripts_dir args)
               (a_log_dir args) (a_github args) w0 with
       | (inr result, w1) =>
           attempt env args zabbix_token device w0 = (inr result, w1)
       | (inl (Raise e), w1) =>
           attempt env args zabbix_token device w0
           = (inr (mkResult (device_name device) false 0
                     ("Unexpected error: " +:+ exn_str e) ""), w1)
       | (inl (SysExit _), _) => False
       end)
  ∧ (∀ w0,
       a_check args = false →
       a_dry_run args = false →
       ((length devices ≤ 1)%nat
        ∨ ∃ answer rest,
            stdin w0 = answer :: rest ∧ answered_yes answer = true) →
       let run := run_selected env args zabbix_token devices w0 in
       match makedirs_fault env (a_log_dir args) with
       | Some e => run.1 = inl (Raise e) ∧ between w0 run.2
       | None =>
           ∃ w1 results w2,
             between w0 w1
             ∧ deploy_all env args zabbix_token devices w1 = (inr results, w2)
             ∧ between w2 run.2
             ∧ run.1 = (if existsb (λ r, negb (success r)) results
                        then inl (SysExit 1) else inr ())
       end).
Proof.
  split_and!.
  - destruct (deploy_all_attempted args zabbix_token devices w)
      as (order & results & w' & Hrun & Horder & Hseq & Hchain).
    exists order, results, w'. split_and!; try done.
    + by apply attempted_names in Hchain.
    + apply attempted_names in Hchain. apply (f_equal length) in Hchain.
      rewrite !length_map in Hchain. rewrite Hchain.
      by apply Permutation_length.
  - intros device w0. unfold attempt, try_except.
    destruct (deploy_and_record env device zabbix_token (a_scripts_dir args)
                (a_log_dir args) (a_github args) w0)
      as [[[e|code]|result] w1] eqn:H; [done| |done].
    by apply deploy_and_record_cases in H.
  - intros w0. apply run_selected_deploys.
Qed.




End Chain.

Lemma every_host_gets_one_outcome_witness :
  let run := deploy_all Scenario.env_ok Scenario.args_plain "token"
               [Scenario.rpi; Scenario.mac] Scenario.world_write_fault in
  let whole := run_selected Scenario.env_ok Scenario.args_plain "token"
                 [Scenario.rpi; Scenario.mac] Scenario.world_write_fault in
  a_parallel Scenario.args_plain ≤ 1
  ∧ (∃ results,
       run.1 = inr results
       ∧ attempted Scenario.env_ok Scenario.args_plain "token"
           [Scenario.rpi; Scenario.mac] Scenario.world_write_fault results
           run.2
       ∧ map r_device_name results = ["rpi-london-001"; "mac-paris-002"]
       ∧ head results
         = Some (mkResult "rpi-london-001" false 0
                   "Unexpected error: Permission denied" ""))
  ∧ a_check Scenario.args_plain = false
  ∧ a_dry_run Scenario.args_plain = false
  ∧ stdin Scenario.world_write_fault = ["y"]
  ∧ answered_yes "y" = true
  ∧ (∃ w1 results w2,
       between Scenario.world_write_fault w1
       ∧ deploy_all Scenario.env_ok Scenario.args_plain "token"
           [Scenario.rpi; Scenario.mac] w1 = (inr results, w2)
       ∧ between w2 whole.2)
  ∧ whole.1 = inl (SysExit 1).
Proof.
  intros run whole.
  assert (a_parallel Scenario.args_plain ≤ 1) as Hone by (simpl; lia).
  assert (answered_yes "y" = true) as Hyes by reflexivity.
  destruct (every_host_gets_one_outcome Scenario.env_ok Scenario.args_plain
              "token" [Scenario.rpi; Scenario.mac] Scenario.world_write_fault)
    as [(order & results & w' & Hrun & _ & Hseq & Hchain & Hnames & _)
        [_ Hwhole]].
  rewrite (Hseq Hone) in Hchain, Hnames.
  destruct (Hwhole Scenario.world_write_fault eq_refl eq_refl
              (or_intror (ex_intro _ "y" (ex_intro _ []
                                            (conj eq_refl Hyes)))))
    as (w1 & results1 & w2 & Hb1 & Hrun1 & Hb2 & _).
  split_and!; [exact Hone| |reflexivity|reflexivity|reflexivity|exact Hyes
              |by exists w1, results1, w2|vm_compute; reflexivity].
  exists results.
  assert (run = (inr results, w')) as -> by exact Hrun.
  split_and!; [reflexivity|exact Hchain|exact Hnames|].
  pose proof Hrun as Hvalue. vm_compute in Hvalue.
  by injection Hvalue as <- _.
Defined.



(* ===================================================================== *)
(** * Command line, prerequisites and the plan                            *)
(* ===================================================================== *)

Section CommandLine.

Context (env : Env).

Lemma nonempty_app_r a b :
  PyStr.nonempty b = true → PyStr.nonempty (a +:+ b) = true.
Proof. destruct a; [done|]. by intros _. Qed.

Lemma nonempty_os_path_join a b :
  PyStr.nonempty b = true → PyStr.nonempty (os_path_join a b) = true.
Proof.
  intros Hb. unfold os_path_join.
  repeat case_match; subst; try done;
    repeat (apply nonempty_app_r; try done).
Qed.

Lemma nonempty_or_default x default :
  PyStr.nonempty default = true →
  PyStr.nonempty (or_default x default) = true.
Proof. unfold or_default. by destruct (PyStr.nonempty x) eqn:Hx. Qed.

Lemma or_default_nonempty x default :
  PyStr.nonempty x = true → or_default x default = x.
Proof. unfold or_default. by intros ->. Qed.

(** [parse_args] ends the process only where the parser does: with status
    0 after printing the help, with status 2 on a command line the parser
    rejects. A namespace it always returns, with [--parallel] brought into
    the range 1 to 5 and a warning only for a value above 5; the scripts
    directory, the log directory and the state file are as given, or,
    where none was given, the default under the root of the repository,
    and so never empty; every other option is as given. Applied to its
    own result it changes nothing and warns of nothing. *)
Theorem parse_args_clamps_parallel cmdline w :
  let run := parse_args env cmdline w in
  match cmdline with
  | ArgHelp help => run = (inl (SysExit 0), add_event (EvPrint help) w)
  | ArgError _ => run = (inl (SysExit 2), w)
  | ArgNamespace raw =>
      ∃ args,
        run.1 = inr args
        ∧ a_parallel args = Z.max 1 (Z.min 5 (a_parallel raw))
        ∧ a_scripts_dir args
          = or_default (a_scripts_dir raw)
              (os_path_join (repo_root env) "scripts")
        ∧ a_log_dir args
          = or_default (a_log_dir raw) (os_path_join (repo_root env) "logs")
        ∧ a_state_file args
          = or_default (a_state_file raw)
              (os_path_join (repo_root env) "rollout-state.json")
        ∧ PyStr.nonempty (a_scripts_dir args) = true
        ∧ PyStr.nonempty (a_log_dir args) = true
        ∧ PyStr.nonempty (a_state_file args) = true
        ∧ set_parallel (a_parallel raw)
            (set_dirs (a_scripts_dir raw) (a_log_dir raw) (a_state_file raw)
               args) = raw
        ∧ same_store w run.2
        ∧ new_events w run.2
          = (if 5 <? a_parallel raw
             then [EvPrint "WARNING: Limiting parallel deployments to 5"]
             else [])
        ∧ parse_args env (ArgNamespace args) run.2 = (inr args, run.2)
  end.
Proof.
  cbv zeta. destruct cmdline as [help|usage|raw]; [done|done|].
  assert (∀ args : Args,
            PyStr.nonempty (a_scripts_dir args) = true →
            PyStr.nonempty (a_log_dir args) = true →
            PyStr.nonempty (a_state_file args) = true →
            1 ≤ a_parallel args ≤ 5 →
            ∀ w', parse_args env (ArgNamespace args) w' = (inr args, w'))
    as Hfix.
  { intros args Hs Hl Hf Hrange w'. unfold parse_args. cbv zeta.
    rewrite !or_default_nonempty by done.
    replace (set_dirs (a_scripts_dir args) (a_log_dir args)
               (a_state_file args) args) with args by by destruct args.
    destruct (Z.ltb_spec (a_parallel args) 1); [lia|].
    by destruct (Z.ltb_spec 5 (a_parallel args)); [lia|]. }
  pose proof (nonempty_or_default (a_scripts_dir raw)
                (os_path_join (repo_root env) "scripts")
                (nonempty_os_path_join (repo_root env) "scripts" eq_refl)) as Hs.
  pose proof (nonempty_or_default (a_log_dir raw)
                (os_path_join (repo_root env) "logs")
                (nonempty_os_path_join (repo_root env) "logs" eq_refl)) as Hl.
  pose proof (nonempty_or_default (a_state_file raw)
                (os_path_join (repo_root env) "rollout-state.json")
                (nonempty_os_path_join (repo_root env) "rollout-state.json" eq_refl)) as Hf.
  set (dirs := set_dirs
                 (or_default (a_scripts_dir raw)
                    (os_path_join (repo_root env) "scripts"))
                 (or_default (a_log_dir raw)
                    (os_path_join (repo_root env) "logs"))
                 (or_default (a_state_file raw)
                    (os_path_join (repo_root env) "rollout-state.json"))
                 raw) in *.
  set (warning := EvPrint "WARNING: Limiting parallel deployments to 5").
  assert (parse_args env (ArgNamespace raw) w
          = (inr (set_parallel (Z.max 1 (Z.min 5 (a_parallel raw))) dirs),
             if 5 <? a_parallel raw then add_event warning w else w))
    as Hrun.
  { unfold parse_args. cbv zeta. fold dirs.
    change (a_parallel dirs) with (a_parallel raw). unfold_monad.
    destruct (Z.ltb_spec (a_parallel raw) 1) as [Hlow|Hlow].
    - destruct (Z.ltb_spec 5 (a_parallel raw)); [lia|].
      by replace (Z.max 1 (Z.min 5 (a_parallel raw))) with 1 by lia.
    - destruct (Z.ltb_spec 5 (a_parallel raw)) as [Hhigh|Hhigh].
      + by replace (Z.max 1 (Z.min 5 (a_parallel raw))) with 5 by lia.
      + replace (Z.max 1 (Z.min 5 (a_parallel raw)))
          with (a_parallel raw) by lia.
        by destruct raw. }
  rewrite Hrun. cbn [fst snd].
  eexists. split; [reflexivity|].
  split_and!; try done.
  - by destruct raw.
  - by destruct (5 <? a_parallel raw).
  - destruct (5 <? a_parallel raw); unfold new_events.
    + simpl. by rewrite drop_app_length.
    + by rewrite drop_all.
  - apply Hfix; try done. simpl. lia.
Qed.

(** [check_prerequisites] ends the process, with status 1, exactly when
    the run is no dry run and one of sshpass, ssh and scp is not on the
    path; otherwise it returns the path of sshpass, or the bare name when
    a dry run finds none. It never raises. *)
Theorem check_prerequisites_cases dry_run w :
  let run := check_prerequisites env dry_run w in
  (run.1 = inl (SysExit 1)
   ↔ dry_run = false
     ∧ (which env "sshpass" = None ∨ which env "ssh" = None
        ∨ which env "scp" = None))
  ∧ (run.1 = inl (SysExit 1)
     ∨ run.1 = inr (default "sshpass" (which env "sshpass"))).
Proof.
  cbv zeta. unfold check_prerequisites. unfold_monad.
  destruct dry_run; simpl.
  - rewrite andb_false_r. simpl. split; [|by right].
    split; [done|by intros [[=] _]].
  - rewrite andb_true_r.
    destruct (which env "sshpass") as [p|] eqn:Hp; simpl.
    + destruct (which env "ssh") as [q|] eqn:Hq; simpl.
      * destruct (which env "scp") as [r|] eqn:Hr; simpl.
        -- split; [|by right]. split; [done|].
           by intros [_ [|[|]]].
        -- split; [|by left]. split; [|done]. intros _. split; [done|].
           by right; right.
      * split; [|by left]. split; [|done]. intros _. split; [done|].
        by right; left.
    + split; [|by left]. split; [|done]. intros _. split; [done|]. by left.
Qed.

Lemma platform_counts_foldl devices p (counts : gmap string nat) :
  default 0%nat
    (foldl (λ counts d,
              <[platform d := (default 0 (counts !! platform d) + 1)%nat]>
                counts) counts devices !! p)
  = (default 0 (counts !! p)
     + length (filter (λ d, platform d = p) devices))%nat.
Proof.
  revert counts. induction devices as [|d rest IH]; intros counts; simpl.
  - lia.
  - rewrite IH. rewrite filter_cons.
    destruct (decide (platform d = p)) as [->|Hne].
    + rewrite lookup_insert_eq. simpl. lia.
    + by rewrite lookup_insert_ne.
Qed.

Lemma platform_counts_positive devices p n (counts : gmap string nat) :
  (∀ q m, counts !! q = Some m → (0 < m)%nat) →
  foldl (λ counts d,
           <[platform d := (default 0 (counts !! platform d) + 1)%nat]>
             counts) counts devices !! p = Some n →
  (0 < n)%nat.
Proof.
  revert counts. induction devices as [|d rest IH]; intros counts Hpos; simpl.
  - apply Hpos.
  - apply IH. intros q m.
    destruct (decide (platform d = q)) as [->|Hne].
    + rewrite lookup_insert_eq. intros [= <-]. lia.
    + rewrite lookup_insert_ne by done. apply Hpos.
Qed.

(** The counts of the deployment plan: a platform is listed exactly when
    some device has it, and its count is the number of devices that have
    it. *)
Theorem platform_counts_count devices p :
  default 0%nat (platform_counts devices !! p)
  = length (filter (λ d, platform d = p) devices)
  ∧ (is_Some (platform_counts devices !! p)
     ↔ ∃ d, d ∈ devices ∧ platform d = p).
Proof.
  assert (default 0%nat (platform_counts devices !! p)
          = length (filter (λ d, platform d = p) devices)) as Hcount.
  { unfold platform_counts. rewrite platform_counts_foldl.
    by rewrite lookup_empty. }
  split; [done|]. split.
  - intros [n Hn].
    assert (0 < n)%nat as Hpos.
    { eapply (platform_counts_positive devices p n ∅); [|exact Hn].
      intros q m. by rewrite lookup_empty. }
    rewrite Hn in Hcount. simpl in Hcount.
    destruct (filter (λ d, platform d = p) devices) as [|d l] eqn:Hf;
      [simpl in Hcount; lia|].
    assert (d ∈ filter (λ d, platform d = p) devices) as Hd
      by (rewrite Hf; left).
    apply list_elem_of_filter in Hd as [Hp Hd]. by exists d.
  - intros (d & Hd & Hp).
    assert (d ∈ filter (λ d, platform d = p) devices) as Hin
      by (by apply list_elem_of_filter).
    destruct (platform_counts devices !! p) as [n|] eqn:Hn; [by eexists|].
    simpl in Hcount.
    destruct (filter (λ d, platform d = p) devices); [|done].
    by apply elem_of_nil in Hin.
Qed.

End CommandLine.

(* ===================================================================== *)
(** * Answers and filters                                                 *)
(* ===================================================================== *)

Section Answers.

Lemma lower_char_y c : lower_char c = "y"%char → c = "y"%char ∨ c = "Y"%char.
Proof.
  destruct c as [[] [] [] [] [] [] [] []]; vm_compute; intros H;
    first [discriminate H | by left | by right].
Qed.

(** The two confirmations of [main] read an answer as yes exactly when
    [response.strip().lower()] is ["y"]: the answers [y] and [Y], with any
    white space around them, and nothing else. A longer word such as
    [yes] declines. *)
Theorem answered_yes_accepts response :
  (answered_yes response = true ↔ str_lower (PyStr.strip response) = "y")
  ∧ answered_yes "yes" = false.
Proof.
  split; [|by vm_compute].
  unfold answered_yes. cbv zeta.
  rewrite orb_true_iff, !bool_decide_eq_true.
  generalize (PyStr.strip response). intros r. split.
  - by intros [-> | ->].
  - unfold str_lower. destruct r as [|c [|c' r]]; simpl; [done| |done].
    intros [= H]. by destruct (lower_char_y c H) as [-> | ->]; [left|right].
Qed.

End Answers.

Section Filters.

(** Step 4 of [main] keeps exactly the devices that match every filter
    given, in the order of the inventory; a filter that is given and
    leaves no device ends the run with status 1. Without a filter the
    devices pass as they are. *)
Theorem apply_filters_selects args devices w :
  let wanted d :=
    (a_device args = "" ∨ device_name d = a_device args)
    ∧ (a_platform args = "" ∨ platform d = a_platform args) in
  let selected := filter wanted devices in
  let run := apply_filters args devices w in
  run.1 = (if bool_decide (selected = [])
              && (PyStr.nonempty (a_device args)
                  || PyStr.nonempty (a_platform args))
           then inl (SysExit 1)
           else inr selected)
  ∧ same_store w run.2
  ∧ Forall is_print (new_events w run.2).
Proof.
  cbv zeta. unfold apply_filters. unfold_monad.
  assert (∀ s, PyStr.nonempty s = false → s = "") as Hempty
    by (by intros []).
  assert (∀ s, PyStr.nonempty s = true → s ≠ "") as Hfull
    by (by intros []).
  assert (Forall is_print (new_events w w)) as Hnone
    by (unfold new_events; by rewrite drop_all).
  assert (∀ line, Forall is_print (new_events w (add_event (EvPrint line) w)))
    as Hone.
  { intros line. unfold new_events. simpl. rewrite drop_app_length.
    apply Forall_singleton. by eexists. }
  destruct (PyStr.nonempty (a_device args)) eqn:Hdev;
    destruct (PyStr.nonempty (a_platform args)) eqn:Hplat; simpl.
  - apply Hfull in Hdev, Hplat.
    assert (filter (λ d, (a_device args = "" ∨ device_name d = a_device args)
                         ∧ (a_platform args = ""
                            ∨ platform d = a_platform args)) devices
            = filter (λ d, platform d = a_platform args)
                (filter (λ d, device_name d = a_device args) devices)) as ->.
    { rewrite list_filter_filter. apply list_filter_iff. intros d. tauto. }
    destruct (filter (λ d, device_name d = a_device args) devices)
      as [|d ds] eqn:Hf; simpl; [done|].
    destruct (filter (λ d, platform d = a_platform args) (d :: ds))
      as [|d' ds'] eqn:Hf'; simpl; done.
  - apply Hfull in Hdev. apply Hempty in Hplat.
    assert (filter (λ d, (a_device args = "" ∨ device_name d = a_device args)
                         ∧ (a_platform args = ""
                            ∨ platform d = a_platform args)) devices
            = filter (λ d, device_name d = a_device args) devices) as ->.
    { apply list_filter_iff. intros d. tauto. }
    destruct (filter (λ d, device_name d = a_device args) devices)
      as [|d ds] eqn:Hf; simpl; done.
  - apply Hempty in Hdev. apply Hfull in Hplat.
    assert (filter (λ d, (a_device args = "" ∨ device_name d = a_device args)
                         ∧ (a_platform args = ""
                            ∨ platform d = a_platform args)) devices
            = filter (λ d, platform d = a_platform args) devices) as ->.
    { apply list_filter_iff. intros d. tauto. }
    destruct (filter (λ d, platform d = a_platform args) devices)
      as [|d ds] eqn:Hf; simpl; done.
  - apply Hempty in Hdev, Hplat.
    assert (filter (λ d, (a_device args = "" ∨ device_name d = a_device args)
                         ∧ (a_platform args = ""
                            ∨ platform d = a_platform args)) devices
            = devices) as ->.
    { induction devices as [|d ds IH]; [done|].
      rewrite filter_cons_True by tauto. by rewrite IH. }
    rewrite andb_false_r. done.
Qed.

End Filters.
